(** * Contour (Adobe fork): the IngressRoute graph builder, the listener
    visitor with its snapshot cache, and the weighted-cluster projection.

    A shallow embedding of
      - internal/dag/builder_adobe.go  (validIngressRoutes, computeIngressRoute,
        processIngressRoutes, processIngressRouteTCPProxy),
      - internal/dag/policy_adobe.go,
      - internal/envoy/route.go        (weightedClusters),
      - internal/envoy/listener.go     (TCPProxy, FilterChainTLS, ...),
      - internal/contour/listener.go   (ListenerCache, listenerVisitor.visit),
      - internal/contour/listener_adobe.go (maxProtoVersion, isTCPProxyFilter).

    Go maps are finite maps ([gmap]); Go integers are [Z] with their
    wrap-around written out; a function with early [return]s is a function
    into a result type; the builder's mutable state is threaded explicitly. *)

From stdpp Require Import gmap strings list sorting pretty.
From Stdlib Require Import ZArith Lia.
From Stdlib Require OrderedTypeEx.

Set Warnings "-register-all,-clear-no-such-hyp".

Local Open Scope string_scope.
Local Open Scope Z_scope.

(** ** Go runtime helpers *)

(** Conversion to [uint32]: the low 32 bits. *)
Definition wrap_uint32 (z : Z) : Z := z mod 2 ^ 32.

(** Arithmetic on [int] / [int64]: two's complement on 64 bits. *)
Definition wrap_int64 (z : Z) : Z := (z + 2 ^ 63) mod 2 ^ 64 - 2 ^ 63.

(** [len(s) > 0] on a slice. *)
Definition nonempty {A : Type} (l : list A) : bool :=
  match l with [] => false | _ :: _ => true end.

(** [strings.Join]. *)
Fixpoint strings_Join (elems : list string) (sep : string) : string :=
  match elems with
  | [] => ""
  | [x] => x
  | x :: rest => x +:+ sep +:+ strings_Join rest sep
  end.

(** [sort.Stable] over a [Less] function: the elements are inserted, from the
    last to the first, in front of the first element that is not smaller, so
    that elements [Less] does not order keep their relative positions. *)
Section sorting.
Context {A : Type} (less : A → A → bool).

Fixpoint sort_insert (x : A) (l : list A) : list A :=
  match l with
  | [] => [x]
  | y :: l' => if less y x then y :: sort_insert x l' else x :: y :: l'
  end.

Definition sort_Stable (l : list A) : list A := foldr sort_insert [] l.

(** No element is followed by a smaller one. *)
Definition ordered : list A → Prop := Sorted (fun a b => less b a = false).
End sorting.

(** [sort.Strings]: increasing byte-wise order. *)
Definition sort_Strings (l : list string) : list string :=
  sort_Stable String.ltb l.

(** A value the modelled code only passes along (a protobuf message, a policy
    struct): it is never inspected. *)
Inductive Opaque : Type := opaque (tag : string).

(** The outcome of a computation that may stop with an error message. *)
Inductive result (A : Type) : Type :=
  | Ok (a : A)
  | Err (msg : string).
Arguments Ok {A} a.
Arguments Err {A} msg.

#[global] Instance result_ret : MRet result := fun A a => Ok a.
#[global] Instance result_bind : MBind result := fun A B k m =>
  match m with
  | Ok a => k a
  | Err msg => Err msg
  end.

(** How a call ends: with a value, with a run-time panic (a nil pointer
    dereference), or, in the model only, because the recursion budget given
    to it ran out. *)
Inductive run (A : Type) : Type :=
  | Done (a : A)
  | Panics
  | OutOfFuel.
Arguments Done {A} a.
Arguments Panics {A}.
Arguments OutOfFuel {A}.

(** The call came to an end within its budget. *)
Definition finished {A : Type} (r : run A) : bool :=
  match r with
  | OutOfFuel => false
  | _ => true
  end.

#[global] Instance run_fmap : FMap run := fun A B f m =>
  match m with
  | Done a => Done (f a)
  | Panics => Panics
  | OutOfFuel => OutOfFuel
  end.

#[global] Instance run_ret : MRet run := fun A a => Done a.
#[global] Instance run_bind : MBind run := fun A B k m =>
  match m with
  | Done a => k a
  | Panics => Panics
  | OutOfFuel => OutOfFuel
  end.

(** TLS protocol versions ([envoy_api_v2_auth.TlsParameters_TlsProtocol], an
    [int32] enumeration). *)
Definition TLS_AUTO : Z := 0.
Definition TLSv1_0 : Z := 1.
Definition TLSv1_1 : Z := 2.
Definition TLSv1_2 : Z := 3.
Definition TLSv1_3 : Z := 4.

(** [k8s.FullName]: (namespace, name). *)
Abbreviation FullName := (string * string)%type.

(** ** Dynamic values *)

(** [float32] and [float64] values, and Go's conversions to [float64] from an
    integer and from a [float32]: the floating-point formats are parameters. *)
Class Floats := {
  float32 : Type;
  float64 : Type;
  float64_of_int : Z → float64;
  float64_of_float32 : float32 → float64 }.

Section values.
Context `{Floats}.

(** An [interface{}] value by its dynamic type, as the type switch of
    recurseIface (envoy/route.go) tells them apart; [I_other] is a value of
    any other dynamic type, nil included. *)
Inductive Iface : Type :=
  | I_int (v : Z)
  | I_int32 (v : Z)
  | I_int64 (v : Z)
  | I_uint (v : Z)
  | I_uint32 (v : Z)
  | I_uint64 (v : Z)
  | I_float32 (v : float32)
  | I_float64 (v : float64)
  | I_string (v : string)
  | I_bool (v : bool)
  | I_map (v : gmap string Iface)
  | I_slice (v : list Iface)
  | I_other.

(** [types.Value] of protobuf's struct.proto. A [types.Struct] is its
    [Fields] map; a nil map reads as an empty one. *)
Inductive types_Value : Type :=
  | NullValue
  | NumberValue (v : float64)
  | StringValue (v : string)
  | BoolValue (v : bool)
  | StructValue (fields : gmap string types_Value)
  | ListValue (values : list types_Value).

End values.

(** ** Package dag *)
Module dag.

(** *** The IngressRoute API objects (apis/contour/v1beta1), as the builder
    reads them. *)

(** [duration.Duration], the protobuf duration inside the [IdleTimeout] and
    [Timeout] fields. *)
Record ProtoDuration := { Seconds : Z; Nanos : Z }.

Record Delegate := { Delegate_Name : string; Delegate_Namespace : string }.

Record HealthCheck := {
  HealthCheck_Path : string;
  HealthCheck_Host : string;
  IntervalSeconds : Z;
  TimeoutSeconds : Z;
  UnhealthyThresholdCount : Z;
  HealthyThresholdCount : Z }.

Record TimeoutPolicyIn := { Request : string }.

Record TracingIn := { ClientSampling : Z; RandomSampling : Z }.

Record ServiceIn := {
  Service_Name : string;
  Service_Port : Z;
  Service_Weight : Z;
  Service_Strategy : string;
  Service_HealthCheck : option HealthCheck;
  Service_UpstreamValidation : option Opaque;
  Service_IdleTimeout : option ProtoDuration }.

Record RouteIn := {
  Match : string;
  Services : list ServiceIn;
  Route_Delegate : option Delegate;
  EnableWebsockets : bool;
  PermitInsecure : bool;
  PrefixRewriteIn : string;
  TimeoutPolicyOf : option TimeoutPolicyIn;
  RetryPolicyOf : option Opaque;
  HashPolicyIn : list Opaque;
  PerFilterConfigIn : Opaque;
  RequestHeadersPolicyIn : option Opaque;
  ResponseHeadersPolicyIn : option Opaque;
  Route_IdleTimeout : option ProtoDuration;
  Route_Timeout : option ProtoDuration;
  Route_Tracing : option TracingIn;
  HeaderMatch : list Opaque }.

Record TCPProxyIn := {
  TCPProxy_Services : list ServiceIn;
  TCPProxy_Delegate : option Delegate }.

Record TLS := {
  SecretName : string;
  MinimumProtocolVersion : string;
  MaximumProtocolVersion : string;
  Passthrough : bool }.

Record VirtualHostIn := { Fqdn : string; VirtualHost_TLS : option TLS }.

Record IngressRoute := {
  Namespace : string;
  Name : string;
  Spec_VirtualHost : option VirtualHostIn;
  Spec_Routes : list RouteIn;
  Spec_TCPProxy : option TCPProxyIn }.

(** The key an object is known by: [k8s.FullName{Name, Namespace}]. *)
Definition fullName (ir : IngressRoute) : FullName := (Namespace ir, Name ir).

(** [fmt.Sprintf("%s/%s", ir.Namespace, ir.Name)]. *)
Definition slashName (ir : IngressRoute) : string :=
  Namespace ir +:+ "/" +:+ Name ir.

(** *** The graph's vertices. *)

Record HTTPHealthCheckPolicy := {
  HC_Path : string;
  HC_Host : string;
  HC_Interval : Z;
  HC_Timeout : Z;
  HC_UnhealthyThreshold : Z;
  HC_HealthyThreshold : Z }.

Record TimeoutPolicy := { ResponseTimeout : Opaque }.

(** A backend service as [lookupService] returns it; only [Protocol] is read
    here. *)
Record Service := { Service_id : Opaque; Protocol : string }.

Record Cluster := {
  Upstream : Service;
  LoadBalancerPolicy : string;
  Weight : Z;
  HTTPHealthCheckPolicyOf : option HTTPHealthCheckPolicy;
  UpstreamValidation : option Opaque;
  Cluster_Protocol : string;
  Cluster_IdleTimeout : option ProtoDuration }.

Record Route := {
  PathCondition : string;
  Websocket : bool;
  HTTPSUpgrade : bool;
  PrefixRewrite : string;
  TimeoutPolicyOut : option TimeoutPolicy;
  RetryPolicy : option Opaque;
  HashPolicy : list Opaque;
  PerFilterConfig : Opaque;
  RequestHeadersPolicy : option Opaque;
  ResponseHeadersPolicy : option Opaque;
  IdleTimeout : option ProtoDuration;
  Timeout_ : option ProtoDuration;
  Tracing : option TracingIn;
  HeaderConditions : list Opaque;
  Clusters : list Cluster }.

Record TCPProxy := { TCPProxy_Clusters : list Cluster }.

Record VirtualHost := { VirtualHost_Name : string; routes : list Route }.

(** The builder writes [MinTLSVersion]; the listener visitor reads
    [MinProtoVersion] (both as in the sources). *)
Record SecureVirtualHost := {
  SVH_VirtualHost : VirtualHost;
  Secret : option Opaque;
  MinTLSVersion : Z;
  MinProtoVersion : Z;
  MaxProtoVersion : Z;
  DownstreamValidation : option Opaque;
  FallbackCertificate : option Opaque;
  SVH_TCPProxy : option TCPProxy }.

(** What [visit]'s type switch dispatches on; any other vertex only has
    children. *)
Inductive Vertex : Type :=
  | VVirtualHost (vh : VirtualHost)
  | VSecureVirtualHost (vh : SecureVirtualHost)
  | VOther (children : list Vertex).

(** The old [dag.HTTPService] that envoy/route.go projects: the embedded
    [TCPService] carries the [int] weight. *)
Record TCPService := { TCPService_id : Opaque; TCPService_Weight : Z }.
Record HTTPService := { TCPService_ : TCPService; HTTPService_Protocol : string }.


(** *** Status reporting. *)

Inductive Status : Type :=
  | Valid
  | Invalid (description : string).

(** Modelled from the spec: the status writer (dag/status.go: WithObject,
    WithValue, SetInvalid, SetValid, commit) is not among the sources. The spec
    has every outcome "attached to the specific resource object via a status
    writer" and emitted as "one call of the shape SetStatus(resourceID, Valid |
    Invalid(reason) | Orphaned)". A writer names its object and holds the
    pending outcome and the "vhost" value; a later Set overwrites an earlier
    one; [commit] emits the writer's content as the next call. *)
Record ObjectStatusWriter := {
  osw_obj : FullName;
  osw_status : option Status;
  osw_vhost : option string }.

Definition SetInvalid (sw : ObjectStatusWriter) (msg : string) : ObjectStatusWriter :=
  {| osw_obj := osw_obj sw; osw_status := Some (Invalid msg); osw_vhost := osw_vhost sw |}.

Definition SetValid (sw : ObjectStatusWriter) : ObjectStatusWriter :=
  {| osw_obj := osw_obj sw; osw_status := Some Valid; osw_vhost := osw_vhost sw |}.

Definition WithValue_vhost (sw : ObjectStatusWriter) (v : string) : ObjectStatusWriter :=
  {| osw_obj := osw_obj sw; osw_status := osw_status sw; osw_vhost := Some v |}.

(** [b.WithObject(obj)]: a fresh writer. *)
Definition WithObject (obj : IngressRoute) : ObjectStatusWriter :=
  {| osw_obj := fullName obj; osw_status := None; osw_vhost := None |}.

(** [sw.WithObject(obj)]: a writer for [obj] that starts from [sw]'s values. *)
Definition WithObject_from (sw : ObjectStatusWriter) (obj : IngressRoute) : ObjectStatusWriter :=
  {| osw_obj := fullName obj; osw_status := osw_status sw; osw_vhost := osw_vhost sw |}.

(** *** The builder's state: the source snapshot it reads and the maps it
    fills. [statuses] is the sequence of committed status calls, oldest
    first. *)
Record Builder := {
  ingressroutes : gmap FullName IngressRoute;
  DisablePermitInsecure : bool;
  orphaned : gset FullName;
  statuses : list ObjectStatusWriter;
  virtualhosts : gmap string VirtualHost;
  securevirtualhosts : gmap string SecureVirtualHost }.

Definition commit (b : Builder) (sw : ObjectStatusWriter) : Builder :=
  {| ingressroutes := ingressroutes b;
     DisablePermitInsecure := DisablePermitInsecure b;
     orphaned := orphaned b;
     statuses := statuses b ++ [sw];
     virtualhosts := virtualhosts b;
     securevirtualhosts := securevirtualhosts b |}.

Definition with_orphaned (b : Builder) (o : gset FullName) : Builder :=
  {| ingressroutes := ingressroutes b;
     DisablePermitInsecure := DisablePermitInsecure b;
     orphaned := o;
     statuses := statuses b;
     virtualhosts := virtualhosts b;
     securevirtualhosts := securevirtualhosts b |}.

Definition with_virtualhosts (b : Builder) (m : gmap string VirtualHost) : Builder :=
  {| ingressroutes := ingressroutes b;
     DisablePermitInsecure := DisablePermitInsecure b;
     orphaned := orphaned b;
     statuses := statuses b;
     virtualhosts := m;
     securevirtualhosts := securevirtualhosts b |}.

Definition with_securevirtualhosts (b : Builder) (m : gmap string SecureVirtualHost) : Builder :=
  {| ingressroutes := ingressroutes b;
     DisablePermitInsecure := DisablePermitInsecure b;
     orphaned := orphaned b;
     statuses := statuses b;
     virtualhosts := virtualhosts b;
     securevirtualhosts := m |}.

(** [b.setOrphaned(ir)] and [delete(b.orphaned, ...)]. *)
Definition setOrphaned (b : Builder) (ir : IngressRoute) : Builder :=
  with_orphaned b ({[ fullName ir ]} ∪ orphaned b).

Definition unorphan (b : Builder) (dest : IngressRoute) : Builder :=
  with_orphaned b (orphaned b ∖ {[ fullName dest ]}).

(** Modelled from the spec: lookupVirtualHost, lookupSecureVirtualHost and
    addRoute (dag/builder.go, dag/dag.go) are not among the sources. The spec
    has the builder "create/locate" the host for an FQDN and "append" a built
    Route to the VirtualHost, "and to the SecureVirtualHost too, when TLS is
    enforced for the route". *)
Definition lookupVirtualHost (b : Builder) (name : string) : VirtualHost :=
  default {| VirtualHost_Name := name; routes := [] |} (virtualhosts b !! name).

Definition addRoute (vh : VirtualHost) (r : Route) : VirtualHost :=
  {| VirtualHost_Name := VirtualHost_Name vh; routes := routes vh ++ [r] |}.

Definition newSecureVirtualHost (name : string) : SecureVirtualHost :=
  {| SVH_VirtualHost := {| VirtualHost_Name := name; routes := [] |};
     Secret := None;
     MinTLSVersion := 0;
     MinProtoVersion := 0;
     MaxProtoVersion := 0;
     DownstreamValidation := None;
     FallbackCertificate := None;
     SVH_TCPProxy := None |}.

Definition lookupSecureVirtualHost (b : Builder) (name : string) : SecureVirtualHost :=
  default (newSecureVirtualHost name) (securevirtualhosts b !! name).

Definition svh_addRoute (vh : SecureVirtualHost) (r : Route) : SecureVirtualHost :=
  {| SVH_VirtualHost := addRoute (SVH_VirtualHost vh) r;
     Secret := Secret vh;
     MinTLSVersion := MinTLSVersion vh;
     MinProtoVersion := MinProtoVersion vh;
     MaxProtoVersion := MaxProtoVersion vh;
     DownstreamValidation := DownstreamValidation vh;
     FallbackCertificate := FallbackCertificate vh;
     SVH_TCPProxy := SVH_TCPProxy vh |}.

Definition svh_setTCPProxy (vh : SecureVirtualHost) (p : TCPProxy) : SecureVirtualHost :=
  {| SVH_VirtualHost := SVH_VirtualHost vh;
     Secret := Secret vh;
     MinTLSVersion := MinTLSVersion vh;
     MinProtoVersion := MinProtoVersion vh;
     MaxProtoVersion := MaxProtoVersion vh;
     DownstreamValidation := DownstreamValidation vh;
     FallbackCertificate := FallbackCertificate vh;
     SVH_TCPProxy := Some p |}.

Definition svh_setTLS (vh : SecureVirtualHost) (sec : Opaque) (minv maxv : Z) : SecureVirtualHost :=
  {| SVH_VirtualHost := SVH_VirtualHost vh;
     Secret := Some sec;
     MinTLSVersion := minv;
     MinProtoVersion := MinProtoVersion vh;
     MaxProtoVersion := maxv;
     DownstreamValidation := DownstreamValidation vh;
     FallbackCertificate := FallbackCertificate vh;
     SVH_TCPProxy := SVH_TCPProxy vh |}.

(** [b.lookupVirtualHost(host).addRoute(r)], and the same on the secure host
    when [enforceTLS]. *)
Definition addRoutes (b : Builder) (host : string) (r : Route) (enforceTLS : bool) : Builder :=
  let b1 := with_virtualhosts b (<[host := addRoute (lookupVirtualHost b host) r]> (virtualhosts b)) in
  if enforceTLS
  then with_securevirtualhosts b1
         (<[host := svh_addRoute (lookupSecureVirtualHost b1 host) r]> (securevirtualhosts b1))
  else b1.

(** *** What the builder calls and the sources do not hold: the formatting
    verbs of fmt, golang/protobuf's ptypes, package annotation, and the
    builder's own helpers of dag/builder.go, which read the services, secrets,
    delegations and root namespaces of the snapshot. They are parameters. *)
Class Deps := {
  fmt_q : string → string;
  fmt_d : Z → string;
  fmt_noverb : string → string;
  ptypes_Duration : ProtoDuration → result Z;
  ptypes_DurationProto : Z → ProtoDuration;
  annotation_ParseTimeout : string → Opaque;
  annotation_MinTLSVersion : string → Z;
  annotation_MaxProtoVersion : string → Z;
  rootAllowed : string → bool;
  isBlank : string → bool;
  splitSecret : string → string → FullName;
  lookupSecret : FullName → result Opaque;
  delegationPermitted : FullName → string → bool;
  matchesPathPrefix : string → string → bool;
  routeEnforceTLS : bool → bool → bool;
  retryPolicy : option Opaque → option Opaque;
  headersPolicy : Opaque → bool → result Opaque;
  headerConditionsValid : list Opaque → bool;
  mergeHeaderConditions : list Opaque → list Opaque;
  lookupService : FullName → Z → option Service;
  lookupUpstreamValidation : option Opaque → string → result (option Opaque) }.

(** [time.Hour] and [time.Second], in nanoseconds. *)
Definition time_Second : Z := 1000000000.
Definition time_Hour : Z := 3600 * time_Second.


(** Go leaves the order in which [range] yields the entries of a map
    unspecified: the order is a parameter, known only to enumerate the map. *)
Class RangeOrder := {
  range_ingressroutes : gmap FullName IngressRoute → list (FullName * IngressRoute);
  range_ingressroutes_perm : ∀ m, range_ingressroutes m ≡ₚ map_to_list m;
  range_fqdns : gmap string (list IngressRoute) → list (string * list IngressRoute);
  range_fqdns_perm : ∀ m, range_fqdns m ≡ₚ map_to_list m }.

Section builder.
Context `{Deps} `{RangeOrder}.

(** *** policy_adobe.go *)

Definition ingressrouteTimeoutPolicy (tp : option TimeoutPolicyIn) : option TimeoutPolicy :=
  match tp with
  | None => None
  | Some tp => Some {| ResponseTimeout := annotation_ParseTimeout (Request tp) |}
  end.

Definition ingressrouteHealthCheckPolicy (hc : option HealthCheck) : option HTTPHealthCheckPolicy :=
  match hc with
  | None => None
  | Some hc =>
      Some {| HC_Path := HealthCheck_Path hc;
              HC_Host := HealthCheck_Host hc;
              HC_Interval := wrap_int64 (IntervalSeconds hc * time_Second);
              HC_Timeout := wrap_int64 (TimeoutSeconds hc * time_Second);
              HC_UnhealthyThreshold := wrap_uint32 (UnhealthyThresholdCount hc);
              HC_HealthyThreshold := wrap_uint32 (HealthyThresholdCount hc) |}
  end.

(** *** builder_adobe.go: one terminal route entry *)

(** The idle-timeout block, the same for a route (lines 171-182) and for a
    service (lines 256-267): absent, or not convertible by [ptypes.Duration],
    leaves the field unset; above one hour gives one hour; zero or less is the
    error [msg]; anything else is kept as supplied. *)
Definition idleTimeout (supplied : option ProtoDuration) (msg : string)
    : result (option ProtoDuration) :=
  match supplied with
  | None => Ok None
  | Some p =>
      match ptypes_Duration p with
      | Err _ => Ok None
      | Ok d =>
          if time_Hour <? d then Ok (Some (ptypes_DurationProto time_Hour))
          else if d <=? 0 then Err msg
          else Ok (Some p)
      end
  end.

(** The [route.Timeout] block (lines 184-193). *)
Definition requestTimeout (supplied : option ProtoDuration) (msg : string)
    : result (option ProtoDuration) :=
  match supplied with
  | None => Ok None
  | Some p =>
      match ptypes_Duration p with
      | Err _ => Ok None
      | Ok d => if d <? 0 then Err msg else Ok (Some p)
      end
  end.

(** The [route.Tracing] block (lines 195-205). *)
Definition tracing (route : RouteIn) : result (option TracingIn) :=
  match Route_Tracing route with
  | None => Ok None
  | Some t =>
      if 100 <? ClientSampling t
      then Err ("route " +:+ fmt_q (Match route) +:+
                ": tracing clientSampling must be in the range [0,100]")
      else if 100 <? RandomSampling t
      then Err ("route " +:+ fmt_q (Match route) +:+
                ": tracing randomSampling must be in the range [0,100]")
      else Ok (Some t)
  end.

(** The headers-policy blocks (lines 153-169); the error text goes through
    [SetInvalid] as a format without operands. *)
Definition routeHeadersPolicy (hp : option Opaque) (allowHost : bool)
    : result (option Opaque) :=
  match hp with
  | None => Ok None
  | Some hp =>
      match headersPolicy hp allowHost with
      | Err e => Err (fmt_noverb e)
      | Ok p => Ok (Some p)
      end
  end.

(** The header-match block (lines 207-220). Every condition holds [&hm], the
    address of the one loop variable, so after the loop all of them are the
    last header match. *)
Definition aliasedConds (hms : list Opaque) : list Opaque :=
  match last hms with
  | None => []
  | Some hm => replicate (length hms) hm
  end.

Definition headerConditions (route : RouteIn) : result (list Opaque) :=
  if nonempty (HeaderMatch route)
  then
    let conds := aliasedConds (HeaderMatch route) in
    if headerConditionsValid conds
    then Ok (mergeHeaderConditions conds)
    else Err "cannot specify duplicate header 'exact match' conditions in the same route"
  else Ok [].

(** One pass of the loop over [route.Services] (lines 222-270). *)
Definition buildCluster (ir : IngressRoute) (route : RouteIn) (service : ServiceIn)
    : result Cluster :=
  if (Service_Port service <? 1) || (65535 <? Service_Port service)
  then Err ("route " +:+ fmt_q (Match route) +:+ ": service " +:+
            fmt_q (Service_Name service) +:+ ": port must be in the range 1-65535")
  else
    match lookupService (Namespace ir, Service_Name service) (Service_Port service) with
    | None => Err ("Service [" +:+ Service_Name service +:+ ":" +:+
                   fmt_d (Service_Port service) +:+ "] is invalid or missing")
    | Some s =>
        uv ← (if String.eqb (Protocol s) "tls"
              then match lookupUpstreamValidation (Service_UpstreamValidation service)
                           (Namespace ir) with
                   | Err e => Err ("Service [" +:+ Service_Name service +:+ ":" +:+
                                   fmt_d (Service_Port service) +:+
                                   "] TLS upstream validation policy error: " +:+ e)
                   | Ok uv => Ok uv
                   end
              else Ok None);
        idle ← idleTimeout (Service_IdleTimeout service)
                 ("route: " +:+ fmt_q (Match route) +:+ " service " +:+
                  fmt_q (Service_Name service) +:+ ": idle timeout can not be disabled");
        Ok {| Upstream := s;
              LoadBalancerPolicy := Service_Strategy service;
              Weight := wrap_uint32 (Service_Weight service);
              HTTPHealthCheckPolicyOf := ingressrouteHealthCheckPolicy (Service_HealthCheck service);
              UpstreamValidation := uv;
              Cluster_Protocol := Protocol s;
              Cluster_IdleTimeout := idle |}
    end.

(** The base case of the loop (lines 135-270): the Route a terminal entry
    gives, or the message of the first check that fails. *)
Definition buildRoute (b : Builder) (ir : IngressRoute) (route : RouteIn)
    (prefixMatch : string) (enforceTLS : bool) : result Route :=
  if negb (matchesPathPrefix (Match route) prefixMatch)
  then Err ("the path prefix " +:+ fmt_q (Match route) +:+
            " does not match the parent's path prefix " +:+ fmt_q prefixMatch)
  else
    let permitInsecure := PermitInsecure route && negb (DisablePermitInsecure b) in
    reqHP ← routeHeadersPolicy (RequestHeadersPolicyIn route) true;
    respHP ← routeHeadersPolicy (ResponseHeadersPolicyIn route) false;
    idle ← idleTimeout (Route_IdleTimeout route)
             ("route " +:+ fmt_q (Match route) +:+ ": idle timeout can not be disabled");
    tmo ← requestTimeout (Route_Timeout route)
            ("route " +:+ fmt_q (Match route) +:+ ": timeout value must be >= 0");
    trc ← tracing route;
    hcs ← headerConditions route;
    clusters ← mapM (buildCluster ir route) (Services route);
    Ok {| PathCondition := Match route;
          Websocket := EnableWebsockets route;
          HTTPSUpgrade := routeEnforceTLS enforceTLS permitInsecure;
          PrefixRewrite := PrefixRewriteIn route;
          TimeoutPolicyOut := ingressrouteTimeoutPolicy (TimeoutPolicyOf route);
          RetryPolicy := retryPolicy (RetryPolicyOf route);
          HashPolicy := HashPolicyIn route;
          PerFilterConfig := PerFilterConfigIn route;
          RequestHeadersPolicy := reqHP;
          ResponseHeadersPolicy := respHP;
          IdleTimeout := idle;
          Timeout_ := tmo;
          Tracing := trc;
          HeaderConditions := hcs;
          Clusters := clusters |}.


(** *** builder_adobe.go: the walk over delegation edges *)

(** [dest.Name == vir.Name && dest.Namespace == vir.Namespace] for some [vir]
    of the visited path. *)
Definition onPath (dest : IngressRoute) (visited : list IngressRoute) : bool :=
  existsb (fun vir => String.eqb (Name dest) (Name vir) &&
                      String.eqb (Namespace dest) (Namespace vir)) visited.

(** The names of the visited path, then the target that closes the cycle. *)
Definition cyclePath (visited : list IngressRoute) (dest : IngressRoute) : list string :=
  (slashName <$> visited) ++ [slashName dest].

Definition routeCycleMessage (visited : list IngressRoute) (dest : IngressRoute) : string :=
  "route creates a delegation cycle: " +:+ strings_Join (cyclePath visited dest) " -> ".

Definition tcpproxyCycleMessage (visited : list IngressRoute) (dest : IngressRoute) : string :=
  "tcpproxy creates a delegation cycle: " +:+ strings_Join (cyclePath visited dest) " -> ".

(** The namespace a delegate names, the delegating object's own by default. *)
Definition delegateNamespace (d : Delegate) (ir : IngressRoute) : string :=
  if String.eqb (Delegate_Namespace d) "" then Namespace ir else Delegate_Namespace d.

(** The [for _, route := range ir.Spec.Routes] loop of processIngressRoutes
    (lines 127-319) with [visited] already extended by [ir]. A [return] inside
    the loop ends the function with the state and writer reached; falling out
    of the loop sets the writer valid. [recurse] is the recursive call on a
    delegation target. *)
Section routesLoop.
Variable recurse :
  Builder → ObjectStatusWriter → IngressRoute → string → run (Builder * ObjectStatusWriter).
Variables (ir : IngressRoute) (prefixMatch : string) (visited : list IngressRoute)
          (host : string) (enforceTLS : bool).

Fixpoint routesLoop (rts : list RouteIn) (b : Builder) (sw : ObjectStatusWriter)
    : run (Builder * ObjectStatusWriter) :=
  match rts with
  | [] => Done (b, SetValid sw)
  | route :: rest =>
      if nonempty (Services route) && bool_decide (is_Some (Route_Delegate route))
      then Done (b, SetInvalid sw
                      ("route " +:+ fmt_q (Match route) +:+
                       ": cannot specify services and delegate in the same route"))
      else if nonempty (Services route)
      then
        match buildRoute b ir route prefixMatch enforceTLS with
        | Err msg => Done (b, SetInvalid sw msg)
        | Ok r => routesLoop rest (addRoutes b host r enforceTLS) sw
        end
      else
        match Route_Delegate route with
        | None => routesLoop rest b sw
        | Some d =>
            match ingressroutes b !! (delegateNamespace d ir, Delegate_Name d) with
            | None => routesLoop rest b sw
            | Some dest =>
                let b1 := unorphan b dest in
                if onPath dest visited
                then Done (b1, SetInvalid sw (routeCycleMessage visited dest))
                else
                  match recurse b1 (WithObject dest) dest (Match route) with
                  | Done (b2, swd) => routesLoop rest (commit b2 swd) sw
                  | Panics => Panics
                  | OutOfFuel => OutOfFuel
                  end
            end
        end
  end.
End routesLoop.

(** [processIngressRoutes]; [fuel] bounds the depth of the recursion. *)
Fixpoint processIngressRoutes (fuel : nat) (b : Builder) (sw : ObjectStatusWriter)
    (ir : IngressRoute) (prefixMatch : string) (visited : list IngressRoute)
    (host : string) (enforceTLS : bool) {struct fuel}
    : run (Builder * ObjectStatusWriter) :=
  match fuel with
  | O => OutOfFuel
  | S fuel' =>
      let visited := (visited ++ [ir])%list in
      routesLoop
        (fun b' sw' dest prefix' =>
           processIngressRoutes fuel' b' sw' dest prefix' visited host enforceTLS)
        ir prefixMatch visited host enforceTLS (Spec_Routes ir) b sw
  end.

(** The services of a terminal tcpproxy (lines 332-346): the clusters, or the
    message for the first service that is not found. *)
Definition tcpCluster (ir : IngressRoute) (service : ServiceIn) : result Cluster :=
  match lookupService (Namespace ir, Service_Name service) (Service_Port service) with
  | None => Err ("tcpproxy: service " +:+ Namespace ir +:+ "/" +:+ Service_Name service
                 +:+ "/" +:+ fmt_d (Service_Port service) +:+ ": not found")
  | Some s =>
      Ok {| Upstream := s;
            LoadBalancerPolicy := Service_Strategy service;
            Weight := 0;
            HTTPHealthCheckPolicyOf := None;
            UpstreamValidation := None;
            Cluster_Protocol := Protocol s;
            Cluster_IdleTimeout := None |}
  end.

Definition setTCPProxy (b : Builder) (host : string) (p : TCPProxy) : Builder :=
  with_securevirtualhosts b
    (<[host := svh_setTCPProxy (lookupSecureVirtualHost b host) p]> (securevirtualhosts b)).

(** [processIngressRouteTCPProxy] (lines 322-387). [ir.Spec.TCPProxy] is
    dereferenced without a nil check: on an object with no tcpproxy block the
    call panics. *)
Fixpoint processIngressRouteTCPProxy (fuel : nat) (b : Builder) (sw : ObjectStatusWriter)
    (ir : IngressRoute) (visited : list IngressRoute) (host : string) {struct fuel}
    : run (Builder * ObjectStatusWriter) :=
  match fuel with
  | O => OutOfFuel
  | S fuel' =>
      let visited := (visited ++ [ir])%list in
      match Spec_TCPProxy ir with
      | None => Panics
      | Some tcpproxy =>
          if nonempty (TCPProxy_Services tcpproxy) &&
             bool_decide (is_Some (TCPProxy_Delegate tcpproxy))
          then Done (b, SetInvalid sw
                          "tcpproxy: cannot specify services and delegate in the same tcpproxy")
          else if nonempty (TCPProxy_Services tcpproxy)
          then
            match mapM (tcpCluster ir) (TCPProxy_Services tcpproxy) with
            | Err msg => Done (b, SetInvalid sw msg)
            | Ok clusters =>
                Done (setTCPProxy b host {| TCPProxy_Clusters := clusters |}, SetValid sw)
            end
          else
            match TCPProxy_Delegate tcpproxy with
            | None => Done (b, sw)
            | Some d =>
                match ingressroutes b !! (delegateNamespace d ir, Delegate_Name d) with
                | None => Done (b, sw)
                | Some dest =>
                    let b1 := unorphan b dest in
                    if onPath dest visited
                    then Done (b1, SetInvalid sw (tcpproxyCycleMessage visited dest))
                    else
                      match processIngressRouteTCPProxy fuel' b1 (WithObject_from sw dest)
                              dest visited host with
                      | Done (b2, swd) => Done (commit b2 swd, sw)
                      | Panics => Panics
                      | OutOfFuel => OutOfFuel
                      end
                end
            end
      end
  end.


(** *** builder_adobe.go: the roots *)

(** The first loop of validIngressRoutes (lines 25-31): objects without a
    virtual host are valid as they come; roots are grouped by FQDN. *)
Definition partitionStep (acc : list IngressRoute * gmap string (list IngressRoute))
    (ir : IngressRoute) : list IngressRoute * gmap string (list IngressRoute) :=
  match Spec_VirtualHost ir with
  | None => ((acc.1 ++ [ir])%list, acc.2)
  | Some vh => (acc.1, <[Fqdn vh := (default [] (acc.2 !! Fqdn vh) ++ [ir])%list]> acc.2)
  end.

Definition partitionRoots (irs : list IngressRoute)
    : list IngressRoute * gmap string (list IngressRoute) :=
  foldl partitionStep ([], ∅) irs.

(** The message of lines 39-44. *)
Definition conflictMessage (fqdn : string) (irs : list IngressRoute) : string :=
  "fqdn " +:+ fmt_q fqdn +:+ " is used in multiple IngressRoutes: " +:+
  strings_Join (sort_Strings (slashName <$> irs)) ", ".

(** Lines 45-49: every object of the group is committed invalid. *)
Definition markConflicting (b : Builder) (fqdn : string) (irs : list IngressRoute) : Builder :=
  foldl (fun b ir =>
           commit b (SetInvalid (WithValue_vhost (WithObject ir) fqdn)
                                (conflictMessage fqdn irs)))
        b irs.

(** The second loop (lines 33-51). *)
Definition groupStep (acc : list IngressRoute * Builder)
    (g : string * list IngressRoute) : list IngressRoute * Builder :=
  match g.2 with
  | [ir] => ((acc.1 ++ [ir])%list, acc.2)
  | _ => (acc.1, markConflicting acc.2 g.1 g.2)
  end.

Definition validIngressRoutes (b : Builder) : list IngressRoute * Builder :=
  let parts := partitionRoots ((range_ingressroutes (ingressroutes b)).*2) in
  foldl groupStep (parts.1, b) (range_fqdns parts.2).

(** The TLS block of computeIngressRoute (lines 90-115): the builder with the
    secure virtual host set up, [enforceTLS] and [passthrough]; or the message
    the root is invalid with. *)
Definition virtualHostTLS (b : Builder) (ir : IngressRoute) (vh : VirtualHostIn)
    : result (Builder * bool * bool) :=
  match VirtualHost_TLS vh with
  | None => Ok (b, false, false)
  | Some tls =>
      if String.eqb (SecretName tls) "" && Passthrough tls
      then Ok (b, false, true)
      else
        let secretName := splitSecret (SecretName tls) (Namespace ir) in
        match lookupSecret secretName with
        | Err e => Err ("Spec.VirtualHost.TLS Secret " +:+ fmt_q (SecretName tls) +:+
                        " is invalid: " +:+ e)
        | Ok sec =>
            if negb (delegationPermitted secretName (Namespace ir))
            then Err ("Spec.VirtualHost.TLS Secret " +:+ fmt_q (SecretName tls) +:+
                      " certificate delegation not permitted")
            else
              Ok (with_securevirtualhosts b
                    (<[Fqdn vh := svh_setTLS (lookupSecureVirtualHost b (Fqdn vh)) sec
                                    (annotation_MinTLSVersion (MinimumProtocolVersion tls))
                                    (annotation_MaxProtoVersion (MaximumProtocolVersion tls))]>
                       (securevirtualhosts b)),
                  true, false)
        end
  end.

(** The recursion budget a walk gets: one more than the number of objects in
    the snapshot (enough, by [processIngressRoutes_total] below). *)
Definition walkFuel (b : Builder) : nat := S (size (ingressroutes b)).

(** [computeIngressRoute] (lines 61-122); the deferred [commit] is the last
    step on every path. *)
Definition computeIngressRoute (b : Builder) (ir : IngressRoute) : run Builder :=
  let sw := WithObject ir in
  match Spec_VirtualHost ir with
  | None => Done (commit (setOrphaned b ir) sw)
  | Some vh =>
      if negb (rootAllowed (Namespace ir))
      then Done (commit b (SetInvalid sw "root IngressRoute cannot be defined in this namespace"))
      else
        let host := Fqdn vh in
        if isBlank host
        then Done (commit b (SetInvalid sw "Spec.VirtualHost.Fqdn must be specified"))
        else
          let sw := WithValue_vhost sw host in
          match virtualHostTLS b ir vh with
          | Err msg => Done (commit b (SetInvalid sw msg))
          | Ok (b1, enforceTLS, passthrough) =>
              st ← (if bool_decide (is_Some (Spec_TCPProxy ir)) && (passthrough || enforceTLS)
                    then processIngressRouteTCPProxy (walkFuel b) b1 sw ir [] host
                    else Done (b1, sw));
              st' ← processIngressRoutes (walkFuel b) st.1 st.2 ir "" [] host
                      (bool_decide (Spec_TCPProxy ir = None) && enforceTLS);
              Done (commit st'.1 st'.2)
          end
  end.

(** [computeIngressRoutes] (lines 55-59). *)
Definition computeAll (irs : list IngressRoute) (b : Builder) : run Builder :=
  foldl (fun acc ir => b' ← acc; computeIngressRoute b' ir) (Done b) irs.

Definition computeIngressRoutes (b : Builder) : run Builder :=
  let vb := validIngressRoutes b in
  computeAll vb.1 vb.2.

(** The roots of the snapshot that declare the FQDN [fqdn], in the order
    [range] yields them. *)
Definition rootsOf (b : Builder) (fqdn : string) : list IngressRoute :=
  filter (fun ir => Fqdn <$> Spec_VirtualHost ir = Some fqdn)
         ((range_ingressroutes (ingressroutes b)).*2).

End builder.

(** *** Notions the statements below use *)

(** An object with its virtual-host declaration taken away, and a builder
    over a snapshot of such objects. *)
Definition asDelegate (ir : IngressRoute) : IngressRoute :=
  {| Namespace := Namespace ir;
     Name := Name ir;
     Spec_VirtualHost := None;
     Spec_Routes := Spec_Routes ir;
     Spec_TCPProxy := Spec_TCPProxy ir |}.

Definition asDelegates (b : Builder) : Builder :=
  {| ingressroutes := asDelegate <$> ingressroutes b;
     DisablePermitInsecure := DisablePermitInsecure b;
     orphaned := orphaned b;
     statuses := statuses b;
     virtualhosts := virtualhosts b;
     securevirtualhosts := securevirtualhosts b |}.

(** What a step of the build leaves in place: the snapshot and the setting
    are not touched, committed status calls stay, and a virtual host only
    gains routes at the end of its list. *)
Record keeps (b b' : Builder) : Prop := {
  keeps_source : ingressroutes b' = ingressroutes b;
  keeps_flag : DisablePermitInsecure b' = DisablePermitInsecure b;
  keeps_statuses : statuses b `prefix_of` statuses b';
  keeps_routes : ∀ h vh, virtualhosts b !! h = Some vh →
                   ∃ vh', virtualhosts b' !! h = Some vh' ∧ routes vh `prefix_of` routes vh' }.

(** A walk for [host] touches the virtual hosts of no other name. *)
Record frames (host : string) (b b' : Builder) : Prop := {
  frames_virtualhosts : ∀ h, h ≠ host → virtualhosts b' !! h = virtualhosts b !! h;
  frames_securevirtualhosts :
    ∀ h, h ≠ host → securevirtualhosts b' !! h = securevirtualhosts b !! h }.

(** What a walk hands back: the builder it reached and the writer it was
    given, with an outcome set. *)
Definition walked (host : string) (b : Builder) (sw : ObjectStatusWriter)
    (r : run (Builder * ObjectStatusWriter)) : Prop :=
  ∃ b' sw', r = Done (b', sw') ∧ keeps b b' ∧ frames host b b' ∧
            osw_obj sw' = osw_obj sw ∧ osw_vhost sw' = osw_vhost sw ∧
            is_Some (osw_status sw').

(** The names of the objects a snapshot holds, and how many of them are not
    on a visited path: the measure that bounds the depth of a walk. *)
Definition keysOf (m : gmap FullName IngressRoute) : gset FullName :=
  list_to_set (fullName <$> (map_to_list m).*2).

Definition remaining (m : gmap FullName IngressRoute) (visited : list IngressRoute) : nat :=
  size (keysOf m ∖ list_to_set (fullName <$> visited)).
(** The TLS block of a root asks for passthrough (line 94), or has TLS
    terminated with a secret (lines 96-114). *)
Definition passesThrough (vh : VirtualHostIn) : bool :=
  match VirtualHost_TLS vh with
  | Some tls => String.eqb (SecretName tls) "" && Passthrough tls
  | None => false
  end.

Definition terminatesTLS (vh : VirtualHostIn) : bool :=
  match VirtualHost_TLS vh with
  | Some tls => negb (String.eqb (SecretName tls) "" && Passthrough tls)
  | None => false
  end.

(** The TLS block of a root resolves: when TLS is terminated, the secret is
    found and may be used from the root's namespace (lines 97-107). A root
    without a TLS block, or with passthrough, has nothing to resolve. *)
Definition tlsResolves `{Deps} (ir : IngressRoute) (vh : VirtualHostIn) : Prop :=
  ∀ tls, VirtualHost_TLS vh = Some tls → terminatesTLS vh = true →
    (∃ sec, lookupSecret (splitSecret (SecretName tls) (Namespace ir)) = Ok sec) ∧
    delegationPermitted (splitSecret (SecretName tls) (Namespace ir)) (Namespace ir) = true.

(** A route entry that lists services and names no delegate. *)
Definition terminal (route : RouteIn) : Prop :=
  nonempty (Services route) = true ∧ Route_Delegate route = None.

(** The objects a delegation of [src] names in the snapshot [m]: by one of
    its route entries (lines 284-290), or by its tcpproxy (lines 359-365). *)
Definition delegatesTo (m : gmap FullName IngressRoute) (src dest : IngressRoute) : Prop :=
  (∃ route d, route ∈ Spec_Routes src ∧ Route_Delegate route = Some d ∧
              m !! (delegateNamespace d src, Delegate_Name d) = Some dest) ∨
  (∃ tcpproxy d, Spec_TCPProxy src = Some tcpproxy ∧ TCPProxy_Delegate tcpproxy = Some d ∧
                 m !! (delegateNamespace d src, Delegate_Name d) = Some dest).

(** A name some object of the snapshot delegates to. *)
Definition targeted (m : gmap FullName IngressRoute) (k : FullName) : Prop :=
  ∃ ksrc src dest, m !! ksrc = Some src ∧ delegatesTo m src dest ∧ fullName dest = k.

(** A snapshot keyed as the informer keys it: every object under its own
    namespace and name. *)
Definition keyed (m : gmap FullName IngressRoute) : Prop :=
  ∀ k ir, m !! k = Some ir → fullName ir = k.

(** What a step adds to the log of status calls: calls for the names in
    [T], and nothing else. *)
Definition logsOnly (T : FullName → Prop) (b b' : Builder) : Prop :=
  ∃ added, statuses b' = (statuses b ++ added)%list ∧
           Forall (fun sw => T (osw_obj sw)) added.

(** Modelled from the spec: the status record of an object. The spec has a
    status call "idempotent and overwriting" and a record that "overwrites
    the previous record for that resource": the record of an object is the
    last call committed for it. *)
Definition statusOf (b : Builder) (k : FullName) : option ObjectStatusWriter :=
  last (filter (fun sw => osw_obj sw = k) (statuses b)).

(** The routes on the secure virtual host of a name (none when there is no
    such host). *)
Definition secureRoutes (b : Builder) (h : string) : list Route :=
  routes (SVH_VirtualHost (lookupSecureVirtualHost b h)).

(** A route entry with other header matches. *)
Definition withHeaderMatch (route : RouteIn) (hms : list Opaque) : RouteIn :=
  {| Match := Match route;
     Services := Services route;
     Route_Delegate := Route_Delegate route;
     EnableWebsockets := EnableWebsockets route;
     PermitInsecure := PermitInsecure route;
     PrefixRewriteIn := PrefixRewriteIn route;
     TimeoutPolicyOf := TimeoutPolicyOf route;
     RetryPolicyOf := RetryPolicyOf route;
     HashPolicyIn := HashPolicyIn route;
     PerFilterConfigIn := PerFilterConfigIn route;
     RequestHeadersPolicyIn := RequestHeadersPolicyIn route;
     ResponseHeadersPolicyIn := ResponseHeadersPolicyIn route;
     Route_IdleTimeout := Route_IdleTimeout route;
     Route_Timeout := Route_Timeout route;
     Route_Tracing := Route_Tracing route;
     HeaderMatch := hms |}.

(** *** The route that envoy/route.go projects

    envoy/route.go imports the dag package of the older tree, whose [Route]
    carries the retry settings and timeouts as plain fields. These are the
    fields RouteRoute, retryPolicy and PerFilterConfig read. *)
Record HashPolicyHeader := { HeaderName : string }.

(** [Ttl] is a pointer to a wrapper of [time.Duration]. *)
Record HashPolicyCookie := {
  Cookie_Name : string;
  Cookie_Path : string;
  Cookie_Ttl : option Z }.

Record HashPolicyConnectionProperties := { SourceIp : bool }.

Record HashPolicyOf := {
  Header : option HashPolicyHeader;
  Cookie : option HashPolicyCookie;
  ConnectionProperties : option HashPolicyConnectionProperties;
  Terminal : bool }.

Record OldRoute `{Floats} := {
  Old_Websocket : bool;
  Old_RetryOn : string;
  Old_NumRetries : Z;
  Old_PerTryTimeout : Z;
  Old_Timeout : option Z;
  Old_IdleTimeout : option Z;
  Old_PrefixRewrite : string;
  Old_HashPolicy : list HashPolicyOf;
  Old_PerFilterConfig : gmap string Iface }.

(** A vertex from which [visit] reaches a [*dag.VirtualHost]: the vertex
    itself, or one below a vertex that is neither kind of virtual host. *)
Fixpoint reachesVirtualHost (vertex : Vertex) : bool :=
  match vertex with
  | VVirtualHost _ => true
  | VSecureVirtualHost _ => false
  | VOther children => existsb reachesVirtualHost children
  end.

End dag.

(** ** Package envoy *)
Module envoy.

(** [wellknown] filter names of go-control-plane. *)
Definition wellknown_HTTPConnectionManager : string := "envoy.http_connection_manager".
Definition wellknown_TCPProxy : string := "envoy.tcp_proxy".
Definition wellknown_Router : string := "envoy.router".

(** What the projection calls and the sources do not hold: the cluster naming
    of envoy/cluster.go (on the old services and on clusters) and the access
    log constructors of envoy/accesslog.go. *)
Class Deps := {
  Clustername_service : dag.TCPService → string;
  Clustername : dag.Cluster → string;
  FileAccessLogJSON : string → list string → list Opaque;
  FileAccessLogEnvoy : string → list Opaque;
  DefaultFields : list string }.

(** *** envoy/route.go *)

Record HeaderValueOption := { Key : string; Value : string; Append : bool }.

Record ClusterWeight := {
  ClusterWeight_Name : string;
  ClusterWeight_Weight : Z;
  RequestHeadersToAdd : list HeaderValueOption }.

Record WeightedCluster := { Clusters : list ClusterWeight; TotalWeight : Z }.

Definition appendHeader (key value : string) : HeaderValueOption :=
  {| Key := key; Value := value; Append := true |}.

Definition headers (first : HeaderValueOption) (rest : list HeaderValueOption)
    : list HeaderValueOption := first :: rest.

(** [u32]: an [int] into a [uint32] wrapper. *)
Definition u32 (val : Z) : Z := wrap_uint32 val.

(** [clusterWeightByName.Less]. *)
Definition clusterWeightByName (a b : ClusterWeight) : bool :=
  if String.eqb (ClusterWeight_Name a) (ClusterWeight_Name b)
  then ClusterWeight_Weight a <? ClusterWeight_Weight b
  else String.ltb (ClusterWeight_Name a) (ClusterWeight_Name b).

Definition setWeight (w : Z) (c : ClusterWeight) : ClusterWeight :=
  {| ClusterWeight_Name := ClusterWeight_Name c;
     ClusterWeight_Weight := w;
     RequestHeadersToAdd := RequestHeadersToAdd c |}.

Section route.
Context `{Deps}.

(** The entry one service gives in the first loop of weightedClusters. *)
Definition clusterWeight (service : dag.HTTPService) : ClusterWeight :=
  {| ClusterWeight_Name := Clustername_service (dag.TCPService_ service);
     ClusterWeight_Weight := u32 (dag.TCPService_Weight (dag.TCPService_ service));
     RequestHeadersToAdd :=
       headers (appendHeader "x-request-start" "t=%START_TIME(%s.%3f)%") [] |}.

(** [total += service.Weight] over the services, on [int]. *)
Definition totalWeight (services : list dag.HTTPService) : Z :=
  foldl (fun total service =>
           wrap_int64 (total + dag.TCPService_Weight (dag.TCPService_ service)))
        0 services.

(** [weightedClusters] (route.go lines 125-149). *)
Definition weightedClusters (services : list dag.HTTPService) : WeightedCluster :=
  let total := totalWeight services in
  let clusters := clusterWeight <$> services in
  let clusters' := if total =? 0 then setWeight 1 <$> clusters else clusters in
  let total' := if total =? 0 then Z.of_nat (length services) else total in
  {| Clusters := sort_Stable clusterWeightByName clusters';
     TotalWeight := u32 total' |}.

End route.

(** The weight a service was given, and the sum of the given weights. *)
Definition weightOf (s : dag.HTTPService) : Z := dag.TCPService_Weight (dag.TCPService_ s).
Definition weightSum (services : list dag.HTTPService) : Z :=
  foldr (fun s acc => weightOf s + acc) 0 services.

(** *** envoy/listener.go *)

Record TcpClusterWeight := { TcpClusterWeight_Name : string; TcpClusterWeight_Weight : Z }.

Inductive ClusterSpecifier : Type :=
  | TcpProxy_Cluster (cluster : string)
  | TcpProxy_WeightedClusters (clusters : list TcpClusterWeight).

Record TcpProxy := {
  TcpProxy_StatPrefix : string;
  TcpProxy_ClusterSpecifier : ClusterSpecifier;
  TcpProxy_AccessLog : list Opaque;
  TcpProxy_IdleTimeout : Z }.

Record HttpFilter := { HttpFilter_Name : string; HttpFilter_Config : option string }.

(** The fields of the connection manager that depend on the builder's
    settings; [Get] sets the others to constants. *)
Record HttpConnectionManager := {
  RouteConfigName_ : string;
  HttpFilters : list HttpFilter;
  AccessLog : list Opaque;
  StatPrefix : string;
  RequestTimeout_ : Z }.

Inductive FilterConfig : Type :=
  | Config_HttpConnectionManager (cm : HttpConnectionManager)
  | Config_TcpProxy (tcp : TcpProxy).

Record Filter := { Filter_Name : string; ConfigType : FilterConfig }.

Record httpConnectionManagerBuilder := {
  routeConfigName : string;
  metricsPrefix : string;
  accessLoggers : list Opaque;
  requestTimeout : Z;
  filters : list HttpFilter }.

Definition HTTPConnectionManagerBuilder : httpConnectionManagerBuilder :=
  {| routeConfigName := ""; metricsPrefix := ""; accessLoggers := [];
     requestTimeout := 0; filters := [] |}.

Definition RouteConfigName (b : httpConnectionManagerBuilder) (name : string) :=
  {| routeConfigName := name; metricsPrefix := metricsPrefix b;
     accessLoggers := accessLoggers b; requestTimeout := requestTimeout b;
     filters := filters b |}.

Definition MetricsPrefix (b : httpConnectionManagerBuilder) (prefix : string) :=
  {| routeConfigName := routeConfigName b; metricsPrefix := prefix;
     accessLoggers := accessLoggers b; requestTimeout := requestTimeout b;
     filters := filters b |}.

Definition AccessLoggers (b : httpConnectionManagerBuilder) (loggers : list Opaque) :=
  {| routeConfigName := routeConfigName b; metricsPrefix := metricsPrefix b;
     accessLoggers := loggers; requestTimeout := requestTimeout b;
     filters := filters b |}.

Definition RequestTimeout (b : httpConnectionManagerBuilder) (timeout : Z) :=
  {| routeConfigName := routeConfigName b; metricsPrefix := metricsPrefix b;
     accessLoggers := accessLoggers b; requestTimeout := timeout;
     filters := filters b |}.

Definition DefaultFilters (b : httpConnectionManagerBuilder) :=
  {| routeConfigName := routeConfigName b; metricsPrefix := metricsPrefix b;
     accessLoggers := accessLoggers b; requestTimeout := requestTimeout b;
     filters :=
       (filters b ++
        [ {| HttpFilter_Name := "envoy.filters.http.ip_allow_deny";
             HttpFilter_Config := None |};
          {| HttpFilter_Name := "envoy.filters.http.health_check_simple";
             HttpFilter_Config :=
               Some "envoy.config.filter.http.health_check_simple.v2.HealthCheckSimple" |};
          {| HttpFilter_Name := "envoy.filters.http.header_size";
             HttpFilter_Config := Some "envoy.config.filter.http.header_size.v2.HeaderSize" |};
          {| HttpFilter_Name := wellknown_Router;
             HttpFilter_Config := Some "router.Router{SuppressEnvoyHeaders: true}" |} ])%list |}.

Definition Get (b : httpConnectionManagerBuilder) : Filter :=
  {| Filter_Name := wellknown_HTTPConnectionManager;
     ConfigType :=
       Config_HttpConnectionManager
         {| RouteConfigName_ := routeConfigName b;
            HttpFilters := filters b;
            AccessLog := accessLoggers b;
            StatPrefix := if String.eqb (metricsPrefix b) ""
                          then routeConfigName b else metricsPrefix b;
            RequestTimeout_ := requestTimeout b |} |}.

(** Modelled from the spec: the sorter for TCP weighted clusters (package
    sorter) is not among the sources; the spec has weighted-cluster lists
    "stably sorted by cluster name (ties broken by weight)". *)
Definition tcpClusterWeightLess (a b : TcpClusterWeight) : bool :=
  if String.eqb (TcpClusterWeight_Name a) (TcpClusterWeight_Name b)
  then TcpClusterWeight_Weight a <? TcpClusterWeight_Weight b
  else String.ltb (TcpClusterWeight_Name a) (TcpClusterWeight_Name b).

Section listener.
Context `{Deps}.

(** The entry one cluster gives in the loop of TCPProxy (lines 248-257). *)
Definition tcpClusterWeight (c : dag.Cluster) : TcpClusterWeight :=
  {| TcpClusterWeight_Name := Clustername c;
     TcpClusterWeight_Weight := if dag.Weight c =? 0 then 1 else dag.Weight c |}.

(** [TCPProxy] (envoy/listener.go lines 224-275). *)
Definition TCPProxy (statPrefix : string) (proxy : dag.TCPProxy) (accesslogger : list Opaque)
    : Filter :=
  let idleTimeout := 9001 * dag.time_Second in
  match dag.TCPProxy_Clusters proxy with
  | [c] =>
      {| Filter_Name := wellknown_TCPProxy;
         ConfigType :=
           Config_TcpProxy
             {| TcpProxy_StatPrefix := statPrefix;
                TcpProxy_ClusterSpecifier := TcpProxy_Cluster (Clustername c);
                TcpProxy_AccessLog := accesslogger;
                TcpProxy_IdleTimeout := idleTimeout |} |}
  | cs =>
      {| Filter_Name := wellknown_TCPProxy;
         ConfigType :=
           Config_TcpProxy
             {| TcpProxy_StatPrefix := statPrefix;
                TcpProxy_ClusterSpecifier :=
                  TcpProxy_WeightedClusters
                    (sort_Stable tcpClusterWeightLess (tcpClusterWeight <$> cs));
                TcpProxy_AccessLog := accesslogger;
                TcpProxy_IdleTimeout := idleTimeout |} |}
  end.

End listener.

(** [Filters]: nil for no filter. *)
Definition Filters (fs : list Filter) : list Filter := fs.

(** Modelled from the spec: DownstreamTLSContextAdobe, DownstreamTLSContext,
    DownstreamTLSTransportSocket and GetDownstreamTLSContext (envoy/auth.go and
    its Adobe companion) are not among the sources. The spec has a filter
    chain's TLS context hold the "certificate, resolved min/max version,
    upstream/downstream validation", and the fallback chain use the configured
    floor. The transport socket of a chain is the context it wraps. *)
Record DownstreamTlsContext := {
  tls_secret : Opaque;
  tls_minimum : Z;
  tls_maximum : Z;
  tls_validation : option Opaque;
  tls_alpn : list string }.

Definition DownstreamTLSContextAdobe (secret : Opaque) (minv maxv : Z)
    (validation : option Opaque) (alpnProtos : list string) : DownstreamTlsContext :=
  {| tls_secret := secret; tls_minimum := minv; tls_maximum := maxv;
     tls_validation := validation; tls_alpn := alpnProtos |}.

Definition DownstreamTLSContext (secret : Opaque) (minv : Z)
    (validation : option Opaque) (alpnProtos : list string) : DownstreamTlsContext :=
  DownstreamTLSContextAdobe secret minv TLSv1_3 validation alpnProtos.

Record FilterChainMatch := { ServerNames : list string; TransportProtocol : string }.

Record FilterChain := {
  FilterChain_Name : string;
  FilterChain_Filters : list Filter;
  FilterChainMatchOf : FilterChainMatch;
  TransportSocket : option DownstreamTlsContext }.

Definition GetDownstreamTLSContext (fc : FilterChain) : option DownstreamTlsContext :=
  TransportSocket fc.

(** [FilterChainTLS] (envoy/listener.go lines 358-371). *)
Definition FilterChainTLS (domain : string) (downstream : option DownstreamTlsContext)
    (fs : list Filter) : FilterChain :=
  {| FilterChain_Name := "";
     FilterChain_Filters := fs;
     FilterChainMatchOf := {| ServerNames := [domain]; TransportProtocol := "" |};
     TransportSocket := downstream |}.

(** [FilterChainTLSFallback] (lines 374-387). *)
Definition FilterChainTLSFallback (downstream : option DownstreamTlsContext)
    (fs : list Filter) : FilterChain :=
  {| FilterChain_Name := "fallback-certificate";
     FilterChain_Filters := fs;
     FilterChainMatchOf := {| ServerNames := []; TransportProtocol := "tls" |};
     TransportSocket := downstream |}.

(** [ContainsFallbackFilterChain] (lines 394-401). *)
Definition ContainsFallbackFilterChain (filterchains : list FilterChain) : bool :=
  existsb (fun fc => String.eqb (FilterChain_Name fc) "fallback-certificate") filterchains.

Record Listener := {
  Listener_Name : string;
  Listener_Address : string;
  Listener_Port : Z;
  ListenerFilters : list Opaque;
  FilterChains : list FilterChain }.

(** *** envoy/route.go: the route action *)

(** [bv] (lines 204-209): a pointer to a true value, or nil. *)
Definition bv (val : bool) : option bool := if val then Some true else None.

Record RouteAction_RetryPolicy := {
  RetryOn : string;
  NumRetries : option Z;
  PerTryTimeout : option Z }.

Inductive PolicySpecifier : Type :=
  | HashPolicy_Header (headerName : string)
  | HashPolicy_Cookie (name path : string) (ttl : option Z)
  | HashPolicy_ConnectionProperties (sourceIp : bool).

Record RouteAction_HashPolicy := {
  PolicySpecifierOf : PolicySpecifier;
  HashPolicy_Terminal : bool }.

Inductive RouteClusterSpecifier : Type :=
  | RouteAction_Cluster (cluster : string)
  | RouteAction_WeightedClusters (wc : WeightedCluster).

(** [route.RouteAction]; an entry of [RA_HashPolicy] may be a nil pointer. *)
Record RouteAction := {
  RA_UseWebsocket : option bool;
  RA_RetryPolicy : option RouteAction_RetryPolicy;
  RA_Timeout : option Z;
  RA_IdleTimeout : option Z;
  RA_PrefixRewrite : string;
  RA_HashPolicy : list (option RouteAction_HashPolicy);
  RA_ClusterSpecifier : RouteClusterSpecifier;
  RA_RequestHeadersToAdd : list HeaderValueOption }.

(** One pass of the loop over [r.HashPolicy] (lines 42-78): the entry stays
    nil when the policy names neither a header, nor a cookie, nor connection
    properties. *)
Definition hashPolicy (policy : dag.HashPolicyOf) : option RouteAction_HashPolicy :=
  match dag.Header policy, dag.Cookie policy, dag.ConnectionProperties policy with
  | Some h, _, _ =>
      Some {| PolicySpecifierOf := HashPolicy_Header (dag.HeaderName h);
              HashPolicy_Terminal := dag.Terminal policy |}
  | None, Some c, _ =>
      Some {| PolicySpecifierOf :=
                HashPolicy_Cookie (dag.Cookie_Name c) (dag.Cookie_Path c) (dag.Cookie_Ttl c);
              HashPolicy_Terminal := dag.Terminal policy |}
  | None, None, Some p =>
      Some {| PolicySpecifierOf := HashPolicy_ConnectionProperties (dag.SourceIp p);
              HashPolicy_Terminal := dag.Terminal policy |}
  | None, None, None => None
  end.

Section routeAction.
Context `{Deps} `{Floats}.

(** [retryPolicy] (lines 98-113). *)
Definition retryPolicy (r : dag.OldRoute) : option RouteAction_RetryPolicy :=
  if String.eqb (dag.Old_RetryOn r) "" then None
  else Some {| RetryOn := dag.Old_RetryOn r;
               NumRetries := if 0 <? dag.Old_NumRetries r
                             then Some (u32 (dag.Old_NumRetries r)) else None;
               PerTryTimeout := if 0 <? dag.Old_PerTryTimeout r
                                then Some (dag.Old_PerTryTimeout r) else None |}.

(** [RouteRoute] (lines 29-96). *)
Definition RouteRoute (r : dag.OldRoute) (services : list dag.HTTPService) : RouteAction :=
  let single := match services with [_] => true | _ => false end in
  {| RA_UseWebsocket := bv (dag.Old_Websocket r);
     RA_RetryPolicy := retryPolicy r;
     RA_Timeout := dag.Old_Timeout r;
     RA_IdleTimeout := dag.Old_IdleTimeout r;
     RA_PrefixRewrite := dag.Old_PrefixRewrite r;
     RA_HashPolicy := hashPolicy <$> dag.Old_HashPolicy r;
     RA_ClusterSpecifier :=
       match services with
       | [service] => RouteAction_Cluster (Clustername_service (dag.TCPService_ service))
       | _ => RouteAction_WeightedClusters (weightedClusters services)
       end;
     RA_RequestHeadersToAdd :=
       match services with
       | [_] => headers (appendHeader "x-request-start" "t=%START_TIME(%s.%3f)%") []
       | _ => []
       end |}.

(** [recurseIface] (lines 230-302): the value for [iface], and the struct
    [s] points to (if any) as the call leaves it. Only an object writes into
    the struct. *)
Fixpoint recurseIface (s : option (gmap string types_Value)) (iface : Iface) {struct iface}
    : option (gmap string types_Value) * types_Value :=
  match iface with
  | I_int v => (s, NumberValue (float64_of_int v))
  | I_int32 v => (s, NumberValue (float64_of_int v))
  | I_int64 v => (s, NumberValue (float64_of_int v))
  | I_uint v => (s, NumberValue (float64_of_int v))
  | I_uint32 v => (s, NumberValue (float64_of_int v))
  | I_uint64 v => (s, NumberValue (float64_of_int v))
  | I_float32 v => (s, NumberValue (float64_of_float32 v))
  | I_float64 v => (s, NumberValue v)
  | I_string v => (s, StringValue v)
  | I_bool v => (s, BoolValue v)
  | I_map m =>
      let fields := ((fun v => (recurseIface None v).2) <$> m) ∪ default ∅ s in
      (Some fields, StructValue fields)
  | I_slice l => (s, ListValue ((fun v => (recurseIface None v).2) <$> l))
  | I_other => (s, NullValue)
  end.

(** [PerFilterConfig] (lines 213-226): nil for no entry; else, per key, the
    fresh struct that recurseIface was handed. *)
Definition PerFilterConfig (r : dag.OldRoute) : option (gmap string (gmap string types_Value)) :=
  if decide (dag.Old_PerFilterConfig r = ∅) then None
  else Some ((fun v => default ∅ (recurseIface (Some ∅) v).1) <$> dag.Old_PerFilterConfig r).

End routeAction.

(** The sum of the weights of a projected list. *)
Definition projectedSum (cs : list ClusterWeight) : Z :=
  foldr (fun c acc => ClusterWeight_Weight c + acc) 0 cs.

(** *** envoy/listener.go: listeners *)

Definition wellknown_TlsInspector : string := "envoy.listener.tls_inspector".
Definition wellknown_ProxyProtocol : string := "envoy.listener.proxy_protocol".

Record TypedStruct `{Floats} := { TypeUrl : string; TypedStruct_Value : gmap string types_Value }.

Record ListenerFilter `{Floats} := {
  ListenerFilter_Name : string;
  ListenerFilter_TypedConfig : option TypedStruct }.

Section listeners.
Context `{Deps} `{Floats}.

(** [TLSInspector] and [ProxyProtocol] (lines 39-50). *)
Definition TLSInspector : ListenerFilter :=
  {| ListenerFilter_Name := wellknown_TlsInspector; ListenerFilter_TypedConfig := None |}.

Definition ProxyProtocol : ListenerFilter :=
  {| ListenerFilter_Name := wellknown_ProxyProtocol; ListenerFilter_TypedConfig := None |}.

(** [FilterChain] (lines 315-319); its match is nil, kept as the empty
    match. *)
Definition NewFilterChain (fs : list Filter) : FilterChain :=
  {| FilterChain_Name := "";
     FilterChain_Filters := fs;
     FilterChainMatchOf := {| ServerNames := []; TransportProtocol := "" |};
     TransportSocket := None |}.

(** [Listener] (lines 53-69). The record keeps a listener filter by its
    name, and of the socket address the address and the port. *)
Definition NewListener (name address : string) (port : Z) (lf : list ListenerFilter)
    (fs : list Filter) : Listener :=
  {| Listener_Name := name;
     Listener_Address := address;
     Listener_Port := wrap_uint32 port;
     ListenerFilters := (fun f => opaque (ListenerFilter_Name f)) <$> lf;
     FilterChains := if nonempty fs then [NewFilterChain fs] else [] |}.

End listeners.

End envoy.

(** ** Package contour *)
Module contour.
Import envoy.

Definition ENVOY_HTTP_LISTENER : string := "ingress_http".
Definition ENVOY_FALLBACK_ROUTECONFIG : string := "ingress_fallbackcert".
Definition ENVOY_HTTPS_LISTENER : string := "ingress_https".
Definition DEFAULT_HTTPS_ACCESS_LOG : string := "/dev/stdout".
Definition DEFAULT_ACCESS_LOG_TYPE : string := "envoy".

(** [ListenerVisitorConfig], the fields the secure side reads. *)
Record ListenerVisitorConfig := {
  HTTPSAccessLog : string;
  MinimumProtocolVersion : Z;
  DefaultCertificate : string;
  AccessLogType : string;
  AccessLogFields : option (list string);
  RequestTimeout : Z }.

Section config.
Context `{Deps}.

Definition httpsAccessLog (lvc : ListenerVisitorConfig) : string :=
  if String.eqb (HTTPSAccessLog lvc) "" then DEFAULT_HTTPS_ACCESS_LOG else HTTPSAccessLog lvc.

Definition accesslogType (lvc : ListenerVisitorConfig) : string :=
  if String.eqb (AccessLogType lvc) "" then DEFAULT_ACCESS_LOG_TYPE else AccessLogType lvc.

Definition accesslogFields (lvc : ListenerVisitorConfig) : list string :=
  match AccessLogFields lvc with
  | Some fs => fs
  | None => DefaultFields
  end.

Definition newSecureAccessLog (lvc : ListenerVisitorConfig) : list Opaque :=
  if String.eqb (accesslogType lvc) "json"
  then FileAccessLogJSON (httpsAccessLog lvc) (accesslogFields lvc)
  else FileAccessLogEnvoy (httpsAccessLog lvc).

(** [requestTimeout] (lines 194-200). *)
Definition requestTimeout (lvc : ListenerVisitorConfig) : Z :=
  if RequestTimeout lvc <? 0 then 0 else RequestTimeout lvc.

(** [minProtoVersion] (lines 204-209). *)
Definition minProtoVersion (lvc : ListenerVisitorConfig) : Z :=
  if TLSv1_1 <? MinimumProtocolVersion lvc then MinimumProtocolVersion lvc else TLSv1_1.

End config.

(** *** The listener cache (lines 212-275) *)

Record ListenerCache := {
  values : gmap string Listener;
  staticValues : gmap string Listener }.

(** [NewListenerCache]. *)
Definition NewListenerCache : ListenerCache := {| values := ∅; staticValues := ∅ |}.

(** [Update]: the dynamic generation is replaced wholesale. *)
Definition Update (c : ListenerCache) (v : gmap string Listener) : ListenerCache :=
  {| values := v; staticValues := staticValues c |}.

(** Modelled from the spec: package sorter is not among the sources; the spec
    has results "stably sorted by the type's canonical ordering key", which
    for a listener is its name. *)
Definition listenerLess (a b : Listener) : bool :=
  String.ltb (Listener_Name a) (Listener_Name b).

(** What one requested name resolves to in [Query] (lines 257-268): the
    dynamic value, else the static one, else nothing. *)
Definition resolve (c : ListenerCache) (n : string) : option Listener :=
  match values c !! n with
  | Some v => Some v
  | None => staticValues c !! n
  end.

(** [Query] (lines 252-273). *)
Definition Query (c : ListenerCache) (names : list string) : list Listener :=
  sort_Stable listenerLess (omap (resolve c) names).

(** *** listener_adobe.go *)

(** [maxProtoVersion] (lines 110-116). *)
Definition maxProtoVersion (version : Z) : Z :=
  if version =? TLS_AUTO then TLSv1_3 else version.

(** [isTCPProxyFilter] (lines 118-126). *)
Definition isTCPProxyFilter (fs : list Filter) : bool :=
  existsb (fun f => String.eqb (Filter_Name f) wellknown_TCPProxy) fs.

(** *** The listener visitor (lines 277-498) *)

Record listenerVisitor := {
  config : ListenerVisitorConfig;
  listeners : gmap string Listener;
  http : bool }.

Definition setHTTP (v : listenerVisitor) : listenerVisitor :=
  {| config := config v; listeners := listeners v; http := true |}.

Definition withFilterChains (l : Listener) (fcs : list FilterChain) : Listener :=
  {| Listener_Name := Listener_Name l;
     Listener_Address := Listener_Address l;
     Listener_Port := Listener_Port l;
     ListenerFilters := ListenerFilters l;
     FilterChains := fcs |}.

Definition setSecureChains (v : listenerVisitor) (l : Listener) (fcs : list FilterChain)
    : listenerVisitor :=
  {| config := config v;
     listeners := <[ENVOY_HTTPS_LISTENER := withFilterChains l fcs]> (listeners v);
     http := http v |}.

(** The local [max] of visit (lines 371-376). *)
Definition max (a b : Z) : Z := if b <? a then a else b.

(** [cmp.Equal] on two TLS contexts: structural equality. *)
#[global] Instance Opaque_eq_dec : EqDecision Opaque.
Proof. solve_decision. Defined.
#[global] Instance DownstreamTlsContext_eq_dec : EqDecision DownstreamTlsContext.
Proof. solve_decision. Defined.

Definition cmp_Equal (a b : option DownstreamTlsContext) : bool := bool_decide (a = b).

(** [fc.FilterChainMatch.ServerNames = append(..., name)] followed by
    [sort.Strings]. *)
Definition addServerName (fc : FilterChain) (name : string) : FilterChain :=
  {| FilterChain_Name := FilterChain_Name fc;
     FilterChain_Filters := FilterChain_Filters fc;
     FilterChainMatchOf :=
       {| ServerNames := sort_Strings (ServerNames (FilterChainMatchOf fc) ++ [name])%list;
          TransportProtocol := TransportProtocol (FilterChainMatchOf fc) |};
     TransportSocket := TransportSocket fc |}.

(** The scan of lines 443-458: the chains after it, and [fcExists]. The first
    chain that has a transport socket, is no TCP proxy chain and carries an
    equal TLS context takes the name, and the scan stops there. *)
Fixpoint groupChains (downstreamTLS : option DownstreamTlsContext) (name : string)
    (fcs : list FilterChain) : list FilterChain * bool :=
  match fcs with
  | [] => ([], false)
  | fc :: rest =>
      if bool_decide (TransportSocket fc = None)
      then let r := groupChains downstreamTLS name rest in (fc :: r.1, r.2)
      else if isTCPProxyFilter (FilterChain_Filters fc)
      then let r := groupChains downstreamTLS name rest in (fc :: r.1, r.2)
      else if cmp_Equal downstreamTLS (GetDownstreamTLSContext fc)
      then (addServerName fc name :: rest, true)
      else let r := groupChains downstreamTLS name rest in (fc :: r.1, r.2)
  end.

(** The three tests of the scan on one existing chain: it has a transport
    socket, it is no TCP proxy chain, and its TLS context equals the new
    one. *)
Definition mergeable (downstreamTLS : option DownstreamTlsContext) (fc : FilterChain) : bool :=
  negb (bool_decide (TransportSocket fc = None)) &&
  negb (isTCPProxyFilter (FilterChain_Filters fc)) &&
  cmp_Equal downstreamTLS (GetDownstreamTLSContext fc).

Section visitor.
Context `{Deps}.

(** The protocol filters of a secure virtual host (lines 388-420). *)
Definition secureFilters (lvc : ListenerVisitorConfig) (vh : dag.SecureVirtualHost)
    : list Filter :=
  match dag.SVH_TCPProxy vh with
  | None =>
      Filters
        [ Get (envoy.RequestTimeout
                 (AccessLoggers
                    (MetricsPrefix
                       (RouteConfigName (DefaultFilters HTTPConnectionManagerBuilder)
                          ENVOY_HTTPS_LISTENER)
                       ENVOY_HTTPS_LISTENER)
                    (newSecureAccessLog lvc))
                 (requestTimeout lvc)) ]
  | Some proxy => Filters [ TCPProxy ENVOY_HTTPS_LISTENER proxy (newSecureAccessLog lvc) ]
  end.

Definition secureAlpnProtos (vh : dag.SecureVirtualHost) : list string :=
  match dag.SVH_TCPProxy vh with
  | None => ["h2"; "http/1.1"]
  | Some _ => []
  end.

(** The TLS context of a secure virtual host (lines 422-435): none under
    passthrough. *)
Definition secureDownstreamTLS (lvc : ListenerVisitorConfig) (vh : dag.SecureVirtualHost)
    : option DownstreamTlsContext :=
  match dag.Secret vh with
  | None => None
  | Some secret =>
      let vers := max (minProtoVersion lvc) (dag.MinProtoVersion vh) in
      Some (DownstreamTLSContextAdobe secret vers (maxProtoVersion (dag.MaxProtoVersion vh))
              (dag.DownstreamValidation vh) (secureAlpnProtos vh))
  end.

(** The filters of the fallback chain (lines 481-488). *)
Definition fallbackFilters (lvc : ListenerVisitorConfig) : list Filter :=
  Filters
    [ Get (envoy.RequestTimeout
             (AccessLoggers
                (MetricsPrefix
                   (RouteConfigName HTTPConnectionManagerBuilder ENVOY_FALLBACK_ROUTECONFIG)
                   ENVOY_HTTPS_LISTENER)
                (newSecureAccessLog lvc))
             (requestTimeout lvc)) ].

(** Lines 437-464: group the host into an existing chain, or append its own. *)
Definition groupOrAppend (lvc : ListenerVisitorConfig) (vh : dag.SecureVirtualHost)
    (fcs : list FilterChain) : list FilterChain :=
  let name := dag.VirtualHost_Name (dag.SVH_VirtualHost vh) in
  let downstreamTLS := secureDownstreamTLS lvc vh in
  let scanned :=
    if bool_decide (dag.SVH_TCPProxy vh = None) && bool_decide (is_Some (dag.Secret vh))
    then groupChains downstreamTLS name fcs
    else (fcs, false) in
  if scanned.2
  then scanned.1
  else (scanned.1 ++ [FilterChainTLS name downstreamTLS (secureFilters lvc vh)])%list.

(** Lines 471-492: the one fallback chain. *)
Definition appendFallback (lvc : ListenerVisitorConfig) (vh : dag.SecureVirtualHost)
    (fcs : list FilterChain) : list FilterChain :=
  match dag.FallbackCertificate vh with
  | Some cert =>
      if ContainsFallbackFilterChain fcs
      then fcs
      else (fcs ++
            [FilterChainTLSFallback
               (Some (DownstreamTLSContext cert (minProtoVersion lvc)
                        (dag.DownstreamValidation vh) (secureAlpnProtos vh)))
               (fallbackFilters lvc)])%list
  | None => fcs
  end.

(** The [*dag.SecureVirtualHost] case of visit. The secure listener is read
    through the map: a visitor without it panics. *)
Definition visitSecure (v : listenerVisitor) (vh : dag.SecureVirtualHost) : run listenerVisitor :=
  match listeners v !! ENVOY_HTTPS_LISTENER with
  | None => Panics
  | Some l =>
      Done (setSecureChains v l
              (appendFallback (config v) vh (groupOrAppend (config v) vh (FilterChains l))))
  end.

(** [visit] (lines 370-498). *)
Fixpoint visit (v : listenerVisitor) (vertex : dag.Vertex) : run listenerVisitor :=
  match vertex with
  | dag.VVirtualHost _ => Done (setHTTP v)
  | dag.VSecureVirtualHost vh => visitSecure v vh
  | dag.VOther children =>
      (fix each (cs : list dag.Vertex) (v : listenerVisitor) : run listenerVisitor :=
         match cs with
         | [] => Done v
         | c :: cs' =>
             match visit v c with
             | Done v' => each cs' v'
             | Panics => Panics
             | OutOfFuel => OutOfFuel
             end
         end) children v
  end.

End visitor.
(** *** Notions the statements below use *)

(** The secure virtual hosts [visit] reaches from a vertex, in the order in
    which it reaches them. *)
Fixpoint secureHosts (vertex : dag.Vertex) : list dag.SecureVirtualHost :=
  match vertex with
  | dag.VVirtualHost _ => []
  | dag.VSecureVirtualHost vh => [vh]
  | dag.VOther children => flat_map secureHosts children
  end.

(** The chains of the secure listener after the [*dag.SecureVirtualHost]
    case of visit has run on each host of a list in turn. *)
Definition visitChains `{Deps} (lvc : ListenerVisitorConfig)
    (vhs : list dag.SecureVirtualHost) (fcs : list FilterChain) : list FilterChain :=
  foldl (fun fcs vh => appendFallback lvc vh (groupOrAppend lvc vh fcs)) fcs vhs.

(** The server names a list of chains answers to. *)
Definition served (name : string) (fcs : list FilterChain) : Prop :=
  ∃ fc, fc ∈ fcs ∧ name ∈ ServerNames (FilterChainMatchOf fc).

(** The fallback chains of a list. *)
Definition fallbackChains (fcs : list FilterChain) : list FilterChain :=
  List.filter (fun fc => String.eqb (FilterChain_Name fc) "fallback-certificate") fcs.

(** *** The rest of the configuration (listener.go lines 47-187) *)

Definition DEFAULT_HTTP_ACCESS_LOG : string := "/dev/stdout".
Definition DEFAULT_HTTP_LISTENER_ADDRESS : string := "0.0.0.0".
Definition DEFAULT_HTTP_LISTENER_PORT : Z := 8080.
Definition DEFAULT_HTTPS_LISTENER_ADDRESS : string := DEFAULT_HTTP_LISTENER_ADDRESS.
Definition DEFAULT_HTTPS_LISTENER_PORT : Z := 8443.

(** The fields of [ListenerVisitorConfig] that only visitListeners reads:
    the addresses and ports, the insecure access log and [UseProxyProto]. *)
Record ListenerAddresses := {
  HTTPAddress : string;
  HTTPPort : Z;
  HTTPAccessLog : string;
  HTTPSAddress : string;
  HTTPSPort : Z;
  UseProxyProto : bool }.

Definition httpAddress (la : ListenerAddresses) : string :=
  if String.eqb (HTTPAddress la) "" then DEFAULT_HTTP_LISTENER_ADDRESS else HTTPAddress la.

Definition httpPort (la : ListenerAddresses) : Z :=
  if HTTPPort la =? 0 then DEFAULT_HTTP_LISTENER_PORT else HTTPPort la.

Definition httpAccessLog (la : ListenerAddresses) : string :=
  if String.eqb (HTTPAccessLog la) "" then DEFAULT_HTTP_ACCESS_LOG else HTTPAccessLog la.

Definition httpsAddress (la : ListenerAddresses) : string :=
  if String.eqb (HTTPSAddress la) "" then DEFAULT_HTTPS_LISTENER_ADDRESS else HTTPSAddress la.

Definition httpsPort (la : ListenerAddresses) : Z :=
  if HTTPSPort la =? 0 then DEFAULT_HTTPS_LISTENER_PORT else HTTPSPort la.

(** Go leaves the order in which [range] yields the listeners of a map
    unspecified. *)
Class RangeListeners := {
  range_listeners : gmap string Listener → list (string * Listener);
  range_listeners_perm : ∀ m, range_listeners m ≡ₚ map_to_list m }.

(** [Contents] (lines 236-248). *)
Definition Contents `{RangeListeners} (c : ListenerCache) : list Listener :=
  sort_Stable listenerLess
    ((range_listeners (values c)).*2 ++ (range_listeners (staticValues c)).*2)%list.

(** *** listener_adobe.go: the address filter *)

Record Cidr `{Floats} := { AddressPrefix : string; PrefixLen : float64 }.

(** The decoded file: a list is nil when the file does not give it. *)
Record IpAllowDenyConfig `{Floats} := {
  AllowCidrs : option (list Cidr);
  DenyCidrs : option (list Cidr) }.

(** What reading the file named by CIDR_LIST_PATH gives. *)
Inductive CidrFile `{Floats} : Type :=
  | OpenFails (err : string)
  | DecodeFails
  | Decodes (config : IpAllowDenyConfig).

Section adobe.
Context `{Floats}.

(** [cidrToProto] (lines 71-101): the fields after the call. *)
Definition cidrToProto (cidrs : list Cidr) (key : string)
    (structFields : gmap string types_Value) : gmap string types_Value :=
  <[key := ListValue
             ((fun cidr =>
                 StructValue
                   (<["prefix_len" := NumberValue (PrefixLen cidr)]>
                      (<["address_prefix" := StringValue (AddressPrefix cidr)]> ∅)))
                <$> cidrs)]> structFields.

(** [init] (lines 29-69): the value it leaves in the package variable
    [ipAllowDenyListenerFilter], from the environment variable and the file
    it names. *)
Definition init (path : string) (file : CidrFile) : run (option ListenerFilter) :=
  if String.eqb path "" then Done None
  else
    match file with
    | OpenFails _ => Panics
    | DecodeFails => Panics
    | Decodes config =>
        let structFields : gmap string types_Value := ∅ in
        let structFields :=
          match AllowCidrs config with
          | Some cidrs => cidrToProto cidrs "allow_cidrs" structFields
          | None => structFields
          end in
        let structFields :=
          match DenyCidrs config with
          | Some cidrs => cidrToProto cidrs "deny_cidrs" structFields
          | None => structFields
          end in
        if bool_decide (0 < size structFields)%nat
        then Done (Some {| ListenerFilter_Name := "envoy.listener.ip_allow_deny";
                           ListenerFilter_TypedConfig :=
                             Some {| TypeUrl :=
                                       "envoy.config.filter.network.ip_allow_deny.v2.IpAllowDeny";
                                     TypedStruct_Value := structFields |} |})
        else Done None
    end.

(** [CustomListenerFilters] (lines 103-108), on the value of the package
    variable. *)
Definition CustomListenerFilters (ipAllowDenyListenerFilter : option ListenerFilter)
    : list ListenerFilter :=
  match ipAllowDenyListenerFilter with
  | None => []
  | Some f => [f]
  end.

(** [proxyProtocol] and [secureProxyProtocol] (lines 357-368). *)
Definition proxyProtocol (useProxy : bool) : list ListenerFilter :=
  if useProxy then [ProxyProtocol] else [].

Definition secureProxyProtocol (useProxy : bool) : list ListenerFilter :=
  (proxyProtocol useProxy ++ [TLSInspector])%list.

End adobe.

(** What visitListeners calls and the sources do not hold: the secrets of
    the graph by name (contour/secret.go) and the order of package sorter on
    filter chains. *)
Class VisitDeps := {
  visitSecretsAsDag : dag.Vertex → gmap string Opaque;
  filterChainLess : FilterChain → FilterChain → bool }.

Section visitListeners.
Context `{Deps} `{Floats} `{VisitDeps}.

Definition newInsecureAccessLog (lvc : ListenerVisitorConfig) (la : ListenerAddresses)
    : list Opaque :=
  if String.eqb (accesslogType lvc) "json"
  then FileAccessLogJSON (httpAccessLog la) (accesslogFields lvc)
  else FileAccessLogEnvoy (httpAccessLog la).

(** The connection manager of lines 301-307 and 325-333. *)
Definition connectionManager (name : string) (accesslogger : list Opaque) (timeout : Z)
    : Filter :=
  Get (envoy.RequestTimeout
         (AccessLoggers
            (MetricsPrefix (RouteConfigName (DefaultFilters HTTPConnectionManagerBuilder) name)
               name)
            accesslogger)
         timeout).

(** Lines 321-343: the catch-all chain for clients that send no SNI. *)
Definition defaultCertificateChain (lvc : ListenerVisitorConfig) (secret : Opaque)
    : FilterChain :=
  FilterChainTLS ""
    (Some (DownstreamTLSContext secret (minProtoVersion lvc) None ["h2"; "http/1.1"]))
    (Filters [connectionManager ENVOY_HTTPS_LISTENER (newSecureAccessLog lvc)
                (requestTimeout lvc)]).

(** [visitListeners] (lines 284-355). The secure listener is reached through
    the map at every step. *)
Definition visitListeners (ipAllowDenyListenerFilter : option ListenerFilter)
    (root : dag.Vertex) (lvc : ListenerVisitorConfig) (la : ListenerAddresses)
    : run (gmap string Listener) :=
  let lv :=
    {| config := lvc;
       listeners :=
         {[ ENVOY_HTTPS_LISTENER :=
              NewListener ENVOY_HTTPS_LISTENER (httpsAddress la) (httpsPort la)
                (secureProxyProtocol (UseProxyProto la) ++
                 CustomListenerFilters ipAllowDenyListenerFilter)%list
                [] ]};
       http := false |} in
  lv ← visit lv root;
  let ls :=
    if http lv
    then <[ENVOY_HTTP_LISTENER :=
             NewListener ENVOY_HTTP_LISTENER (httpAddress la) (httpPort la)
               (proxyProtocol (UseProxyProto la) ++
                CustomListenerFilters ipAllowDenyListenerFilter)%list
               [connectionManager ENVOY_HTTP_LISTENER (newInsecureAccessLog lvc la)
                  (requestTimeout lvc)]]>
           (listeners lv)
    else listeners lv in
  ls ← (if negb (String.eqb (DefaultCertificate lvc) "")
        then
          match visitSecretsAsDag root !! DefaultCertificate lvc with
          | Some secret =>
              match ls !! ENVOY_HTTPS_LISTENER with
              | None => Panics
              | Some l =>
                  Done (<[ENVOY_HTTPS_LISTENER :=
                            withFilterChains l
                              (FilterChains l ++ [defaultCertificateChain lvc secret])%list]> ls)
              end
          | None => Done ls
          end
        else Done ls);
  match ls !! ENVOY_HTTPS_LISTENER with
  | None => Panics
  | Some l =>
      if nonempty (FilterChains l)
      then Done (<[ENVOY_HTTPS_LISTENER :=
                     withFilterChains l (sort_Stable filterChainLess (FilterChains l))]> ls)
      else Done (delete ENVOY_HTTPS_LISTENER ls)
  end.

(** The catch-all chain, when a default certificate is configured and the
    graph holds its secret. *)
Definition defaultCertificateChains (lvc : ListenerVisitorConfig) (root : dag.Vertex)
    : list FilterChain :=
  if negb (String.eqb (DefaultCertificate lvc) "")
  then match visitSecretsAsDag root !! DefaultCertificate lvc with
       | Some secret => [defaultCertificateChain lvc secret]
       | None => []
       end
  else [].

End visitListeners.
End contour.

(** * Concrete inputs

    Instances of the parameters and small resource sets, used to run the
    definitions above on concrete inputs. *)
Module demo.

Definition tagOf (o : Opaque) : string := match o with opaque t => t end.

#[global] Instance envoyDeps : envoy.Deps := {|
  envoy.Clustername_service := fun s => tagOf (dag.TCPService_id s);
  envoy.Clustername := fun c => tagOf (dag.Service_id (dag.Upstream c));
  envoy.FileAccessLogJSON := fun path fields => [opaque path];
  envoy.FileAccessLogEnvoy := fun path => [opaque path];
  envoy.DefaultFields := [] |}.

(** An old-style service and a cluster, by name and weight. *)
Definition service (name : string) (weight : Z) : dag.HTTPService :=
  {| dag.TCPService_ := {| dag.TCPService_id := opaque name; dag.TCPService_Weight := weight |};
     dag.HTTPService_Protocol := "" |}.

Definition cluster (name : string) (weight : Z) : dag.Cluster :=
  {| dag.Upstream := {| dag.Service_id := opaque name; dag.Protocol := "" |};
     dag.LoadBalancerPolicy := "";
     dag.Weight := weight;
     dag.HTTPHealthCheckPolicyOf := None;
     dag.UpstreamValidation := None;
     dag.Cluster_Protocol := "";
     dag.Cluster_IdleTimeout := None |}.

(** The names and weights of a projected list. *)
Definition weightsOf (wc : envoy.WeightedCluster) : list (string * Z) :=
  (fun c => (envoy.ClusterWeight_Name c, envoy.ClusterWeight_Weight c)) <$> envoy.Clusters wc.

Definition tcpWeightsOf (f : envoy.Filter) : list (string * Z) :=
  match envoy.ConfigType f with
  | envoy.Config_TcpProxy tcp =>
      match envoy.TcpProxy_ClusterSpecifier tcp with
      | envoy.TcpProxy_WeightedClusters cs =>
          (fun c => (envoy.TcpClusterWeight_Name c, envoy.TcpClusterWeight_Weight c)) <$> cs
      | envoy.TcpProxy_Cluster _ => []
      end
  | envoy.Config_HttpConnectionManager _ => []
  end.

(** A listener visitor whose secure listener has the chains [fcs]. *)
Definition lvc : contour.ListenerVisitorConfig :=
  {| contour.HTTPSAccessLog := "";
     contour.MinimumProtocolVersion := TLSv1_2;
     contour.DefaultCertificate := "";
     contour.AccessLogType := "";
     contour.AccessLogFields := None;
     contour.RequestTimeout := 0 |}.

Definition httpsListener (fcs : list envoy.FilterChain) : envoy.Listener :=
  {| envoy.Listener_Name := contour.ENVOY_HTTPS_LISTENER;
     envoy.Listener_Address := "0.0.0.0";
     envoy.Listener_Port := 8443;
     envoy.ListenerFilters := [];
     envoy.FilterChains := fcs |}.

Definition visitor (fcs : list envoy.FilterChain) : contour.listenerVisitor :=
  {| contour.config := lvc;
     contour.listeners := {[ contour.ENVOY_HTTPS_LISTENER := httpsListener fcs ]};
     contour.http := false |}.

(** A TLS-terminating host with a secret, and versions as requested. *)
Definition secureHost (name secret : string) (minv maxv : Z) : dag.SecureVirtualHost :=
  {| dag.SVH_VirtualHost := {| dag.VirtualHost_Name := name; dag.routes := [] |};
     dag.Secret := Some (opaque secret);
     dag.MinTLSVersion := minv;
     dag.MinProtoVersion := minv;
     dag.MaxProtoVersion := maxv;
     dag.DownstreamValidation := None;
     dag.FallbackCertificate := None;
     dag.SVH_TCPProxy := None |}.

(** The chains of the secure listener after visiting the hosts in turn. *)
Definition chainsAfter (vhs : list dag.SecureVirtualHost) : list envoy.FilterChain :=
  match contour.visit (visitor []) (dag.VOther (dag.VSecureVirtualHost <$> vhs)) with
  | Done v =>
      match contour.listeners v !! contour.ENVOY_HTTPS_LISTENER with
      | Some l => envoy.FilterChains l
      | None => []
      end
  | _ => []
  end.

Definition serverNamesOf (fcs : list envoy.FilterChain) : list (list string) :=
  (fun fc => envoy.ServerNames (envoy.FilterChainMatchOf fc)) <$> fcs.

(** The builder's parameters: every service and secret exists, every
    namespace may hold roots, [%q] puts its operand between double quotes. *)
Definition quote : string := String (Ascii.ascii_of_nat 34) EmptyString.

#[global] Instance dagDeps : dag.Deps := {|
  dag.fmt_q := fun s => quote +:+ s +:+ quote;
  dag.fmt_d := fun z => pretty z;
  dag.fmt_noverb := fun s => s;
  dag.ptypes_Duration := fun p => Ok (dag.Seconds p * dag.time_Second + dag.Nanos p);
  dag.ptypes_DurationProto := fun d =>
    {| dag.Seconds := Z.quot d dag.time_Second; dag.Nanos := Z.rem d dag.time_Second |};
  dag.annotation_ParseTimeout := fun s => opaque s;
  dag.annotation_MinTLSVersion := fun s => TLSv1_1;
  dag.annotation_MaxProtoVersion := fun s => TLS_AUTO;
  dag.rootAllowed := fun ns => true;
  dag.isBlank := fun s => String.eqb s "";
  dag.splitSecret := fun secret ns => (ns, secret);
  dag.lookupSecret := fun k => Ok (opaque (k.1 +:+ "/" +:+ k.2));
  dag.delegationPermitted := fun k ns => true;
  dag.matchesPathPrefix := fun path prefix => String.prefix prefix path;
  dag.routeEnforceTLS := fun enforceTLS permitInsecure => enforceTLS && negb permitInsecure;
  dag.retryPolicy := fun rp => rp;
  dag.headersPolicy := fun hp allowHost => Ok hp;
  dag.headerConditionsValid := fun conds => true;
  dag.mergeHeaderConditions := fun conds => conds;
  dag.lookupService := fun k port =>
    Some {| dag.Service_id := opaque (k.1 +:+ "/" +:+ k.2); dag.Protocol := "" |};
  dag.lookupUpstreamValidation := fun uv ns => Ok uv |}.

#[global] Instance rangeOrder : dag.RangeOrder := {|
  dag.range_ingressroutes := map_to_list;
  dag.range_ingressroutes_perm := fun m => reflexivity (map_to_list m);
  dag.range_fqdns := map_to_list;
  dag.range_fqdns_perm := fun m => reflexivity (map_to_list m) |}.

(** Route entries: to a service on port 80, and to another object. *)
Definition toService (prefix name : string) (idle : option dag.ProtoDuration) : dag.RouteIn :=
  {| dag.Match := prefix;
     dag.Services :=
       [ {| dag.Service_Name := name; dag.Service_Port := 80; dag.Service_Weight := 0;
            dag.Service_Strategy := ""; dag.Service_HealthCheck := None;
            dag.Service_UpstreamValidation := None; dag.Service_IdleTimeout := None |} ];
     dag.Route_Delegate := None;
     dag.EnableWebsockets := false;
     dag.PermitInsecure := false;
     dag.PrefixRewriteIn := "";
     dag.TimeoutPolicyOf := None;
     dag.RetryPolicyOf := None;
     dag.HashPolicyIn := [];
     dag.PerFilterConfigIn := opaque "";
     dag.RequestHeadersPolicyIn := None;
     dag.ResponseHeadersPolicyIn := None;
     dag.Route_IdleTimeout := idle;
     dag.Route_Timeout := None;
     dag.Route_Tracing := None;
     dag.HeaderMatch := [] |}.

Definition toDelegate (prefix name : string) : dag.RouteIn :=
  {| dag.Match := prefix;
     dag.Services := [];
     dag.Route_Delegate := Some {| dag.Delegate_Name := name; dag.Delegate_Namespace := "" |};
     dag.EnableWebsockets := false;
     dag.PermitInsecure := false;
     dag.PrefixRewriteIn := "";
     dag.TimeoutPolicyOf := None;
     dag.RetryPolicyOf := None;
     dag.HashPolicyIn := [];
     dag.PerFilterConfigIn := opaque "";
     dag.RequestHeadersPolicyIn := None;
     dag.ResponseHeadersPolicyIn := None;
     dag.Route_IdleTimeout := None;
     dag.Route_Timeout := None;
     dag.Route_Tracing := None;
     dag.HeaderMatch := [] |}.

(** Objects of namespace "default": a root for an FQDN, and a delegate. *)
Definition root (name fqdn : string) (rts : list dag.RouteIn) : dag.IngressRoute :=
  {| dag.Namespace := "default";
     dag.Name := name;
     dag.Spec_VirtualHost := Some {| dag.Fqdn := fqdn; dag.VirtualHost_TLS := None |};
     dag.Spec_Routes := rts;
     dag.Spec_TCPProxy := None |}.

Definition delegate (name : string) (rts : list dag.RouteIn) : dag.IngressRoute :=
  {| dag.Namespace := "default";
     dag.Name := name;
     dag.Spec_VirtualHost := None;
     dag.Spec_Routes := rts;
     dag.Spec_TCPProxy := None |}.

(** The cycle of the spec: root [a] delegates to [b], whose first entry
    delegates back to [a]; each has a terminal entry after its edge. Root [c]
    has nothing to do with them. *)
Definition cycleA : dag.IngressRoute :=
  root "a" "a.example.com" [toDelegate "/" "b"; toService "/x" "web" None].
Definition cycleB : dag.IngressRoute :=
  delegate "b" [toDelegate "/" "a"; toService "/y" "web" None].
Definition unrelated : dag.IngressRoute :=
  root "c" "c.example.com" [toService "/" "web" None].

(** Two roots on one FQDN. *)
Definition twin1 : dag.IngressRoute := root "d1" "d.example.com" [toService "/" "web" None].
Definition twin2 : dag.IngressRoute := root "d2" "d.example.com" [toService "/" "web" None].

(** A root on a wildcard FQDN. *)
Definition wildcard : dag.IngressRoute :=
  root "w" "*.example.com" [toService "/" "web" None].

(** A root on a wildcard FQDN that terminates TLS with the secret "cert". *)
Definition certTLS : dag.TLS :=
  {| dag.SecretName := "cert";
     dag.MinimumProtocolVersion := "";
     dag.MaximumProtocolVersion := "";
     dag.Passthrough := false |}.

Definition secureWildcard : dag.IngressRoute :=
  {| dag.Namespace := "default";
     dag.Name := "sw";
     dag.Spec_VirtualHost :=
       Some {| dag.Fqdn := "*.example.com"; dag.VirtualHost_TLS := Some certTLS |};
     dag.Spec_Routes := [toService "/" "web" None];
     dag.Spec_TCPProxy := None |}.

(** A root that delegates to [twin1], one of the two roots on one FQDN. *)
Definition toTwin : dag.IngressRoute := root "r" "r.example.com" [toDelegate "/" "d1"].

(** Two hours and one hour, as protobuf durations. *)
Definition twoHours : dag.ProtoDuration := {| dag.Seconds := 7200; dag.Nanos := 0 |}.
Definition oneHour : dag.ProtoDuration := {| dag.Seconds := 3600; dag.Nanos := 0 |}.

(** A builder over a resource set, with nothing built yet. *)
Definition builder (irs : list dag.IngressRoute) : dag.Builder :=
  {| dag.ingressroutes := list_to_map ((fun ir => (dag.fullName ir, ir)) <$> irs);
     dag.DisablePermitInsecure := false;
     dag.orphaned := ∅;
     dag.statuses := [];
     dag.virtualhosts := ∅;
     dag.securevirtualhosts := ∅ |}.

(** What a build leaves, in a form that can be compared: per committed call
    the object and its outcome, and per virtual host the prefixes of its
    routes. *)
Definition outcomes (r : run dag.Builder) : list (FullName * option dag.Status) :=
  match r with
  | Done b => (fun sw => (dag.osw_obj sw, dag.osw_status sw)) <$> dag.statuses b
  | _ => []
  end.

Definition routePrefixes (r : run dag.Builder) (host : string) : option (list string) :=
  match r with
  | Done b => (fun vh => dag.PathCondition <$> dag.routes vh) <$> dag.virtualhosts b !! host
  | _ => None
  end.

(** A TLS block that passes TLS through, and a root with such a block and a
    tcpproxy. *)
Definition passthroughTLS : dag.TLS :=
  {| dag.SecretName := "";
     dag.MinimumProtocolVersion := "";
     dag.MaximumProtocolVersion := "";
     dag.Passthrough := true |}.

Definition tcpService (name : string) (weight : Z) : dag.ServiceIn :=
  {| dag.Service_Name := name; dag.Service_Port := 443; dag.Service_Weight := weight;
     dag.Service_Strategy := ""; dag.Service_HealthCheck := None;
     dag.Service_UpstreamValidation := None; dag.Service_IdleTimeout := None |}.

Definition tcpRoot (name fqdn : string) (tcpproxy : dag.TCPProxyIn) (rts : list dag.RouteIn)
    : dag.IngressRoute :=
  {| dag.Namespace := "default";
     dag.Name := name;
     dag.Spec_VirtualHost :=
       Some {| dag.Fqdn := fqdn; dag.VirtualHost_TLS := Some passthroughTLS |};
     dag.Spec_Routes := rts;
     dag.Spec_TCPProxy := Some tcpproxy |}.

(** A tcpproxy with two weighted services, and one that delegates. *)
Definition twoBackends : dag.TCPProxyIn :=
  {| dag.TCPProxy_Services := [tcpService "blue" 5; tcpService "green" 3];
     dag.TCPProxy_Delegate := None |}.

Definition tcpDelegation (name : string) : dag.TCPProxyIn :=
  {| dag.TCPProxy_Services := [];
     dag.TCPProxy_Delegate :=
       Some {| dag.Delegate_Name := name; dag.Delegate_Namespace := "" |} |}.

(** A secure virtual host that passes TLS through to a TCP backend. *)
Definition passthroughHost (name backend : string) : dag.SecureVirtualHost :=
  {| dag.SVH_VirtualHost := {| dag.VirtualHost_Name := name; dag.routes := [] |};
     dag.Secret := None;
     dag.MinTLSVersion := TLS_AUTO;
     dag.MinProtoVersion := TLS_AUTO;
     dag.MaxProtoVersion := TLS_AUTO;
     dag.DownstreamValidation := None;
     dag.FallbackCertificate := None;
     dag.SVH_TCPProxy := Some {| dag.TCPProxy_Clusters := [cluster backend 0] |} |}.

(** An idle timeout of zero. *)
Definition noTime : dag.ProtoDuration := {| dag.Seconds := 0; dag.Nanos := 0 |}.

(** Floating-point values stood in for by integers, secrets that are always
    found, and chains ordered by their first server name. *)
#[global] Instance floats : Floats := {|
  float32 := Z;
  float64 := Z;
  float64_of_int := fun z => z;
  float64_of_float32 := fun z => z |}.

#[global] Instance visitDeps : contour.VisitDeps := {|
  contour.visitSecretsAsDag := fun root => ∅;
  contour.filterChainLess := fun a b =>
    String.ltb (strings_Join (envoy.ServerNames (envoy.FilterChainMatchOf a)) ",")
               (strings_Join (envoy.ServerNames (envoy.FilterChainMatchOf b)) ",") |}.

Definition addresses : contour.ListenerAddresses :=
  {| contour.HTTPAddress := "";
     contour.HTTPPort := 0;
     contour.HTTPAccessLog := "";
     contour.HTTPSAddress := "";
     contour.HTTPSPort := 0;
     contour.UseProxyProto := false |}.

(** The names and the server names of the listeners visitListeners returns. *)
Definition listenerNames (r : run (gmap string envoy.Listener))
    : list (string * list (list string)) :=
  match r with
  | Done m => (fun p => (p.1, serverNamesOf (envoy.FilterChains p.2))) <$> map_to_list m
  | _ => []
  end.

End demo.

(** * Properties *)

(** ** Sorting *)
Section sort_facts.
Context {A : Type} (less : A → A → bool).

Lemma sort_insert_perm (x : A) (l : list A) : sort_insert less x l ≡ₚ x :: l.
Proof.
  induction l as [|y l IH]; simpl; [done|].
  destruct (less y x); [|done].
  rewrite IH. apply Permutation_swap.
Qed.

Lemma sort_Stable_perm (l : list A) : sort_Stable less l ≡ₚ l.
Proof.
  induction l as [|x l IH]; simpl; [done|].
  rewrite sort_insert_perm. by rewrite IH.
Qed.

Lemma sort_Stable_length (l : list A) : length (sort_Stable less l) = length l.
Proof. apply Permutation_length, sort_Stable_perm. Qed.

Hypothesis less_asym : ∀ a b, less a b = true → less b a = false.

Lemma sort_insert_ordered (x : A) (l : list A) :
  ordered less l → ordered less (sort_insert less x l).
Proof.
  unfold ordered. induction l as [|y l IH]; simpl; intros Hl.
  - repeat constructor.
  - destruct (less y x) eqn:Hyx.
    + apply Sorted_inv in Hl as [Hl Hhd]. constructor; [by apply IH|].
      destruct l as [|z l]; simpl.
      * constructor. by apply less_asym.
      * destruct (less z x); constructor.
        -- by inversion Hhd.
        -- by apply less_asym.
    + constructor; [done|]. by constructor.
Qed.

Lemma sort_Stable_ordered (l : list A) : ordered less (sort_Stable less l).
Proof.
  induction l as [|x l IH]; simpl; [constructor|]. by apply sort_insert_ordered.
Qed.
End sort_facts.

(** Stability: within a class of elements that [less] does not order among
    themselves, the sort keeps the order the elements came in. *)
Lemma sort_Stable_stable {A : Type} (less : A → A → bool) (P : A → bool) (l : list A) :
  (∀ a b, P a = true → P b = true → less a b = false) →
  List.filter P (sort_Stable less l) = List.filter P l.
Proof.
  intros Hcls.
  assert (Hins : ∀ x l', List.filter P (sort_insert less x l') = List.filter P (x :: l')).
  { intros x l'. induction l' as [|y l' IH]; simpl; [done|].
    destruct (less y x) eqn:Hyx; simpl; [|done].
    simpl in IH. rewrite IH.
    destruct (P x) eqn:Hx, (P y) eqn:Hy; try done.
    rewrite Hcls in Hyx; done. }
  induction l as [|x l IH]; simpl; [done|].
  rewrite Hins. simpl. by rewrite IH.
Qed.

Lemma ltb_asym (a b : string) : String.ltb a b = true → String.ltb b a = false.
Proof.
  unfold String.ltb. rewrite (String.compare_antisym a b).
  by destruct (String.compare b a).
Qed.

Lemma ltb_irrefl (a : string) : String.ltb a a = false.
Proof.
  destruct (String.ltb a a) eqn:E; [|done].
  by rewrite (ltb_asym _ _ E) in E.
Qed.

Lemma sort_Strings_perm (l : list string) : sort_Strings l ≡ₚ l.
Proof. apply sort_Stable_perm. Qed.

Lemma sort_Strings_ordered (l : list string) : ordered String.ltb (sort_Strings l).
Proof. apply sort_Stable_ordered, ltb_asym. Qed.

(** ** The listener cache *)

Lemma Query_perm (c : contour.ListenerCache) (names : list string) :
  contour.Query c names ≡ₚ omap (contour.resolve c) names.
Proof. apply sort_Stable_perm. Qed.

Lemma listenerLess_asym (a b : envoy.Listener) :
  contour.listenerLess a b = true → contour.listenerLess b a = false.
Proof. apply ltb_asym. Qed.

(** C7: Query resolves every requested name from the dynamic generation
    first and from the static table otherwise, leaves out a name found in
    neither (it always returns a list, and every object in it is the one some
    requested name resolves to), and returns the objects sorted by name, with
    objects of equal name in the order they were requested. *)
Theorem C7_Query_resolves_skips_and_sorts (c : contour.ListenerCache) (names : list string) :
  (∀ n v, contour.values c !! n = Some v → contour.resolve c n = Some v) ∧
  (∀ n, contour.values c !! n = None →
        contour.resolve c n = contour.staticValues c !! n) ∧
  contour.Query c names ≡ₚ omap (contour.resolve c) names ∧
  (∀ v, v ∈ contour.Query c names ↔ ∃ n, n ∈ names ∧ contour.resolve c n = Some v) ∧
  (∀ pre n post, names = (pre ++ n :: post)%list →
     contour.values c !! n = None → contour.staticValues c !! n = None →
     contour.Query c names = contour.Query c (pre ++ post)%list) ∧
  ordered contour.listenerLess (contour.Query c names) ∧
  (∀ k, List.filter (fun l => String.eqb (envoy.Listener_Name l) k) (contour.Query c names) =
        List.filter (fun l => String.eqb (envoy.Listener_Name l) k)
          (omap (contour.resolve c) names)).
Proof.
  split_and!.
  - intros n v Hv. unfold contour.resolve. by rewrite Hv.
  - intros n Hn. unfold contour.resolve. by rewrite Hn.
  - apply Query_perm.
  - intros v. rewrite Query_perm, list_elem_of_omap. naive_solver.
  - intros pre n post -> Hd Hs. unfold contour.Query. f_equal.
    rewrite !omap_app. simpl.
    assert (contour.resolve c n = None) as ->; [|done].
    unfold contour.resolve. by rewrite Hd.
  - apply sort_Stable_ordered, listenerLess_asym.
  - intros k. apply sort_Stable_stable.
    intros a b Ha Hb. unfold contour.listenerLess.
    apply String.eqb_eq in Ha, Hb. rewrite Ha, Hb. apply ltb_irrefl.
Qed.

(** ** Weighted clusters *)

Section weights.
Context `{envoy.Deps}.

Lemma weightSum_nonneg (services : list dag.HTTPService) :
  Forall (fun s => 0 ≤ envoy.weightOf s) services → 0 ≤ envoy.weightSum services.
Proof. induction 1; simpl in *; lia. Qed.

Lemma weightOf_le_sum (services : list dag.HTTPService) (s : dag.HTTPService) :
  Forall (fun s => 0 ≤ envoy.weightOf s) services → s ∈ services →
  envoy.weightOf s ≤ envoy.weightSum services.
Proof.
  induction 1 as [|x l Hx Hl IH]; intros Hin.
  - by apply elem_of_nil in Hin.
  - pose proof (weightSum_nonneg l Hl). simpl.
    apply elem_of_cons in Hin as [->|Hin]; [lia|]. specialize (IH Hin). lia.
Qed.

Lemma wrap_int64_small (z : Z) : - 2 ^ 63 ≤ z < 2 ^ 63 → wrap_int64 z = z.
Proof. intros Hz. unfold wrap_int64. rewrite Z.mod_small; lia. Qed.

Lemma wrap_uint32_small (z : Z) : 0 ≤ z < 2 ^ 32 → wrap_uint32 z = z.
Proof. intros Hz. unfold wrap_uint32. by rewrite Z.mod_small. Qed.

Lemma totalWeight_is_sum (services : list dag.HTTPService) :
  Forall (fun s => 0 ≤ envoy.weightOf s) services → envoy.weightSum services < 2 ^ 63 →
  envoy.totalWeight services = envoy.weightSum services.
Proof.
  unfold envoy.totalWeight. intros Hpos Hlt.
  assert (Hgen : ∀ acc, 0 ≤ acc → acc + envoy.weightSum services < 2 ^ 63 →
            foldl (fun total service =>
                     wrap_int64 (total + dag.TCPService_Weight (dag.TCPService_ service)))
                  acc services
            = acc + envoy.weightSum services).
  { clear Hlt. induction Hpos as [|x l Hx Hl IH]; intros acc Hacc Hb; simpl in *; [lia|].
    pose proof (weightSum_nonneg l Hl). unfold envoy.weightOf in *.
    rewrite wrap_int64_small by lia. rewrite IH; lia. }
  rewrite Hgen; lia.
Qed.

Lemma weightSum_zero (services : list dag.HTTPService) :
  Forall (fun s => 0 ≤ envoy.weightOf s) services →
  envoy.weightSum services = 0 ↔ Forall (fun s => envoy.weightOf s = 0) services.
Proof.
  induction 1 as [|x l Hx Hl IH]; simpl.
  - split; [constructor|done].
  - pose proof (weightSum_nonneg l Hl). rewrite Forall_cons. split.
    + intros Hs. split; [lia|]. apply IH. lia.
    + intros [Hz Hr]. apply IH in Hr. lia.
Qed.

Lemma clusterWeightByName_asym (a b : envoy.ClusterWeight) :
  envoy.clusterWeightByName a b = true → envoy.clusterWeightByName b a = false.
Proof.
  unfold envoy.clusterWeightByName. rewrite (String.eqb_sym (envoy.ClusterWeight_Name b)).
  destruct (String.eqb _ _); [lia|apply ltb_asym].
Qed.

(** C3, as the code has it: for an HTTP route whose weights are not negative
    and sum to less than 2^32, weightedClusters gives every cluster weight 1
    and the number of clusters as total when all weights are zero, and the
    given weights (zeros included) with their sum as total otherwise, the list
    being sorted by name and weight. The raw-TCP projection has no total and
    replaces each zero weight by 1 on its own, whatever the other weights
    are. *)
Theorem C3_weight_resolution (services : list dag.HTTPService) :
  Forall (fun s => 0 ≤ envoy.weightOf s) services →
  envoy.weightSum services < 2 ^ 32 →
  Z.of_nat (length services) < 2 ^ 32 →
  ordered envoy.clusterWeightByName (envoy.Clusters (envoy.weightedClusters services)) ∧
  (Forall (fun s => envoy.weightOf s = 0) services →
     envoy.Clusters (envoy.weightedClusters services)
       ≡ₚ (fun s => envoy.setWeight 1 (envoy.clusterWeight s)) <$> services ∧
     envoy.TotalWeight (envoy.weightedClusters services) = Z.of_nat (length services)) ∧
  (¬ Forall (fun s => envoy.weightOf s = 0) services →
     envoy.Clusters (envoy.weightedClusters services)
       ≡ₚ (fun s => envoy.setWeight (envoy.weightOf s) (envoy.clusterWeight s)) <$> services ∧
     envoy.TotalWeight (envoy.weightedClusters services) = envoy.weightSum services) ∧
  (∀ statPrefix proxy accesslogger,
     length (dag.TCPProxy_Clusters proxy) ≠ 1%nat →
     ∃ cs, envoy.ConfigType (envoy.TCPProxy statPrefix proxy accesslogger)
             = envoy.Config_TcpProxy
                 {| envoy.TcpProxy_StatPrefix := statPrefix;
                    envoy.TcpProxy_ClusterSpecifier := envoy.TcpProxy_WeightedClusters cs;
                    envoy.TcpProxy_AccessLog := accesslogger;
                    envoy.TcpProxy_IdleTimeout := 9001 * dag.time_Second |} ∧
           cs ≡ₚ (fun c => {| envoy.TcpClusterWeight_Name := envoy.Clustername c;
                              envoy.TcpClusterWeight_Weight :=
                                if dag.Weight c =? 0 then 1 else dag.Weight c |})
                 <$> dag.TCPProxy_Clusters proxy).
Proof.
  intros Hpos Hsum Hlen.
  pose proof (totalWeight_is_sum services Hpos ltac:(lia)) as Htot.
  pose proof (weightSum_zero services Hpos) as Hzero.
  pose proof (weightSum_nonneg services Hpos) as Hnn.
  split_and!.
  - apply sort_Stable_ordered, clusterWeightByName_asym.
  - intros Hall. unfold envoy.weightedClusters. simpl.
    rewrite Htot. apply Hzero in Hall as Hs. rewrite Hs. simpl. split.
    + rewrite sort_Stable_perm. by rewrite <- list_fmap_compose.
    + unfold envoy.u32. apply wrap_uint32_small. lia.
  - intros Hnall. unfold envoy.weightedClusters. simpl. rewrite Htot.
    destruct (envoy.weightSum services =? 0) eqn:E.
    { apply Z.eqb_eq in E. by apply Hzero in E. }
    split.
    + rewrite sort_Stable_perm.
      assert (envoy.clusterWeight <$> services
              = (fun s => envoy.setWeight (envoy.weightOf s) (envoy.clusterWeight s))
                  <$> services) as ->; [|done].
      apply Forall_fmap_ext_1, Forall_forall. intros s Hs.
      pose proof (weightOf_le_sum services s Hpos Hs).
      rewrite Forall_forall in Hpos. specialize (Hpos s Hs).
      unfold envoy.setWeight, envoy.clusterWeight, envoy.weightOf in *. simpl. f_equal.
      unfold envoy.u32. apply wrap_uint32_small. lia.
    + unfold envoy.u32. apply wrap_uint32_small. lia.
  - intros statPrefix proxy accesslogger Hne.
    unfold envoy.TCPProxy.
    destruct (dag.TCPProxy_Clusters proxy) as [|c [|c' cs]] eqn:E; simpl in Hne; try done.
    + eexists. split; [reflexivity|]. by rewrite sort_Stable_perm.
    + eexists. split; [reflexivity|]. by rewrite sort_Stable_perm.
Qed.

End weights.

(** C3 at weights 2/0/3 (and at three zero weights). *)
Lemma C3_weight_resolution_witness :
  demo.weightsOf (envoy.weightedClusters
                    [demo.service "a" 2; demo.service "b" 0; demo.service "c" 3])
    = [("a", 2); ("b", 0); ("c", 3)] ∧
  envoy.TotalWeight (envoy.weightedClusters
                       [demo.service "a" 2; demo.service "b" 0; demo.service "c" 3]) = 5.
Proof.
  assert (Hpos : Forall (fun s => 0 ≤ envoy.weightOf s)
                   [demo.service "a" 2; demo.service "b" 0; demo.service "c" 3]).
  { repeat (constructor; [unfold envoy.weightOf; simpl; lia|]). constructor. }
  destruct (C3_weight_resolution _ Hpos) as (_ & _ & Hgiven & _);
    [vm_compute; reflexivity | vm_compute; reflexivity |].
  destruct Hgiven as [_ Htotal].
  - intros Hall. apply Forall_cons in Hall as [Hz _]. vm_compute in Hz. discriminate Hz.
  - split; [reflexivity|]. rewrite Htotal. reflexivity.
Defined.

(** The claim as stated fails on the raw-TCP projection, where weights 2/0/3
    come out as 2/1/3; and on weightedClusters the test is that the [int]
    total is zero, which weights 1/-1 pass without being zero themselves. *)
Lemma C3_counterexample :
  demo.tcpWeightsOf
    (envoy.TCPProxy "ingress_https"
       {| dag.TCPProxy_Clusters :=
            [demo.cluster "a" 2; demo.cluster "b" 0; demo.cluster "c" 3] |} [])
    = [("a", 2); ("b", 1); ("c", 3)] ∧
  demo.weightsOf (envoy.weightedClusters [demo.service "a" 1; demo.service "b" (-1)])
    = [("a", 1); ("b", 1)] ∧
  envoy.TotalWeight (envoy.weightedClusters [demo.service "a" 1; demo.service "b" (-1)]) = 2.
Proof. repeat split; reflexivity. Qed.

(** ** The listener visitor *)

Section visitor_facts.
Context `{envoy.Deps}.

Lemma mergeable_spec (tls : option envoy.DownstreamTlsContext) (fc : envoy.FilterChain) :
  contour.mergeable tls fc = true ↔
  ∃ ctx, tls = Some ctx ∧ envoy.TransportSocket fc = Some ctx ∧
         contour.isTCPProxyFilter (envoy.FilterChain_Filters fc) = false.
Proof.
  unfold contour.mergeable, contour.cmp_Equal, envoy.GetDownstreamTLSContext.
  rewrite !andb_true_iff, !negb_true_iff, bool_decide_eq_false, bool_decide_eq_true.
  split.
  - intros [[Hs Ht] He]. destruct tls as [ctx|]; [|by rewrite <- He in Hs]. eauto.
  - intros (ctx & -> & Hs & Ht). rewrite Hs. done.
Qed.

(** The scan stops at the first chain that passes the three tests. *)
Lemma groupChains_first (tls : option envoy.DownstreamTlsContext) (name : string)
    (pre post : list envoy.FilterChain) (fc : envoy.FilterChain) :
  Forall (fun fc' => contour.mergeable tls fc' = false) pre →
  contour.mergeable tls fc = true →
  contour.groupChains tls name (pre ++ fc :: post)
  = ((pre ++ contour.addServerName fc name :: post)%list, true).
Proof.
  intros Hpre Hfc. induction Hpre as [|x pre Hx Hpre IH]; simpl.
  - unfold contour.mergeable in Hfc.
    apply andb_true_iff in Hfc as [Hfc He]. apply andb_true_iff in Hfc as [Hs Ht].
    apply negb_true_iff in Hs, Ht. by rewrite Hs, Ht, He.
  - rewrite IH. simpl. unfold contour.mergeable in Hx.
    destruct (bool_decide (envoy.TransportSocket x = None)); [done|].
    destruct (contour.isTCPProxyFilter (envoy.FilterChain_Filters x)); [done|].
    simpl in Hx. by rewrite Hx.
Qed.

Lemma groupChains_none (tls : option envoy.DownstreamTlsContext) (name : string)
    (fcs : list envoy.FilterChain) :
  Forall (fun fc' => contour.mergeable tls fc' = false) fcs →
  contour.groupChains tls name fcs = (fcs, false).
Proof.
  induction 1 as [|x fcs Hx Hfcs IH]; simpl; [done|].
  rewrite IH. simpl. unfold contour.mergeable in Hx.
  destruct (bool_decide (envoy.TransportSocket x = None)); [done|].
  destruct (contour.isTCPProxyFilter (envoy.FilterChain_Filters x)); [done|].
  simpl in Hx. by rewrite Hx.
Qed.

(** Either no chain passes the tests, or there is a first one that does. *)
Lemma first_mergeable (tls : option envoy.DownstreamTlsContext) (fcs : list envoy.FilterChain) :
  Forall (fun fc' => contour.mergeable tls fc' = false) fcs ∨
  ∃ pre fc post, fcs = (pre ++ fc :: post)%list ∧
    Forall (fun fc' => contour.mergeable tls fc' = false) pre ∧
    contour.mergeable tls fc = true.
Proof.
  induction fcs as [|x fcs IH]; [left; constructor|].
  destruct (contour.mergeable tls x) eqn:Hx.
  - right. exists [], x, fcs. repeat split; [constructor|done].
  - destruct IH as [IH|(pre & fc & post & -> & Hpre & Hfc)].
    + left. by constructor.
    + right. exists (x :: pre), fc, post. repeat split; [by constructor|done].
Qed.

Lemma groupChains_keeps_tcp (tls : option envoy.DownstreamTlsContext) (name : string)
    (fcs : list envoy.FilterChain) (i : nat) (fc : envoy.FilterChain) :
  fcs !! i = Some fc →
  contour.isTCPProxyFilter (envoy.FilterChain_Filters fc) = true →
  (contour.groupChains tls name fcs).1 !! i = Some fc.
Proof.
  intros Hi Htcp.
  destruct (first_mergeable tls fcs) as [Hnone|(pre & fc' & post & -> & Hpre & Hfc')].
  - by rewrite groupChains_none.
  - rewrite groupChains_first by done. simpl.
    destruct (decide (i = length pre)) as [->|Hne].
    + rewrite list_lookup_middle in Hi by done. simplify_eq.
      apply mergeable_spec in Hfc' as (? & _ & _ & Hn). congruence.
    + destruct (decide (i < length pre)%nat).
      * rewrite lookup_app_l in Hi |- * by done. done.
      * rewrite lookup_app_r in Hi |- * by lia.
        destruct (i - length pre)%nat as [|j] eqn:Hj; [lia|]. done.
Qed.

Lemma secureDownstreamTLS_is_Some (lvc : contour.ListenerVisitorConfig)
    (vh : dag.SecureVirtualHost) :
  is_Some (contour.secureDownstreamTLS lvc vh) ↔ is_Some (dag.Secret vh).
Proof.
  unfold contour.secureDownstreamTLS. destruct (dag.Secret vh); split; intros [? ?]; eauto; done.
Qed.

(** C4: visiting a secure virtual host returns a visitor whose secure
    listener holds the chains the grouping step gives (followed by the one
    fallback chain, if the host asks for it), and leaves every other listener
    alone. The grouping step first scans the chains of the secure listener. When the host is no raw-TCP host and some chain carries a TLS
    context equal to the host's (a comparison of the contexts, which hold no
    server names) and is itself no raw-TCP chain, the first such chain gets
    the host's name appended to its server names, re-sorted, and no chain is
    added for the host; otherwise the host's own chain is appended. A raw-TCP
    host always gets its own chain, and a raw-TCP chain is never changed. *)
Theorem C4_filter_chain_grouping (lvc : contour.ListenerVisitorConfig)
    (vh : dag.SecureVirtualHost) (fcs : list envoy.FilterChain) :
  let name := dag.VirtualHost_Name (dag.SVH_VirtualHost vh) in
  let tls := contour.secureDownstreamTLS lvc vh in
  let own := envoy.FilterChainTLS name tls (contour.secureFilters lvc vh) in
  (∀ v l, contour.config v = lvc →
          contour.listeners v !! contour.ENVOY_HTTPS_LISTENER = Some l →
          envoy.FilterChains l = fcs →
          ∃ v' l',
            contour.visit v (dag.VSecureVirtualHost vh) = Done v' ∧
            contour.listeners v' !! contour.ENVOY_HTTPS_LISTENER = Some l' ∧
            envoy.FilterChains l'
              = contour.appendFallback lvc vh (contour.groupOrAppend lvc vh fcs) ∧
            contour.groupOrAppend lvc vh fcs `prefix_of` envoy.FilterChains l' ∧
            (dag.FallbackCertificate vh = None →
             envoy.FilterChains l' = contour.groupOrAppend lvc vh fcs) ∧
            envoy.Listener_Name l' = envoy.Listener_Name l ∧
            (∀ k, k ≠ contour.ENVOY_HTTPS_LISTENER →
                  contour.listeners v' !! k = contour.listeners v !! k)) ∧
  (∀ fc, contour.mergeable tls fc = true ↔
         ∃ ctx, tls = Some ctx ∧ envoy.TransportSocket fc = Some ctx ∧
                contour.isTCPProxyFilter (envoy.FilterChain_Filters fc) = false) ∧
  (dag.SVH_TCPProxy vh = None →
   ∀ pre fc post,
     fcs = (pre ++ fc :: post)%list →
     Forall (fun fc' => contour.mergeable tls fc' = false) pre →
     contour.mergeable tls fc = true →
     contour.groupOrAppend lvc vh fcs
     = (pre ++ contour.addServerName fc name :: post)%list ∧
     envoy.ServerNames (envoy.FilterChainMatchOf (contour.addServerName fc name))
       ≡ₚ name :: envoy.ServerNames (envoy.FilterChainMatchOf fc) ∧
     ordered String.ltb
       (envoy.ServerNames (envoy.FilterChainMatchOf (contour.addServerName fc name))) ∧
     envoy.TransportSocket (contour.addServerName fc name) = envoy.TransportSocket fc ∧
     envoy.FilterChain_Filters (contour.addServerName fc name)
       = envoy.FilterChain_Filters fc) ∧
  (dag.SVH_TCPProxy vh = None →
   Exists (fun fc => contour.mergeable tls fc = true) fcs →
   length (contour.groupOrAppend lvc vh fcs) = length fcs) ∧
  (Forall (fun fc => contour.mergeable tls fc = false) fcs →
   contour.groupOrAppend lvc vh fcs = (fcs ++ [own])%list) ∧
  (is_Some (dag.SVH_TCPProxy vh) →
   contour.groupOrAppend lvc vh fcs = (fcs ++ [own])%list ∧
   contour.isTCPProxyFilter (envoy.FilterChain_Filters own) = true) ∧
  (∀ i fc, fcs !! i = Some fc →
           contour.isTCPProxyFilter (envoy.FilterChain_Filters fc) = true →
           contour.groupOrAppend lvc vh fcs !! i = Some fc).
Proof.
  intros name tls own. split_and!.
  - intros v l Hcfg Hl Hfcs. simpl. unfold contour.visitSecure. rewrite Hl, Hcfg, Hfcs.
    eexists _, _. split; [reflexivity|]. split; [apply lookup_insert_eq|]. split_and!.
    + done.
    + simpl. unfold contour.appendFallback.
      destruct (dag.FallbackCertificate vh) as [cert|]; [|done].
      destruct (envoy.ContainsFallbackFilterChain _); [done|]. by apply prefix_app_r.
    + intros Hfb. simpl. unfold contour.appendFallback. by rewrite Hfb.
    + done.
    + intros k Hk. simpl. by rewrite lookup_insert_ne.
  - intros fc. apply mergeable_spec.
  - intros Hhttp pre fc post -> Hpre Hfc. split_and!.
    + unfold contour.groupOrAppend. rewrite Hhttp.
      apply mergeable_spec in Hfc as Hfc'. destruct Hfc' as (ctx & Htls & _).
      assert (is_Some (dag.Secret vh)) as Hsec.
      { apply (secureDownstreamTLS_is_Some lvc). fold tls. rewrite Htls. eauto. }
      rewrite (bool_decide_eq_true_2 _ Hsec), bool_decide_eq_true_2 by done. simpl.
      fold tls name. by rewrite groupChains_first.
    + simpl. rewrite sort_Strings_perm. apply Permutation_app_comm.
    + simpl. apply sort_Strings_ordered.
    + done.
    + done.
  - intros Hhttp Hex.
    destruct (first_mergeable tls fcs) as [Hnone|(pre & fc & post & -> & Hpre & Hfc)].
    { apply Exists_exists in Hex as (fc & Hin & Hfc).
      rewrite Forall_forall in Hnone. rewrite (Hnone fc Hin) in Hfc. done. }
    unfold contour.groupOrAppend. rewrite Hhttp.
    apply mergeable_spec in Hfc as Hfc'. destruct Hfc' as (ctx & Htls & _).
    assert (is_Some (dag.Secret vh)) as Hsec.
    { apply (secureDownstreamTLS_is_Some lvc). fold tls. rewrite Htls. eauto. }
    rewrite (bool_decide_eq_true_2 _ Hsec), bool_decide_eq_true_2 by done. simpl.
    fold tls name. rewrite groupChains_first by done. simpl.
    rewrite !length_app. done.
  - intros Hnone. unfold contour.groupOrAppend. fold tls name.
    destruct (_ && _); simpl; [|done]. by rewrite groupChains_none.
  - intros [p Hp]. split.
    + unfold contour.groupOrAppend. rewrite Hp.
      rewrite bool_decide_eq_false_2 by done. done.
    + unfold own, contour.secureFilters. rewrite Hp. simpl.
      unfold envoy.TCPProxy. by destruct (dag.TCPProxy_Clusters p) as [|? [|? ?]].
  - intros i fc Hi Htcp. unfold contour.groupOrAppend. fold tls name.
    destruct (_ && _); simpl.
    + pose proof (groupChains_keeps_tcp tls name fcs i fc Hi Htcp) as Hk.
      destruct (contour.groupChains tls name fcs) as [fcs' []]; simpl in *; [done|].
      by apply lookup_app_l_Some.
    + by apply lookup_app_l_Some.
Qed.

Lemma elem_of_appendFallback (lvc : contour.ListenerVisitorConfig) (vh : dag.SecureVirtualHost)
    (fcs : list envoy.FilterChain) (fc : envoy.FilterChain) :
  fc ∈ fcs → fc ∈ contour.appendFallback lvc vh fcs.
Proof.
  intros Hin. unfold contour.appendFallback.
  destruct (dag.FallbackCertificate vh); [|done].
  destruct (envoy.ContainsFallbackFilterChain fcs); [done|].
  apply elem_of_app. by left.
Qed.

(** The chain that serves the host after the grouping step carries the
    host's TLS context. *)
Lemma groupOrAppend_serves (lvc : contour.ListenerVisitorConfig) (vh : dag.SecureVirtualHost)
    (fcs : list envoy.FilterChain) :
  ∃ fc, fc ∈ contour.groupOrAppend lvc vh fcs ∧
        dag.VirtualHost_Name (dag.SVH_VirtualHost vh)
          ∈ envoy.ServerNames (envoy.FilterChainMatchOf fc) ∧
        envoy.TransportSocket fc = contour.secureDownstreamTLS lvc vh.
Proof.
  set (name := dag.VirtualHost_Name (dag.SVH_VirtualHost vh)).
  set (tls := contour.secureDownstreamTLS lvc vh).
  assert (Hown : ∃ fc, fc ∈ (fcs ++ [envoy.FilterChainTLS name tls (contour.secureFilters lvc vh)])%list ∧
            name ∈ envoy.ServerNames (envoy.FilterChainMatchOf fc) ∧
            envoy.TransportSocket fc = tls).
  { eexists. split; [apply elem_of_app; right; apply list_elem_of_singleton; reflexivity|].
    simpl. split; [apply list_elem_of_singleton; reflexivity|done]. }
  unfold contour.groupOrAppend. fold name tls.
  destruct (_ && _); simpl; [|done].
  destruct (first_mergeable tls fcs) as [Hnone|(pre & fc & post & -> & Hpre & Hfc)].
  - by rewrite groupChains_none.
  - rewrite groupChains_first by done. simpl.
    exists (contour.addServerName fc name). split_and!.
    + apply elem_of_app. right. apply elem_of_cons. by left.
    + simpl. rewrite sort_Strings_perm. apply elem_of_app. right.
      apply list_elem_of_singleton. reflexivity.
    + simpl. apply mergeable_spec in Hfc as (ctx & -> & -> & _). done.
Qed.

(** C8: after a secure virtual host with a resolved Secret is visited, the
    chain that carries its server name has a TLS context whose minimum version
    is the larger of the configured floor (TLS 1.1 when none higher is
    configured) and the host's requested minimum, and whose maximum version is
    the host's value, or TLS 1.3 when that is unset (TLS_AUTO). *)
Theorem C8_tls_versions (v : contour.listenerVisitor) (l : envoy.Listener)
    (vh : dag.SecureVirtualHost) (secret : Opaque) :
  dag.Secret vh = Some secret →
  contour.listeners v !! contour.ENVOY_HTTPS_LISTENER = Some l →
  contour.minProtoVersion (contour.config v)
    = Z.max TLSv1_1 (contour.MinimumProtocolVersion (contour.config v)) ∧
  ∃ v' l' fc ctx,
    contour.visit v (dag.VSecureVirtualHost vh) = Done v' ∧
    contour.listeners v' !! contour.ENVOY_HTTPS_LISTENER = Some l' ∧
    fc ∈ envoy.FilterChains l' ∧
    dag.VirtualHost_Name (dag.SVH_VirtualHost vh)
      ∈ envoy.ServerNames (envoy.FilterChainMatchOf fc) ∧
    envoy.TransportSocket fc = Some ctx ∧
    envoy.tls_secret ctx = secret ∧
    envoy.tls_minimum ctx
      = Z.max (contour.minProtoVersion (contour.config v)) (dag.MinProtoVersion vh) ∧
    envoy.tls_maximum ctx
      = (if decide (dag.MaxProtoVersion vh = TLS_AUTO) then TLSv1_3
         else dag.MaxProtoVersion vh).
Proof.
  intros Hsec Hl. split.
  { unfold contour.minProtoVersion. destruct (Z.ltb_spec TLSv1_1
      (contour.MinimumProtocolVersion (contour.config v))); lia. }
  destruct (groupOrAppend_serves (contour.config v) vh (envoy.FilterChains l))
    as (fc & Hin & Hname & Htls).
  eexists _, _, fc, _. split_and!.
  - simpl. unfold contour.visitSecure. rewrite Hl. reflexivity.
  - simpl. apply lookup_insert_eq.
  - simpl. by apply elem_of_appendFallback.
  - done.
  - rewrite Htls. unfold contour.secureDownstreamTLS. rewrite Hsec. reflexivity.
  - done.
  - simpl. unfold contour.max.
    destruct (Z.ltb_spec (dag.MinProtoVersion vh) (contour.minProtoVersion (contour.config v))); lia.
  - simpl. unfold contour.maxProtoVersion.
    destruct (Z.eqb_spec (dag.MaxProtoVersion vh) TLS_AUTO); by case_decide.
Qed.

End visitor_facts.

(** C8 on a host that asks for TLS 1.3 as its minimum and leaves the maximum
    unset, under a configured floor of TLS 1.2. *)
Lemma C8_tls_versions_witness :
  ∃ v' l' fc ctx,
    contour.visit (demo.visitor []) (dag.VSecureVirtualHost
                     (demo.secureHost "a.example.com" "cert" TLSv1_3 TLS_AUTO)) = Done v' ∧
    contour.listeners v' !! contour.ENVOY_HTTPS_LISTENER = Some l' ∧
    fc ∈ envoy.FilterChains l' ∧
    "a.example.com" ∈ envoy.ServerNames (envoy.FilterChainMatchOf fc) ∧
    envoy.TransportSocket fc = Some ctx ∧
    envoy.tls_secret ctx = opaque "cert" ∧
    envoy.tls_minimum ctx = TLSv1_3 ∧
    envoy.tls_maximum ctx = TLSv1_3.
Proof.
  destruct (C8_tls_versions (demo.visitor []) (demo.httpsListener [])
              (demo.secureHost "a.example.com" "cert" TLSv1_3 TLS_AUTO) (opaque "cert")
              eq_refl eq_refl) as [_ Hserved].
  exact Hserved.
Defined.

(** The grouping example of the spec: two hosts with one secret share a chain
    with both names in order; a host with another secret gets a second
    chain. *)
Example grouping_example :
  demo.serverNamesOf
    (demo.chainsAfter [demo.secureHost "b.example.com" "s1" TLS_AUTO TLS_AUTO;
                       demo.secureHost "a.example.com" "s1" TLS_AUTO TLS_AUTO;
                       demo.secureHost "c.example.com" "s2" TLS_AUTO TLS_AUTO])
  = [["a.example.com"; "b.example.com"]; ["c.example.com"]].
Proof. vm_compute. reflexivity. Qed.

(** ** The graph builder: what a walk keeps, and that it ends *)

Section walk_facts.
Context `{dag.Deps}.

#[local] Instance keeps_refl : Reflexive dag.keeps.
Proof. intros b. split; eauto. Qed.

#[local] Instance keeps_trans : Transitive dag.keeps.
Proof.
  intros b1 b2 b3 [S1 F1 P1 R1] [S2 F2 P2 R2]. split.
  - congruence.
  - congruence.
  - by etrans.
  - intros h vh Hvh. destruct (R1 h vh Hvh) as (vh' & Hvh' & Hp).
    destruct (R2 h vh' Hvh') as (vh'' & Hvh'' & Hp'). exists vh''. split; [done|by etrans].
Qed.

#[local] Instance frames_refl host : Reflexive (dag.frames host).
Proof. intros b. by split. Qed.

#[local] Instance frames_trans host : Transitive (dag.frames host).
Proof.
  intros b1 b2 b3 [V1 S1] [V2 S2]. split; intros h Hh.
  - by rewrite V2, V1.
  - by rewrite S2, S1.
Qed.

Lemma keeps_commit (b : dag.Builder) (sw : dag.ObjectStatusWriter) :
  dag.keeps b (dag.commit b sw).
Proof. split; simpl; eauto. by apply prefix_app_r. Qed.

Lemma frames_commit host (b : dag.Builder) (sw : dag.ObjectStatusWriter) :
  dag.frames host b (dag.commit b sw).
Proof. by split. Qed.

Lemma keeps_unorphan (b : dag.Builder) (dest : dag.IngressRoute) :
  dag.keeps b (dag.unorphan b dest).
Proof. split; simpl; eauto. Qed.

Lemma frames_unorphan host (b : dag.Builder) (dest : dag.IngressRoute) :
  dag.frames host b (dag.unorphan b dest).
Proof. by split. Qed.

Lemma keeps_setOrphaned (b : dag.Builder) (ir : dag.IngressRoute) :
  dag.keeps b (dag.setOrphaned b ir).
Proof. split; simpl; eauto. Qed.

Lemma keeps_addRoutes (b : dag.Builder) (host : string) (r : dag.Route) (enforceTLS : bool) :
  dag.keeps b (dag.addRoutes b host r enforceTLS).
Proof.
  unfold dag.addRoutes. destruct enforceTLS; split; simpl; eauto.
  all: intros h vh Hvh; destruct (decide (h = host)) as [->|Hne].
  all: try (rewrite lookup_insert_ne by done; eauto).
  all: rewrite lookup_insert_eq; eexists; split; [done|].
  all: unfold dag.lookupVirtualHost; rewrite Hvh; simpl; by apply prefix_app_r.
Qed.

Lemma frames_addRoutes (b : dag.Builder) (host : string) (r : dag.Route) (enforceTLS : bool) :
  dag.frames host b (dag.addRoutes b host r enforceTLS).
Proof.
  unfold dag.addRoutes. destruct enforceTLS; split; simpl; intros h Hh.
  all: try done; by rewrite lookup_insert_ne.
Qed.

Lemma addRoutes_virtualhost (b : dag.Builder) (host : string) (r : dag.Route) (enforceTLS : bool) :
  dag.virtualhosts (dag.addRoutes b host r enforceTLS) !! host
  = Some (dag.addRoute (dag.lookupVirtualHost b host) r).
Proof. unfold dag.addRoutes. destruct enforceTLS; simpl; apply lookup_insert_eq. Qed.

Lemma keeps_setTCPProxy (b : dag.Builder) (host : string) (p : dag.TCPProxy) :
  dag.keeps b (dag.setTCPProxy b host p).
Proof. split; simpl; eauto. Qed.

Lemma frames_setTCPProxy (b : dag.Builder) (host : string) (p : dag.TCPProxy) :
  dag.frames host b (dag.setTCPProxy b host p).
Proof. split; simpl; intros h Hh; [done|]. by rewrite lookup_insert_ne. Qed.

(** *** The visited path *)

Lemma onPath_spec (dest : dag.IngressRoute) (visited : list dag.IngressRoute) :
  dag.onPath dest visited = true ↔ dag.fullName dest ∈ dag.fullName <$> visited.
Proof.
  unfold dag.onPath. rewrite existsb_exists, list_elem_of_fmap.
  split.
  - intros (vir & Hin & Heq). apply andb_true_iff in Heq as [Hn Hns].
    apply String.eqb_eq in Hn, Hns. exists vir. split.
    + unfold dag.fullName. by rewrite Hn, Hns.
    + by apply list_elem_of_In.
  - intros (vir & Heq & Hin). exists vir. split; [by apply list_elem_of_In|].
    unfold dag.fullName in Heq. simplify_eq.
    apply andb_true_iff. split; by apply String.eqb_eq.
Qed.

Lemma elem_of_keysOf (m : gmap FullName dag.IngressRoute) (k : FullName) (ir : dag.IngressRoute) :
  m !! k = Some ir → dag.fullName ir ∈ dag.keysOf m.
Proof.
  intros Hk. unfold dag.keysOf. apply elem_of_list_to_set, list_elem_of_fmap.
  exists ir. split; [done|]. apply list_elem_of_fmap. exists (k, ir). split; [done|].
  by apply elem_of_map_to_list.
Qed.

Lemma size_list_to_set_le (l : list FullName) :
  (size (list_to_set l : gset FullName) ≤ length l)%nat.
Proof.
  induction l as [|x l IH].
  - rewrite list_to_set_nil, size_empty. simpl. lia.
  - rewrite list_to_set_cons, size_union_alt, size_singleton. simpl.
    assert (size (list_to_set l ∖ {[x]} : gset FullName)
            ≤ size (list_to_set l : gset FullName))%nat
      by (apply subseteq_size; set_solver).
    lia.
Qed.

Lemma remaining_le_size (m : gmap FullName dag.IngressRoute) (visited : list dag.IngressRoute) :
  (dag.remaining m visited ≤ size m)%nat.
Proof.
  unfold dag.remaining. trans (size (dag.keysOf m)); [apply subseteq_size; set_solver|].
  unfold dag.keysOf. etrans; [apply size_list_to_set_le|].
  by rewrite !length_fmap, length_map_to_list.
Qed.

Lemma remaining_decreases (m : gmap FullName dag.IngressRoute) (k : FullName)
    (dest : dag.IngressRoute) (visited : list dag.IngressRoute) :
  m !! k = Some dest → dag.onPath dest visited = false →
  (dag.remaining m (visited ++ [dest]) < dag.remaining m visited)%nat.
Proof.
  intros Hk Hpath. unfold dag.remaining. apply subset_size.
  pose proof (elem_of_keysOf m k dest Hk) as Hin.
  assert (dag.fullName dest ∉ dag.fullName <$> visited) as Hnot.
  { intros Hc. apply onPath_spec in Hc. congruence. }
  assert (dag.fullName dest ∉ (list_to_set (dag.fullName <$> visited) : gset FullName))
    as Hnot' by (by rewrite elem_of_list_to_set).
  rewrite fmap_app, list_to_set_app_L.
  generalize dependent (dag.keysOf m). intros X Hin.
  generalize dependent (list_to_set (dag.fullName <$> visited) : gset FullName).
  intros Y HY.
  assert (list_to_set (dag.fullName <$> [dest]) = ({[dag.fullName dest]} : gset FullName))
    as -> by (simpl; apply (right_id_L _ _)).
  clear Hk Hpath Hnot.
  split; [set_solver|]. intros Hsub. specialize (Hsub (dag.fullName dest)).
  set_solver.
Qed.

(** *** The route walk returns *)

Lemma routesLoop_walked
    (recurse : dag.Builder → dag.ObjectStatusWriter → dag.IngressRoute → string →
               run (dag.Builder * dag.ObjectStatusWriter))
    (ir : dag.IngressRoute) (prefixMatch : string) (visited : list dag.IngressRoute)
    (host : string) (enforceTLS : bool) (m : gmap FullName dag.IngressRoute) :
  (∀ b sw k dest prefix',
     dag.ingressroutes b = m → m !! k = Some dest → dag.onPath dest visited = false →
     dag.walked host b sw (recurse b sw dest prefix')) →
  ∀ rts b sw, dag.ingressroutes b = m →
    dag.walked host b sw (dag.routesLoop recurse ir prefixMatch visited host enforceTLS rts b sw).
Proof.
  intros Hrec. induction rts as [|route rest IH]; intros b sw Hm; simpl.
  { eexists _, _. split; [done|]. split_and!; try done; by eexists. }
  destruct (nonempty (dag.Services route) && _).
  { eexists _, _. split; [done|]. split_and!; try done; by eexists. }
  destruct (nonempty (dag.Services route)).
  { destruct (dag.buildRoute b ir route prefixMatch enforceTLS) as [r|msg].
    - assert (dag.ingressroutes (dag.addRoutes b host r enforceTLS) = m) as Hm'.
      { rewrite <- Hm. apply keeps_addRoutes. }
      destruct (IH (dag.addRoutes b host r enforceTLS) sw Hm') as (b' & sw' & -> & K & F & ?).
      eexists _, _. split; [done|]. split_and!; try tauto.
      + etrans; [apply keeps_addRoutes|done].
      + etrans; [apply frames_addRoutes|done].
    - eexists _, _. split; [done|]. split_and!; try done; by eexists. }
  destruct (dag.Route_Delegate route) as [d|]; [|by apply IH].
  destruct (dag.ingressroutes b !! _) as [dest|] eqn:Hd; [|by apply IH].
  destruct (dag.onPath dest visited) eqn:Hp.
  { eexists _, _. split; [done|].
    split_and!; eauto using keeps_unorphan, frames_unorphan. }
  rewrite Hm in Hd.
  destruct (Hrec (dag.unorphan b dest) (dag.WithObject dest) _ dest (dag.Match route)
              Hm Hd Hp) as (b2 & swd & -> & K2 & F2 & _).
  assert (dag.ingressroutes (dag.commit b2 swd) = m) as Hm'.
  { simpl. rewrite <- Hm. apply K2. }
  destruct (IH (dag.commit b2 swd) sw Hm') as (b' & sw' & -> & K & F & ?).
  eexists _, _. split; [done|]. split_and!; try tauto.
  - etrans; [apply keeps_unorphan|]. etrans; [exact K2|]. etrans; [apply keeps_commit|done].
  - etrans; [apply frames_unorphan|]. etrans; [exact F2|]. etrans; [apply frames_commit|done].
Qed.

Lemma processIngressRoutes_walked (m : gmap FullName dag.IngressRoute) (fuel : nat) :
  ∀ b sw ir prefixMatch visited host enforceTLS,
    dag.ingressroutes b = m →
    (dag.remaining m (visited ++ [ir]) < fuel)%nat →
    dag.walked host b sw
      (dag.processIngressRoutes fuel b sw ir prefixMatch visited host enforceTLS).
Proof.
  induction fuel as [|fuel IH]; intros b sw ir prefixMatch visited host enforceTLS Hm Hfuel.
  { lia. }
  simpl. apply (routesLoop_walked _ _ _ _ _ _ m); [|done].
  intros b0 sw0 k dest prefix' Hm0 Hk Hpath. apply IH; [done|].
  pose proof (remaining_decreases m k dest _ Hk Hpath). lia.
Qed.

(** *** The tcpproxy walk ends; when it returns, it keeps *)

Lemma processIngressRouteTCPProxy_ends (m : gmap FullName dag.IngressRoute) (fuel : nat) :
  ∀ b sw ir visited host,
    dag.ingressroutes b = m →
    (dag.remaining m (visited ++ [ir]) < fuel)%nat →
    match dag.processIngressRouteTCPProxy fuel b sw ir visited host with
    | Done (b', sw') => dag.keeps b b' ∧ dag.frames host b b'
    | Panics => True
    | OutOfFuel => False
    end.
Proof.
  induction fuel as [|fuel IH]; intros b sw ir visited host Hm Hfuel.
  { lia. }
  simpl. destruct (dag.Spec_TCPProxy ir) as [tcpproxy|]; [|done].
  destruct (nonempty (dag.TCPProxy_Services tcpproxy) && _); [done|].
  destruct (nonempty (dag.TCPProxy_Services tcpproxy)).
  { destruct (mapM _ _); [|done]. split; [apply keeps_setTCPProxy|apply frames_setTCPProxy]. }
  destruct (dag.TCPProxy_Delegate tcpproxy) as [d|]; [|done].
  destruct (dag.ingressroutes b !! _) as [dest|] eqn:Hd; [|done].
  destruct (dag.onPath dest (visited ++ [ir])) eqn:Hp.
  { split; [apply keeps_unorphan|apply frames_unorphan]. }
  rewrite Hm in Hd.
  pose proof (remaining_decreases m _ dest _ Hd Hp) as Hdec.
  specialize (IH (dag.unorphan b dest) (dag.WithObject_from sw dest) dest
                 (visited ++ [ir])%list host Hm ltac:(lia)).
  destruct (dag.processIngressRouteTCPProxy fuel _ _ dest _ host) as [[b2 swd]| |]; [|done|done].
  destruct IH as [K F]. split.
  - etrans; [apply keeps_unorphan|]. etrans; [exact K|apply keeps_commit].
  - etrans; [apply frames_unorphan|]. etrans; [exact F|apply frames_commit].
Qed.

(** *** A root, and all roots *)

Ltac root_simpl :=
  cbn -[dag.processIngressRoutes dag.processIngressRouteTCPProxy dag.walkFuel].

Lemma virtualHostTLS_keeps (b b1 : dag.Builder) (ir : dag.IngressRoute) (vh : dag.VirtualHostIn)
    (enforceTLS passthrough : bool) :
  dag.virtualHostTLS b ir vh = Ok (b1, enforceTLS, passthrough) →
  dag.keeps b b1 ∧ dag.frames (dag.Fqdn vh) b b1.
Proof.
  unfold dag.virtualHostTLS. intros Htls.
  destruct (dag.VirtualHost_TLS vh) as [tls|]; [|by simplify_eq].
  destruct (String.eqb (dag.SecretName tls) "" && dag.Passthrough tls); [by simplify_eq|].
  destruct (dag.lookupSecret _) as [sec|e]; [|done].
  destruct (negb _); [done|]. simplify_eq. split.
  - split; simpl; eauto.
  - split; simpl; intros h Hh; [done|]. by rewrite lookup_insert_ne.
Qed.

Lemma walkFuel_enough (b b' : dag.Builder) (visited : list dag.IngressRoute) :
  dag.ingressroutes b' = dag.ingressroutes b →
  (dag.remaining (dag.ingressroutes b') visited < dag.walkFuel b)%nat.
Proof.
  intros ->. unfold dag.walkFuel. pose proof (remaining_le_size (dag.ingressroutes b) visited). lia.
Qed.

(** [computeIngressRoute] ends; when it returns, it kept what was built and
    touched no virtual host other than the root's own. *)
Lemma computeIngressRoute_ends (b : dag.Builder) (ir : dag.IngressRoute) :
  match dag.computeIngressRoute b ir with
  | Done b' =>
      dag.keeps b b' ∧
      ∀ h, dag.Fqdn <$> dag.Spec_VirtualHost ir ≠ Some h →
           dag.virtualhosts b' !! h = dag.virtualhosts b !! h ∧
           dag.securevirtualhosts b' !! h = dag.securevirtualhosts b !! h
  | Panics => True
  | OutOfFuel => False
  end.
Proof.
  unfold dag.computeIngressRoute.
  destruct (dag.Spec_VirtualHost ir) as [vh|]; root_simpl.
  2: { split; [|done]. etrans; [apply keeps_setOrphaned|apply keeps_commit]. }
  destruct (negb (dag.rootAllowed _)); [split; [apply keeps_commit|done]|].
  destruct (dag.isBlank _); [split; [apply keeps_commit|done]|].
  destruct (dag.virtualHostTLS b ir vh) as [[[b1 enforceTLS] passthrough]|msg] eqn:Htls.
  2: { split; [apply keeps_commit|done]. }
  apply virtualHostTLS_keeps in Htls as [K1 F1].
  set (sw := dag.WithValue_vhost (dag.WithObject ir) (dag.Fqdn vh)).
  assert (Htcp : match (if bool_decide (is_Some (dag.Spec_TCPProxy ir)) &&
                           (passthrough || enforceTLS)
                        then dag.processIngressRouteTCPProxy (dag.walkFuel b) b1 sw ir []
                               (dag.Fqdn vh)
                        else Done (b1, sw)) with
                 | Done (b2, sw2) => dag.keeps b1 b2 ∧ dag.frames (dag.Fqdn vh) b1 b2
                 | Panics => True
                 | OutOfFuel => False
                 end).
  { destruct (_ && _); [|done].
    apply (processIngressRouteTCPProxy_ends (dag.ingressroutes b1)); [done|].
    apply walkFuel_enough, K1. }
  destruct (if _ && _ then _ else _) as [[b2 sw2]| |]; root_simpl; [|done|done].
  destruct Htcp as [K2 F2].
  destruct (processIngressRoutes_walked (dag.ingressroutes b2) (dag.walkFuel b) b2 sw2 ir ""
              [] (dag.Fqdn vh) (bool_decide (dag.Spec_TCPProxy ir = None) && enforceTLS))
    as (b3 & sw3 & -> & K3 & F3 & _); [done| |].
  { apply walkFuel_enough. rewrite (dag.keeps_source _ _ K2). apply K1. }
  root_simpl. split.
  - etrans; [exact K1|]. etrans; [exact K2|]. etrans; [exact K3|apply keeps_commit].
  - intros h Hh. assert (h ≠ dag.Fqdn vh) as Hne by congruence.
    split; simpl.
    + by rewrite (dag.frames_virtualhosts _ _ _ F3), (dag.frames_virtualhosts _ _ _ F2),
        (dag.frames_virtualhosts _ _ _ F1).
    + by rewrite (dag.frames_securevirtualhosts _ _ _ F3),
        (dag.frames_securevirtualhosts _ _ _ F2), (dag.frames_securevirtualhosts _ _ _ F1).
Qed.

Lemma computeAll_cons (b : dag.Builder) (ir : dag.IngressRoute) (irs : list dag.IngressRoute) :
  dag.computeAll (ir :: irs) b
  = match dag.computeIngressRoute b ir with
    | Done b' => dag.computeAll irs b'
    | Panics => Panics
    | OutOfFuel => OutOfFuel
    end.
Proof.
  unfold dag.computeAll. simpl.
  destruct (dag.computeIngressRoute b ir); [done| |]; by induction irs.
Qed.

Lemma computeAll_app (b : dag.Builder) (pre post : list dag.IngressRoute) :
  dag.computeAll (pre ++ post) b
  = match dag.computeAll pre b with
    | Done b' => dag.computeAll post b'
    | Panics => Panics
    | OutOfFuel => OutOfFuel
    end.
Proof.
  revert b. induction pre as [|ir pre IH]; intros b; [done|]. simpl.
  rewrite !computeAll_cons. destruct (dag.computeIngressRoute b ir); [apply IH|done|done].
Qed.

Lemma computeAll_ends (irs : list dag.IngressRoute) (b : dag.Builder) :
  match dag.computeAll irs b with
  | Done b' =>
      dag.keeps b b' ∧
      ∀ h, Forall (fun ir => dag.Fqdn <$> dag.Spec_VirtualHost ir ≠ Some h) irs →
           dag.virtualhosts b' !! h = dag.virtualhosts b !! h ∧
           dag.securevirtualhosts b' !! h = dag.securevirtualhosts b !! h
  | Panics => True
  | OutOfFuel => False
  end.
Proof.
  revert b. induction irs as [|ir irs IH]; intros b.
  { split; [reflexivity|done]. }
  rewrite computeAll_cons. pose proof (computeIngressRoute_ends b ir) as Hir.
  destruct (dag.computeIngressRoute b ir) as [b1| |]; [|done|done].
  destruct Hir as [K1 F1]. specialize (IH b1).
  destruct (dag.computeAll irs b1) as [b2| |]; [|done|done].
  destruct IH as [K2 F2]. split; [by etrans|].
  intros h Hall. apply Forall_cons in Hall as [Hir Hirs].
  destruct (F1 h Hir) as [E1 E2]. destruct (F2 h Hirs) as [E3 E4]. split; congruence.
Qed.

(** *** The edge that closes a cycle, and the edge that does not *)

Lemma routesLoop_cycle
    (recurse : dag.Builder → dag.ObjectStatusWriter → dag.IngressRoute → string →
               run (dag.Builder * dag.ObjectStatusWriter))
    (ir : dag.IngressRoute) (prefixMatch : string) (visited : list dag.IngressRoute)
    (host : string) (enforceTLS : bool) (route : dag.RouteIn) (rest : list dag.RouteIn)
    (b : dag.Builder) (sw : dag.ObjectStatusWriter) (d : dag.Delegate) (dest : dag.IngressRoute) :
  dag.Services route = [] →
  dag.Route_Delegate route = Some d →
  dag.ingressroutes b !! (dag.delegateNamespace d ir, dag.Delegate_Name d) = Some dest →
  dag.onPath dest visited = true →
  dag.routesLoop recurse ir prefixMatch visited host enforceTLS (route :: rest) b sw
  = Done (dag.unorphan b dest, dag.SetInvalid sw (dag.routeCycleMessage visited dest)).
Proof. intros Hs Hd Hk Hp. simpl. by rewrite Hs, Hd, Hk, Hp. Qed.

Lemma routesLoop_follow
    (recurse : dag.Builder → dag.ObjectStatusWriter → dag.IngressRoute → string →
               run (dag.Builder * dag.ObjectStatusWriter))
    (ir : dag.IngressRoute) (prefixMatch : string) (visited : list dag.IngressRoute)
    (host : string) (enforceTLS : bool) (route : dag.RouteIn) (rest : list dag.RouteIn)
    (b : dag.Builder) (sw : dag.ObjectStatusWriter) (d : dag.Delegate) (dest : dag.IngressRoute) :
  dag.Services route = [] →
  dag.Route_Delegate route = Some d →
  dag.ingressroutes b !! (dag.delegateNamespace d ir, dag.Delegate_Name d) = Some dest →
  dag.onPath dest visited = false →
  dag.routesLoop recurse ir prefixMatch visited host enforceTLS (route :: rest) b sw
  = match recurse (dag.unorphan b dest) (dag.WithObject dest) dest (dag.Match route) with
    | Done (b2, swd) =>
        dag.routesLoop recurse ir prefixMatch visited host enforceTLS rest
          (dag.commit b2 swd) sw
    | Panics => Panics
    | OutOfFuel => OutOfFuel
    end.
Proof. intros Hs Hd Hk Hp. simpl. by rewrite Hs, Hd, Hk, Hp. Qed.

Lemma cyclePath_mentions (visited : list dag.IngressRoute) (dest : dag.IngressRoute) :
  Forall (fun vir => dag.slashName vir ∈ dag.cyclePath visited dest) (visited ++ [dest]).
Proof.
  apply Forall_forall. intros vir Hin. unfold dag.cyclePath.
  change [dag.slashName dest] with (dag.slashName <$> [dest]).
  rewrite <- fmap_app. apply list_elem_of_fmap. eauto.
Qed.

(** *** Root-to-root delegation *)

Lemma onPath_asDelegate (dest : dag.IngressRoute) (visited : list dag.IngressRoute) :
  dag.onPath (dag.asDelegate dest) (dag.asDelegate <$> visited) = dag.onPath dest visited.
Proof.
  unfold dag.onPath. induction visited as [|v visited IH]; [done|].
  rewrite fmap_cons. simpl in *. by rewrite IH.
Qed.

Lemma routeCycleMessage_asDelegate (dest : dag.IngressRoute) (visited : list dag.IngressRoute) :
  dag.routeCycleMessage (dag.asDelegate <$> visited) (dag.asDelegate dest)
  = dag.routeCycleMessage visited dest.
Proof.
  unfold dag.routeCycleMessage, dag.cyclePath. do 3 f_equal.
  rewrite <- list_fmap_compose. done.
Qed.

Lemma addRoutes_asDelegates (b : dag.Builder) (host : string) (r : dag.Route) (enforceTLS : bool) :
  dag.addRoutes (dag.asDelegates b) host r enforceTLS
  = dag.asDelegates (dag.addRoutes b host r enforceTLS).
Proof. unfold dag.addRoutes. by destruct enforceTLS. Qed.

Lemma routesLoop_asDelegates
    (recurse recurse' : dag.Builder → dag.ObjectStatusWriter → dag.IngressRoute → string →
                        run (dag.Builder * dag.ObjectStatusWriter))
    (ir : dag.IngressRoute) (prefixMatch : string) (visited : list dag.IngressRoute)
    (host : string) (enforceTLS : bool) :
  (∀ b sw dest prefix',
     recurse' (dag.asDelegates b) sw (dag.asDelegate dest) prefix'
     = (fun st => (dag.asDelegates st.1, st.2)) <$> recurse b sw dest prefix') →
  ∀ rts b sw,
    dag.routesLoop recurse' (dag.asDelegate ir) prefixMatch (dag.asDelegate <$> visited)
      host enforceTLS rts (dag.asDelegates b) sw
    = (fun st => (dag.asDelegates st.1, st.2))
        <$> dag.routesLoop recurse ir prefixMatch visited host enforceTLS rts b sw.
Proof.
  intros Hrec. induction rts as [|route rest IH]; intros b sw; simpl; [done|].
  destruct (nonempty (dag.Services route) && _); [done|].
  destruct (nonempty (dag.Services route)).
  { change (dag.buildRoute (dag.asDelegates b) (dag.asDelegate ir) route prefixMatch enforceTLS)
      with (dag.buildRoute b ir route prefixMatch enforceTLS).
    destruct (dag.buildRoute b ir route prefixMatch enforceTLS) as [r|msg]; [|done].
    rewrite addRoutes_asDelegates. apply IH. }
  destruct (dag.Route_Delegate route) as [d|]; [|apply IH].
  change (dag.delegateNamespace d (dag.asDelegate ir)) with (dag.delegateNamespace d ir).
  rewrite lookup_fmap.
  destruct (dag.ingressroutes b !! _) as [dest|]; simpl; [|apply IH].
  rewrite onPath_asDelegate, routeCycleMessage_asDelegate.
  destruct (dag.onPath dest visited); [done|].
  change (dag.WithObject (dag.asDelegate dest)) with (dag.WithObject dest).
  change (dag.unorphan (dag.asDelegates b) (dag.asDelegate dest))
    with (dag.asDelegates (dag.unorphan b dest)).
  rewrite Hrec.
  destruct (recurse (dag.unorphan b dest) (dag.WithObject dest) dest (dag.Match route))
    as [[b2 swd]| |]; simpl; [|done|done].
  apply (IH (dag.commit b2 swd)).
Qed.

Lemma processIngressRoutes_S (fuel : nat) (b : dag.Builder) (sw : dag.ObjectStatusWriter)
    (ir : dag.IngressRoute) (prefixMatch : string) (visited : list dag.IngressRoute)
    (host : string) (enforceTLS : bool) :
  dag.processIngressRoutes (S fuel) b sw ir prefixMatch visited host enforceTLS
  = dag.routesLoop
      (fun b' sw' dest prefix' =>
         dag.processIngressRoutes fuel b' sw' dest prefix' (visited ++ [ir]) host enforceTLS)
      ir prefixMatch (visited ++ [ir]) host enforceTLS (dag.Spec_Routes ir) b sw.
Proof. reflexivity. Qed.

Lemma processIngressRoutes_asDelegates (fuel : nat) :
  ∀ b sw ir prefixMatch visited host enforceTLS,
    dag.processIngressRoutes fuel (dag.asDelegates b) sw (dag.asDelegate ir) prefixMatch
      (dag.asDelegate <$> visited) host enforceTLS
    = (fun st => (dag.asDelegates st.1, st.2))
        <$> dag.processIngressRoutes fuel b sw ir prefixMatch visited host enforceTLS.
Proof.
  induction fuel as [|fuel IH]; intros b sw ir prefixMatch visited host enforceTLS; [done|].
  rewrite !processIngressRoutes_S.
  replace ((dag.asDelegate <$> visited) ++ [dag.asDelegate ir])%list
    with (dag.asDelegate <$> (visited ++ [ir])%list) by (by rewrite fmap_app).
  apply (routesLoop_asDelegates _ _ ir). intros b0 sw0 dest prefix'. apply IH.
Qed.

(** C9: a delegation edge whose target exists is followed whatever the
    target's own virtual-host declaration: the target leaves the orphaned
    set, the visited path is checked, and the walk goes into the target's
    route entries under the same host and TLS setting, continuing afterwards
    with the entries that remain. The walk never reads a virtual-host
    declaration: on a snapshot where every object has lost its own, it does
    the same. *)
Theorem C9_root_to_root_delegation (fuel : nat) (b : dag.Builder) (sw : dag.ObjectStatusWriter)
    (ir : dag.IngressRoute) (prefixMatch : string) (visited : list dag.IngressRoute)
    (host : string) (enforceTLS : bool) :
  (∀ route rest d dest vh,
     dag.Spec_Routes ir = route :: rest →
     dag.Services route = [] →
     dag.Route_Delegate route = Some d →
     dag.ingressroutes b !! (dag.delegateNamespace d ir, dag.Delegate_Name d) = Some dest →
     dag.Spec_VirtualHost dest = Some vh →
     dag.onPath dest (visited ++ [ir]) = false →
     dag.processIngressRoutes (S fuel) b sw ir prefixMatch visited host enforceTLS
     = match dag.processIngressRoutes fuel (dag.unorphan b dest) (dag.WithObject dest) dest
               (dag.Match route) (visited ++ [ir]) host enforceTLS with
       | Done (b2, swd) =>
           dag.routesLoop
             (fun b' sw' dest' prefix' =>
                dag.processIngressRoutes fuel b' sw' dest' prefix' (visited ++ [ir]) host
                  enforceTLS)
             ir prefixMatch (visited ++ [ir]) host enforceTLS rest (dag.commit b2 swd) sw
       | Panics => Panics
       | OutOfFuel => OutOfFuel
       end) ∧
  (∀ dest, dag.fullName dest ∉ dag.orphaned (dag.unorphan b dest)) ∧
  dag.processIngressRoutes fuel (dag.asDelegates b) sw (dag.asDelegate ir) prefixMatch
    (dag.asDelegate <$> visited) host enforceTLS
  = (fun st => (dag.asDelegates st.1, st.2))
      <$> dag.processIngressRoutes fuel b sw ir prefixMatch visited host enforceTLS.
Proof.
  split_and!.
  - intros route rest d dest vh Hrts Hs Hd Hk _ Hp.
    rewrite processIngressRoutes_S, Hrts.
    by rewrite (routesLoop_follow _ _ _ _ _ _ _ _ _ _ d dest Hs Hd Hk Hp).
  - intros dest. simpl. set_solver.
  - apply processIngressRoutes_asDelegates.
Qed.

(** C1, as the code has it: when the route loop of a resource reaches a
    delegation edge whose target is on the visited path, the writer of that
    resource is set Invalid with the names of the whole path followed by the
    repeated target, and the loop returns there: the route entries that
    remain on the same resource are not processed. When the target is not on
    the path, the walk goes into it and, once it has returned (a cycle found
    further down included), the loop goes on with the entries that remain. *)
Theorem C1_cycle_edge_ends_the_resource
    (recurse : dag.Builder → dag.ObjectStatusWriter → dag.IngressRoute → string →
               run (dag.Builder * dag.ObjectStatusWriter))
    (ir : dag.IngressRoute) (prefixMatch : string) (visited : list dag.IngressRoute)
    (host : string) (enforceTLS : bool) (route : dag.RouteIn) (rest : list dag.RouteIn)
    (b : dag.Builder) (sw : dag.ObjectStatusWriter) (d : dag.Delegate) (dest : dag.IngressRoute) :
  dag.Services route = [] →
  dag.Route_Delegate route = Some d →
  dag.ingressroutes b !! (dag.delegateNamespace d ir, dag.Delegate_Name d) = Some dest →
  (dag.onPath dest visited = true ↔ dag.fullName dest ∈ dag.fullName <$> visited) ∧
  (dag.onPath dest visited = true →
   dag.routesLoop recurse ir prefixMatch visited host enforceTLS (route :: rest) b sw
   = Done (dag.unorphan b dest,
           dag.SetInvalid sw
             ("route creates a delegation cycle: " +:+
              strings_Join ((dag.slashName <$> visited) ++ [dag.slashName dest]) " -> "))) ∧
  (dag.onPath dest visited = false →
   dag.routesLoop recurse ir prefixMatch visited host enforceTLS (route :: rest) b sw
   = match recurse (dag.unorphan b dest) (dag.WithObject dest) dest (dag.Match route) with
     | Done (b2, swd) =>
         dag.routesLoop recurse ir prefixMatch visited host enforceTLS rest
           (dag.commit b2 swd) sw
     | Panics => Panics
     | OutOfFuel => OutOfFuel
     end) ∧
  (∀ fuel b0 sw0 ir0 prefix0 visited0,
     dag.processIngressRoutes (S fuel) b0 sw0 ir0 prefix0 visited0 host enforceTLS
     = dag.routesLoop
         (fun b' sw' dest' prefix' =>
            dag.processIngressRoutes fuel b' sw' dest' prefix' (visited0 ++ [ir0]) host
              enforceTLS)
         ir0 prefix0 (visited0 ++ [ir0]) host enforceTLS (dag.Spec_Routes ir0) b0 sw0).
Proof.
  intros Hs Hd Hk. split_and!.
  - apply onPath_spec.
  - intros Hp. by apply (routesLoop_cycle _ _ _ _ _ _ _ _ _ _ d dest).
  - intros Hp. by apply (routesLoop_follow _ _ _ _ _ _ _ _ _ _ d dest).
  - intros. apply processIngressRoutes_S.
Qed.

Lemma mapM_Err {A B : Type} (f : A → result B) (l : list A) (x : A) (msg : string) :
  x ∈ l → f x = Err msg → ∃ msg', mapM f l = Err msg'.
Proof.
  intros Hin Hx. induction l as [|y l IH]; [by apply elem_of_nil in Hin|].
  simpl. apply elem_of_cons in Hin as [->|Hin].
  - rewrite Hx. by eexists.
  - destruct (f y) as [c|e]; simpl; [|by eexists].
    destruct (IH Hin) as [msg' ->]. by eexists.
Qed.


(** *** A terminal route entry *)

Lemma routesLoop_terminal
    (recurse : dag.Builder → dag.ObjectStatusWriter → dag.IngressRoute → string →
               run (dag.Builder * dag.ObjectStatusWriter))
    (ir : dag.IngressRoute) (prefixMatch : string) (visited : list dag.IngressRoute)
    (host : string) (enforceTLS : bool) (route : dag.RouteIn) (rest : list dag.RouteIn)
    (b : dag.Builder) (sw : dag.ObjectStatusWriter) :
  nonempty (dag.Services route) = true →
  match dag.buildRoute b ir route prefixMatch enforceTLS with
  | Ok r =>
      dag.Route_Delegate route = None →
      dag.routesLoop recurse ir prefixMatch visited host enforceTLS (route :: rest) b sw
      = dag.routesLoop recurse ir prefixMatch visited host enforceTLS rest
          (dag.addRoutes b host r enforceTLS) sw
  | Err _ =>
      ∃ msg, dag.routesLoop recurse ir prefixMatch visited host enforceTLS (route :: rest) b sw
             = Done (b, dag.SetInvalid sw msg)
  end.
Proof.
  intros Hsv. cbn [dag.routesLoop]. rewrite Hsv. cbn [andb].
  destruct (dag.buildRoute _ _ _ _ _) as [r|msg] eqn:Hr.
  - intros ->. rewrite bool_decide_eq_false_2 by (by intros [? ?]). done.
  - destruct (dag.Route_Delegate route).
    + rewrite bool_decide_eq_true_2 by eauto. by eexists.
    + rewrite bool_decide_eq_false_2 by (by intros [? ?]). by eexists.
Qed.

(** *** Wildcard FQDNs *)

(** A TLS block that resolves gives the walk its two flags. *)
Lemma virtualHostTLS_resolves (b : dag.Builder) (ir : dag.IngressRoute) (vh : dag.VirtualHostIn) :
  dag.tlsResolves ir vh →
  ∃ b1, dag.virtualHostTLS b ir vh = Ok (b1, dag.terminatesTLS vh, dag.passesThrough vh).
Proof.
  unfold dag.tlsResolves, dag.virtualHostTLS, dag.terminatesTLS, dag.passesThrough.
  intros Hres. destruct (dag.VirtualHost_TLS vh) as [tls|]; [|by eexists].
  destruct (String.eqb (dag.SecretName tls) "" && dag.Passthrough tls); [by eexists|].
  destruct (Hres tls eq_refl eq_refl) as [[sec ->] ->]. by eexists.
Qed.

Lemma buildRoute_flag (b b' : dag.Builder) (ir : dag.IngressRoute) (route : dag.RouteIn)
    (prefixMatch : string) (enforceTLS : bool) :
  dag.DisablePermitInsecure b' = dag.DisablePermitInsecure b →
  dag.buildRoute b' ir route prefixMatch enforceTLS
  = dag.buildRoute b ir route prefixMatch enforceTLS.
Proof. intros Hflag. unfold dag.buildRoute. by rewrite Hflag. Qed.

(** The tcpproxy walk hands back the writer it was given, with or without
    an outcome set. *)
Lemma processIngressRouteTCPProxy_writer (fuel : nat) :
  ∀ b sw ir visited host b' sw',
    dag.processIngressRouteTCPProxy fuel b sw ir visited host = Done (b', sw') →
    dag.osw_obj sw' = dag.osw_obj sw ∧ dag.osw_vhost sw' = dag.osw_vhost sw.
Proof.
  destruct fuel as [|fuel]; intros b sw ir visited host b' sw'; [done|].
  cbn [dag.processIngressRouteTCPProxy].
  destruct (dag.Spec_TCPProxy ir) as [tcpproxy|]; [|done].
  destruct (nonempty (dag.TCPProxy_Services tcpproxy) && _); [by intros [= <- <-]|].
  destruct (nonempty (dag.TCPProxy_Services tcpproxy)).
  { destruct (mapM _ _); by intros [= <- <-]. }
  destruct (dag.TCPProxy_Delegate tcpproxy) as [d|]; [|by intros [= <- <-]].
  destruct (dag.ingressroutes b !! _) as [dest|]; [|by intros [= <- <-]].
  destruct (dag.onPath dest _); [by intros [= <- <-]|].
  destruct (dag.processIngressRouteTCPProxy fuel _ _ dest _ host) as [[b2 swd]| |];
    [|done|done].
  by intros [= <- <-].
Qed.

(** C10: a root whose namespace may hold roots, whose FQDN is not blank and
    whose TLS block, if it has one, resolves is never set Invalid for the
    characters of its FQDN: whatever the FQDN is, computeIngressRoute goes on
    to the walks under it. The tcpproxy walk, when there is one, returns or
    panics within its budget; when it has returned (or there is none), the
    route walk returns and the root is committed under its name with the
    FQDN as "vhost" value and an outcome; if its first route entry is a
    terminal one that builds, the VirtualHost of that FQDN exists afterwards
    and holds the route, and with that entry alone the root is committed
    Valid. *)
Theorem C10_wildcard_fqdn_is_built (b : dag.Builder) (ir : dag.IngressRoute)
    (vh : dag.VirtualHostIn) :
  dag.Spec_VirtualHost ir = Some vh →
  dag.rootAllowed (dag.Namespace ir) = true →
  dag.isBlank (dag.Fqdn vh) = false →
  dag.tlsResolves ir vh →
  let sw := dag.WithValue_vhost (dag.WithObject ir) (dag.Fqdn vh) in
  let enforceTLS := bool_decide (dag.Spec_TCPProxy ir = None) && dag.terminatesTLS vh in
  ∃ b1,
    dag.virtualHostTLS b ir vh = Ok (b1, dag.terminatesTLS vh, dag.passesThrough vh) ∧
    match (if bool_decide (is_Some (dag.Spec_TCPProxy ir)) &&
              (dag.passesThrough vh || dag.terminatesTLS vh)
           then dag.processIngressRouteTCPProxy (dag.walkFuel b) b1 sw ir [] (dag.Fqdn vh)
           else Done (b1, sw)) with
    | OutOfFuel => False
    | Panics => dag.computeIngressRoute b ir = Panics
    | Done (b2, sw2) =>
        (∃ b' sw',
           dag.processIngressRoutes (dag.walkFuel b) b2 sw2 ir "" [] (dag.Fqdn vh) enforceTLS
           = Done (b', sw') ∧
           dag.computeIngressRoute b ir = Done (dag.commit b' sw') ∧
           dag.osw_obj sw' = dag.fullName ir ∧
           dag.osw_vhost sw' = Some (dag.Fqdn vh) ∧
           is_Some (dag.osw_status sw')) ∧
        (∀ route rest r,
           dag.Spec_Routes ir = route :: rest →
           nonempty (dag.Services route) = true →
           dag.Route_Delegate route = None →
           dag.buildRoute b ir route "" enforceTLS = Ok r →
           ∃ bf vhost, dag.computeIngressRoute b ir = Done bf ∧
                       dag.virtualhosts bf !! dag.Fqdn vh = Some vhost ∧
                       r ∈ dag.routes vhost) ∧
        (∀ route r,
           dag.Spec_Routes ir = [route] →
           nonempty (dag.Services route) = true →
           dag.Route_Delegate route = None →
           dag.buildRoute b ir route "" enforceTLS = Ok r →
           dag.computeIngressRoute b ir
           = Done (dag.commit (dag.addRoutes b2 (dag.Fqdn vh) r enforceTLS)
                     {| dag.osw_obj := dag.fullName ir;
                        dag.osw_status := Some dag.Valid;
                        dag.osw_vhost := Some (dag.Fqdn vh) |}))
    end.
Proof.
  intros Hvh Hroot Hblank Hres sw enforceTLS.
  destruct (virtualHostTLS_resolves b ir vh Hres) as [b1 Htls].
  exists b1. split; [done|].
  destruct (virtualHostTLS_keeps _ _ _ _ _ _ Htls) as [K1 _].
  assert (Hcompute : dag.computeIngressRoute b ir
            = st ← (if bool_decide (is_Some (dag.Spec_TCPProxy ir)) &&
                       (dag.passesThrough vh || dag.terminatesTLS vh)
                    then dag.processIngressRouteTCPProxy (dag.walkFuel b) b1 sw ir []
                           (dag.Fqdn vh)
                    else Done (b1, sw));
              st' ← dag.processIngressRoutes (dag.walkFuel b) st.1 st.2 ir "" []
                      (dag.Fqdn vh) enforceTLS;
              Done (dag.commit st'.1 st'.2)).
  { unfold dag.computeIngressRoute. rewrite Hvh, Hroot, Hblank. root_simpl.
    by rewrite Htls. }
  assert (Htcp : match (if bool_decide (is_Some (dag.Spec_TCPProxy ir)) &&
                           (dag.passesThrough vh || dag.terminatesTLS vh)
                        then dag.processIngressRouteTCPProxy (dag.walkFuel b) b1 sw ir []
                               (dag.Fqdn vh)
                        else Done (b1, sw)) with
                 | Done (b2, sw2) =>
                     dag.keeps b1 b2 ∧ dag.osw_obj sw2 = dag.fullName ir ∧
                     dag.osw_vhost sw2 = Some (dag.Fqdn vh)
                 | Panics => True
                 | OutOfFuel => False
                 end).
  { destruct (bool_decide (is_Some _) && _); [|split_and!; [reflexivity|done|done]].
    pose proof (processIngressRouteTCPProxy_ends (dag.ingressroutes b1) (dag.walkFuel b) b1 sw
                  ir [] (dag.Fqdn vh) eq_refl) as Hends.
    pose proof (processIngressRouteTCPProxy_writer (dag.walkFuel b) b1 sw ir [] (dag.Fqdn vh))
      as Hwr.
    destruct (dag.processIngressRouteTCPProxy _ _ _ _ _ _) as [[b2 sw2]| |]; [|done|].
    - destruct (Hwr b2 sw2 eq_refl) as [Ho Hv]. split_and!; [|done|done].
      apply Hends. apply walkFuel_enough, K1.
    - apply Hends. apply walkFuel_enough, K1. }
  destruct (if _ && _ then _ else _) as [[b2 sw2]| |]; [|done|done].
  destruct Htcp as (K2 & Hobj2 & Hvhost2).
  assert (Hsrc2 : dag.ingressroutes b2 = dag.ingressroutes b).
  { rewrite (dag.keeps_source _ _ K2). apply K1. }
  assert (Hflag2 : dag.DisablePermitInsecure b2 = dag.DisablePermitInsecure b).
  { rewrite (dag.keeps_flag _ _ K2). apply K1. }
  cbn -[dag.processIngressRoutes dag.processIngressRouteTCPProxy dag.walkFuel] in Hcompute.
  split_and!.
  - destruct (processIngressRoutes_walked (dag.ingressroutes b2) (dag.walkFuel b) b2 sw2 ir ""
                [] (dag.Fqdn vh) enforceTLS eq_refl)
      as (b' & sw' & Hrun & K & F & Ho & Hv & Hst).
    { by apply walkFuel_enough. }
    exists b', sw'. rewrite Hcompute, Hrun. split_and!; [done|done|congruence|congruence|done].
  - intros route rest r Hrts Hsv Hd Hr.
    rewrite <- (buildRoute_flag b b2) in Hr by done.
    rewrite Hcompute. unfold dag.walkFuel. rewrite processIngressRoutes_S, Hrts.
    match goal with
    | |- context [dag.routesLoop ?rc ?i ?p ?v ?h ?e (route :: rest) ?b0 ?s] =>
        pose proof (routesLoop_terminal rc i p v h e route rest b0 s Hsv) as Ht
    end.
    rewrite Hr in Ht. rewrite (Ht Hd). clear Ht.
    set (b3 := dag.addRoutes b2 (dag.Fqdn vh) r enforceTLS).
    match goal with
    | |- context [dag.routesLoop ?rc ?i ?p ?v ?h ?e rest b3 ?s] =>
        destruct (routesLoop_walked rc i p v h e (dag.ingressroutes b) ) with (rts := rest)
          (b := b3) (sw := s) as (b' & sw' & -> & K & _)
    end.
    { intros b0 sw0 k dest prefix' Hm0 Hk Hpath.
      apply (processIngressRoutes_walked (dag.ingressroutes b)); [done|].
      pose proof (remaining_decreases _ k dest _ Hk Hpath).
      pose proof (remaining_le_size (dag.ingressroutes b) ([] ++ [ir])). lia. }
    { unfold b3. rewrite <- Hsrc2. apply keeps_addRoutes. }
    destruct (dag.keeps_routes _ _ K (dag.Fqdn vh) _ (addRoutes_virtualhost b2 _ r enforceTLS))
      as (vhost & Hvhost & Hpre).
    exists (dag.commit b' sw'), vhost. split_and!; [done|done|].
    eapply elem_of_prefix; [|exact Hpre]. simpl. apply elem_of_app. right.
    by apply list_elem_of_singleton.
  - intros route r Hrts Hsv Hd Hr.
    rewrite <- (buildRoute_flag b b2) in Hr by done.
    rewrite Hcompute. unfold dag.walkFuel. rewrite processIngressRoutes_S, Hrts.
    match goal with
    | |- context [dag.routesLoop ?rc ?i ?p ?v ?h ?e [route] ?b0 ?s] =>
        pose proof (routesLoop_terminal rc i p v h e route [] b0 s Hsv) as Ht
    end.
    rewrite Hr in Ht. rewrite (Ht Hd). cbn [dag.routesLoop]. root_simpl.
    unfold dag.SetValid. by rewrite Hobj2, Hvhost2.
Qed.

(** *** Idle timeouts *)

Lemma idleTimeout_cases (p : dag.ProtoDuration) (d : Z) (msg : string) :
  dag.ptypes_Duration p = Ok d →
  (dag.time_Hour < d →
   dag.idleTimeout (Some p) msg = Ok (Some (dag.ptypes_DurationProto dag.time_Hour))) ∧
  (d ≤ 0 → dag.idleTimeout (Some p) msg = Err msg) ∧
  (0 < d ≤ dag.time_Hour → dag.idleTimeout (Some p) msg = Ok (Some p)).
Proof.
  intros Hd. unfold dag.idleTimeout. rewrite Hd.
  destruct (Z.ltb_spec dag.time_Hour d), (Z.leb_spec d 0); split_and!; intros; try done;
    unfold dag.time_Hour, dag.time_Second in *; lia.
Qed.

(** What [buildRoute] returns, with the idle timeout it resolved. *)
Lemma buildRoute_idle (b : dag.Builder) (ir : dag.IngressRoute) (route : dag.RouteIn)
    (prefixMatch : string) (enforceTLS : bool) :
  match dag.buildRoute b ir route prefixMatch enforceTLS with
  | Ok r => ∃ msg, dag.idleTimeout (dag.Route_IdleTimeout route) msg = Ok (dag.IdleTimeout r)
  | Err _ => True
  end.
Proof.
  unfold dag.buildRoute.
  destruct (negb _); [done|].
  destruct (dag.routeHeadersPolicy _ true); simpl; [|done].
  destruct (dag.routeHeadersPolicy _ false); simpl; [|done].
  destruct (dag.idleTimeout _ _) eqn:Hidle; simpl; [|done].
  destruct (dag.requestTimeout _ _); simpl; [|done].
  destruct (dag.tracing _); simpl; [|done].
  destruct (dag.headerConditions _); simpl; [|done].
  destruct (mapM _ _); simpl; [|done].
  eauto.
Qed.

Lemma buildRoute_idle_Err (b : dag.Builder) (ir : dag.IngressRoute) (route : dag.RouteIn)
    (prefixMatch : string) (enforceTLS : bool) :
  (∀ msg, ∃ msg', dag.idleTimeout (dag.Route_IdleTimeout route) msg = Err msg') →
  ∃ msg, dag.buildRoute b ir route prefixMatch enforceTLS = Err msg.
Proof.
  intros Hidle. pose proof (buildRoute_idle b ir route prefixMatch enforceTLS) as Hb.
  destruct (dag.buildRoute _ _ _ _ _) as [r|msg]; [|by eexists].
  destruct Hb as [msg Hb]. destruct (Hidle msg) as [msg' Hm]. congruence.
Qed.

Lemma buildCluster_idle (ir : dag.IngressRoute) (route : dag.RouteIn) (service : dag.ServiceIn) :
  match dag.buildCluster ir route service with
  | Ok c => ∃ msg, dag.idleTimeout (dag.Service_IdleTimeout service) msg
                   = Ok (dag.Cluster_IdleTimeout c)
  | Err _ => True
  end.
Proof.
  unfold dag.buildCluster.
  destruct (_ || _); [done|].
  destruct (dag.lookupService _ _); [|done].
  destruct (if String.eqb _ _ then _ else _); simpl; [|done].
  destruct (dag.idleTimeout _ _) eqn:Hidle; simpl; [|done].
  eauto.
Qed.

Lemma buildRoute_cluster_Err (b : dag.Builder) (ir : dag.IngressRoute) (route : dag.RouteIn)
    (prefixMatch : string) (enforceTLS : bool) (service : dag.ServiceIn) (msg : string) :
  service ∈ dag.Services route →
  dag.buildCluster ir route service = Err msg →
  ∃ msg', dag.buildRoute b ir route prefixMatch enforceTLS = Err msg'.
Proof.
  intros Hin Herr. unfold dag.buildRoute.
  destruct (negb _); [by eexists|].
  destruct (dag.routeHeadersPolicy _ true); simpl; [|by eexists].
  destruct (dag.routeHeadersPolicy _ false); simpl; [|by eexists].
  destruct (dag.idleTimeout _ _); simpl; [|by eexists].
  destruct (dag.requestTimeout _ _); simpl; [|by eexists].
  destruct (dag.tracing _); simpl; [|by eexists].
  destruct (dag.headerConditions _); simpl; [|by eexists].
  destruct (mapM_Err _ _ _ _ Hin Herr) as [msg' ->]. by eexists.
Qed.


(** *** Routes that all build *)

Lemma mapM_pointwise {A B : Type} (f g : A → result B) (l : list A) :
  (∀ x, f x = g x) → mapM f l = mapM g l.
Proof. intros Hfg. induction l as [|x l IH]; [done|]. cbn. by rewrite Hfg, IH. Qed.

(** [buildRoute] reads the builder's setting only. *)
Lemma buildRoute_addRoutes (b : dag.Builder) (host : string) (r : dag.Route) (e : bool)
    (ir : dag.IngressRoute) (route : dag.RouteIn) (prefixMatch : string) (enforceTLS : bool) :
  dag.buildRoute (dag.addRoutes b host r e) ir route prefixMatch enforceTLS
  = dag.buildRoute b ir route prefixMatch enforceTLS.
Proof. unfold dag.buildRoute, dag.addRoutes. by destruct e. Qed.

Lemma lookupVirtualHost_addRoutes (b : dag.Builder) (host : string) (r : dag.Route) (e : bool) :
  dag.lookupVirtualHost (dag.addRoutes b host r e) host
  = dag.addRoute (dag.lookupVirtualHost b host) r.
Proof. unfold dag.lookupVirtualHost at 1. by rewrite addRoutes_virtualhost. Qed.

Lemma mapM_cons_result {A B : Type} (f : A → result B) (x : A) (l : list A) :
  mapM f (x :: l)
  = match f x with
    | Ok y => match mapM f l with Ok k => Ok (y :: k) | Err e => Err e end
    | Err e => Err e
    end.
Proof. cbn. by destruct (f x), (mapM f l). Qed.

(** A loop over terminal entries that all build adds their routes in order
    and sets the resource valid. *)
Lemma routesLoop_terminals
    (recurse : dag.Builder → dag.ObjectStatusWriter → dag.IngressRoute → string →
               run (dag.Builder * dag.ObjectStatusWriter))
    (ir : dag.IngressRoute) (prefixMatch : string) (visited : list dag.IngressRoute)
    (host : string) (enforceTLS : bool) (sw : dag.ObjectStatusWriter) :
  ∀ rts b rs,
    Forall dag.terminal rts →
    mapM (fun route => dag.buildRoute b ir route prefixMatch enforceTLS) rts = Ok rs →
    dag.routesLoop recurse ir prefixMatch visited host enforceTLS rts b sw
    = Done (foldl (fun b r => dag.addRoutes b host r enforceTLS) b rs, dag.SetValid sw).
Proof.
  intros rts b rs Hall. revert b rs.
  induction Hall as [|route rts [Hs Hd] _ IH]; intros b rs Hrs.
  { cbn in Hrs. by injection Hrs as <-. }
  rewrite mapM_cons_result in Hrs.
  destruct (dag.buildRoute b ir route prefixMatch enforceTLS) as [r|e] eqn:Hr; [|done].
  destruct (mapM _ rts) as [rs'|e] eqn:Hrs'; [|done]. injection Hrs as <-.
  pose proof (routesLoop_terminal recurse ir prefixMatch visited host enforceTLS route rts b sw
                Hs) as Hstep.
  rewrite Hr in Hstep. rewrite (Hstep Hd). cbn [foldl]. apply IH.
  rewrite <- Hrs'. apply mapM_pointwise. intros route'. apply buildRoute_addRoutes.
Qed.

Lemma foldl_addRoutes (host : string) (e : bool) (rs : list dag.Route) :
  ∀ b, let b' := foldl (fun b r => dag.addRoutes b host r e) b rs in
       dag.keeps b b' ∧
       dag.statuses b' = dag.statuses b ∧
       dag.routes (dag.lookupVirtualHost b' host)
       = (dag.routes (dag.lookupVirtualHost b host) ++ rs)%list ∧
       (rs ≠ [] → dag.virtualhosts b' !! host = Some (dag.lookupVirtualHost b' host)).
Proof.
  induction rs as [|r rs IH]; intros b; cbn [foldl].
  { split_and!; [reflexivity|done|by rewrite app_nil_r|done]. }
  destruct (IH (dag.addRoutes b host r e)) as (K & Hst & Hrts & Hvh). split_and!.
  - etrans; [apply keeps_addRoutes|exact K].
  - rewrite Hst. unfold dag.addRoutes. by destruct e.
  - rewrite Hrts, lookupVirtualHost_addRoutes. cbn. by rewrite <- app_assoc.
  - intros _. destruct rs as [|r' rs]; [|by apply Hvh].
    cbn [foldl]. unfold dag.lookupVirtualHost. by rewrite addRoutes_virtualhost.
Qed.

(** A root without a tcpproxy block whose checks pass and whose route
    entries are terminal and all build: computeIngressRoute commits it Valid,
    and the VirtualHost of its FQDN holds its routes. *)
Lemma terminal_root_is_built (b : dag.Builder) (ir : dag.IngressRoute) (vh : dag.VirtualHostIn)
    (rs : list dag.Route) :
  dag.Spec_VirtualHost ir = Some vh →
  dag.rootAllowed (dag.Namespace ir) = true →
  dag.isBlank (dag.Fqdn vh) = false →
  dag.tlsResolves ir vh →
  dag.Spec_TCPProxy ir = None →
  Forall dag.terminal (dag.Spec_Routes ir) →
  mapM (fun route => dag.buildRoute b ir route "" (dag.terminatesTLS vh)) (dag.Spec_Routes ir)
    = Ok rs →
  ∃ b', dag.computeIngressRoute b ir
        = Done (dag.commit b'
                  {| dag.osw_obj := dag.fullName ir;
                     dag.osw_status := Some dag.Valid;
                     dag.osw_vhost := Some (dag.Fqdn vh) |}) ∧
        dag.keeps b b' ∧
        ∀ r, r ∈ rs → ∃ vhost, dag.virtualhosts b' !! dag.Fqdn vh = Some vhost ∧
                                r ∈ dag.routes vhost.
Proof.
  intros Hvh Hroot Hblank Hres Htcp Hall Hrs.
  destruct (virtualHostTLS_resolves b ir vh Hres) as [b1 Htls].
  destruct (virtualHostTLS_keeps _ _ _ _ _ _ Htls) as [K1 _].
  exists (foldl (fun b r => dag.addRoutes b (dag.Fqdn vh) r (dag.terminatesTLS vh)) b1 rs).
  destruct (foldl_addRoutes (dag.Fqdn vh) (dag.terminatesTLS vh) rs b1) as (K & _ & Hrts & Hin).
  split_and!.
  - unfold dag.computeIngressRoute. rewrite Hvh, Hroot, Hblank. root_simpl.
    rewrite Htls, Htcp. root_simpl.
    unfold dag.walkFuel. rewrite processIngressRoutes_S.
    rewrite (routesLoop_terminals _ _ _ _ _ _ _ _ _ rs Hall); [done|].
    rewrite <- Hrs. apply mapM_pointwise. intros route. apply buildRoute_flag, K1.
  - etrans; [exact K1|exact K].
  - intros r Hr. eexists. split.
    + apply Hin. intros ->. by apply elem_of_nil in Hr.
    + rewrite Hrts. apply elem_of_app. by right.
Qed.

(** *** What a walk adds to the log of status calls *)

#[local] Instance logsOnly_refl (T : FullName → Prop) : Reflexive (dag.logsOnly T).
Proof. intros b. exists []. by rewrite app_nil_r. Qed.

#[local] Instance logsOnly_trans (T : FullName → Prop) : Transitive (dag.logsOnly T).
Proof.
  intros b1 b2 b3 (a1 & E1 & F1) (a2 & E2 & F2). exists (a1 ++ a2)%list.
  rewrite E2, E1, app_assoc. split; [done|]. by apply Forall_app.
Qed.

Lemma logsOnly_same (T : FullName → Prop) (b b' : dag.Builder) :
  dag.statuses b' = dag.statuses b → dag.logsOnly T b b'.
Proof. intros Hst. exists []. by rewrite app_nil_r. Qed.

Lemma logsOnly_commit (T : FullName → Prop) (b : dag.Builder) (sw : dag.ObjectStatusWriter) :
  T (dag.osw_obj sw) → dag.logsOnly T b (dag.commit b sw).
Proof. intros HT. exists [sw]. split; [done|]. by apply Forall_singleton. Qed.

Lemma logsOnly_mono (T T' : FullName → Prop) (b b' : dag.Builder) :
  (∀ k, T k → T' k) → dag.logsOnly T b b' → dag.logsOnly T' b b'.
Proof.
  intros HTT (added & E & F). exists added. split; [done|].
  eapply Forall_impl; [exact F|]. intros sw. apply HTT.
Qed.

Section logged_walk.
Context (m : gmap FullName dag.IngressRoute) (T : FullName → Prop).
Hypothesis T_edge :
  ∀ ksrc src dest, m !! ksrc = Some src → dag.delegatesTo m src dest → T (dag.fullName dest).

Lemma routesLoop_logs
    (recurse : dag.Builder → dag.ObjectStatusWriter → dag.IngressRoute → string →
               run (dag.Builder * dag.ObjectStatusWriter))
    (ir : dag.IngressRoute) (prefixMatch : string) (visited : list dag.IngressRoute)
    (host : string) (enforceTLS : bool) :
  (∀ b sw dest prefix' b' sw',
     dag.ingressroutes b = m → (∃ k, m !! k = Some dest) →
     recurse b sw dest prefix' = Done (b', sw') →
     dag.logsOnly T b b' ∧ dag.ingressroutes b' = m ∧ dag.osw_obj sw' = dag.osw_obj sw) →
  ∀ rts b sw b' sw',
    (∀ route d dest, route ∈ rts → dag.Route_Delegate route = Some d →
       m !! (dag.delegateNamespace d ir, dag.Delegate_Name d) = Some dest →
       T (dag.fullName dest)) →
    dag.ingressroutes b = m →
    dag.routesLoop recurse ir prefixMatch visited host enforceTLS rts b sw = Done (b', sw') →
    dag.logsOnly T b b' ∧ dag.ingressroutes b' = m ∧ dag.osw_obj sw' = dag.osw_obj sw.
Proof.
  intros Hrec. induction rts as [|route rest IH]; intros b sw b' sw' Hedges Hm;
    cbn [dag.routesLoop].
  { intros [= <- <-]. split_and!; [reflexivity|done|done]. }
  assert (Hrest : ∀ route' d dest, route' ∈ rest → dag.Route_Delegate route' = Some d →
            m !! (dag.delegateNamespace d ir, dag.Delegate_Name d) = Some dest →
            T (dag.fullName dest)).
  { intros route' d dest Hin. apply Hedges. by apply list_elem_of_further. }
  destruct (nonempty (dag.Services route) && _).
  { intros [= <- <-]. split_and!; [reflexivity|done|done]. }
  destruct (nonempty (dag.Services route)).
  { destruct (dag.buildRoute b ir route prefixMatch enforceTLS) as [r|msg].
    - intros Hloop.
      assert (Hst : dag.statuses (dag.addRoutes b host r enforceTLS) = dag.statuses b)
        by (unfold dag.addRoutes; by destruct enforceTLS).
      assert (Hm' : dag.ingressroutes (dag.addRoutes b host r enforceTLS) = m)
        by (unfold dag.addRoutes; by destruct enforceTLS).
      destruct (IH _ _ _ _ Hrest Hm' Hloop) as (L & ? & ?).
      split_and!; [|done|done]. etrans; [by apply logsOnly_same|exact L].
    - intros [= <- <-]. split_and!; [reflexivity|done|done]. }
  destruct (dag.Route_Delegate route) as [d|] eqn:Hd; [|by apply IH].
  rewrite Hm.
  destruct (m !! _) as [dest|] eqn:Hk; [|by apply IH].
  assert (HT : T (dag.fullName dest)).
  { apply (Hedges route d dest); [apply list_elem_of_here|done|done]. }
  destruct (dag.onPath dest visited).
  { intros [= <- <-]. split_and!; [by apply logsOnly_same|done|done]. }
  destruct (recurse _ _ dest _) as [[b2 swd]| |] eqn:Hr; [|done|done].
  intros Hloop.
  destruct (Hrec (dag.unorphan b dest) _ _ _ _ _ Hm (ex_intro _ _ Hk) Hr) as (L2 & Hm2 & Hobj).
  destruct (IH (dag.commit b2 swd) sw b' sw' Hrest Hm2 Hloop) as (L & ? & ?).
  split_and!; [|done|done].
  etrans; [by apply (logsOnly_same _ b (dag.unorphan b dest))|].
  etrans; [exact L2|]. etrans; [|exact L]. apply logsOnly_commit. by rewrite Hobj.
Qed.

Lemma processIngressRoutes_logs (fuel : nat) :
  ∀ b sw ir prefixMatch visited host enforceTLS b' sw',
    dag.ingressroutes b = m → (∃ k, m !! k = Some ir) →
    dag.processIngressRoutes fuel b sw ir prefixMatch visited host enforceTLS = Done (b', sw') →
    dag.logsOnly T b b' ∧ dag.ingressroutes b' = m ∧ dag.osw_obj sw' = dag.osw_obj sw.
Proof.
  induction fuel as [|fuel IH]; intros b sw ir prefixMatch visited host enforceTLS b' sw'
    Hm [k Hk]; [done|].
  rewrite processIngressRoutes_S. apply routesLoop_logs; [|idtac|done].
  - intros b0 sw0 dest prefix' b0' sw0' Hm0 Hdest. by apply IH.
  - intros route d dest Hin Hd Hdest. apply (T_edge k ir dest Hk). left. eauto.
Qed.

Lemma processIngressRouteTCPProxy_logs (fuel : nat) :
  ∀ b sw ir visited host b' sw',
    dag.ingressroutes b = m → (∃ k, m !! k = Some ir) →
    dag.processIngressRouteTCPProxy fuel b sw ir visited host = Done (b', sw') →
    dag.logsOnly T b b' ∧ dag.ingressroutes b' = m ∧ dag.osw_obj sw' = dag.osw_obj sw.
Proof.
  induction fuel as [|fuel IH]; intros b sw ir visited host b' sw' Hm [k Hk]; [done|].
  cbn [dag.processIngressRouteTCPProxy].
  destruct (dag.Spec_TCPProxy ir) as [tcpproxy|] eqn:Htcp; [|done].
  destruct (nonempty (dag.TCPProxy_Services tcpproxy) && _).
  { intros [= <- <-]. split_and!; [reflexivity|done|done]. }
  destruct (nonempty (dag.TCPProxy_Services tcpproxy)).
  { destruct (mapM _ _); intros [= <- <-]; (split_and!; [|done|done]);
      [by apply logsOnly_same|reflexivity]. }
  destruct (dag.TCPProxy_Delegate tcpproxy) as [d|] eqn:Hd.
  2:{ intros [= <- <-]. split_and!; [reflexivity|done|done]. }
  rewrite Hm. destruct (m !! (_, _)) as [dest|] eqn:Hdest.
  2:{ intros [= <- <-]. split_and!; [reflexivity|done|done]. }
  assert (HT : T (dag.fullName dest)).
  { apply (T_edge k ir dest Hk). right. eauto. }
  destruct (dag.onPath dest _).
  { intros [= <- <-]. split_and!; [by apply logsOnly_same|done|done]. }
  destruct (dag.processIngressRouteTCPProxy fuel _ _ dest _ host) as [[b2 swd]| |] eqn:Hr;
    [|done|done].
  intros [= <- <-].
  destruct (IH (dag.unorphan b dest) _ _ _ _ _ _ Hm (ex_intro _ _ Hdest) Hr)
    as (L2 & Hm2 & Hobj).
  split_and!; [|done|done].
  etrans; [by apply (logsOnly_same _ b (dag.unorphan b dest))|].
  etrans; [exact L2|]. apply logsOnly_commit. by rewrite Hobj.
Qed.

Lemma virtualHostTLS_statuses (b b1 : dag.Builder) (ir : dag.IngressRoute)
    (vh : dag.VirtualHostIn) (enforceTLS passthrough : bool) :
  dag.virtualHostTLS b ir vh = Ok (b1, enforceTLS, passthrough) →
  dag.statuses b1 = dag.statuses b ∧ dag.ingressroutes b1 = dag.ingressroutes b.
Proof.
  unfold dag.virtualHostTLS. intros Htls.
  destruct (dag.VirtualHost_TLS vh) as [tls|]; [|by simplify_eq].
  destruct (String.eqb (dag.SecretName tls) "" && dag.Passthrough tls); [by simplify_eq|].
  destruct (dag.lookupSecret _) as [sec|e]; [|done].
  destruct (negb _); [done|]. by simplify_eq.
Qed.

(** [computeIngressRoute] commits calls for the object itself and for the
    targets of delegations, and for nothing else. *)
Lemma computeIngressRoute_logs (b b' : dag.Builder) (ir : dag.IngressRoute) :
  dag.ingressroutes b = m → (∃ k, m !! k = Some ir) →
  dag.computeIngressRoute b ir = Done b' →
  dag.logsOnly (fun n => n = dag.fullName ir ∨ T n) b b' ∧ dag.ingressroutes b' = m.
Proof.
  intros Hm Hir. unfold dag.computeIngressRoute.
  assert (Hown : ∀ b0 sw, dag.osw_obj sw = dag.fullName ir → dag.statuses b0 = dag.statuses b →
            dag.logsOnly (fun n => n = dag.fullName ir ∨ T n) b (dag.commit b0 sw)).
  { intros b0 sw Hobj Hst. exists [sw]. cbn. rewrite Hst. split; [done|].
    apply Forall_singleton. by left. }
  destruct (dag.Spec_VirtualHost ir) as [vh|].
  2:{ intros [= <-]. split; [by apply Hown|done]. }
  destruct (negb (dag.rootAllowed _)); [intros [= <-]; split; [by apply Hown|done]|].
  destruct (dag.isBlank _); [intros [= <-]; split; [by apply Hown|done]|].
  destruct (dag.virtualHostTLS b ir vh) as [[[b1 enforceTLS] passthrough]|msg] eqn:Htls.
  2:{ intros [= <-]. split; [by apply Hown|done]. }
  apply virtualHostTLS_statuses in Htls as [Hst1 Hm1]. rewrite Hm in Hm1.
  set (sw := dag.WithValue_vhost (dag.WithObject ir) (dag.Fqdn vh)).
  destruct (if _ && _ then _ else _) as [[b2 sw2]| |] eqn:Htcp; [|done|done].
  cbn [mbind run_bind fst snd].
  destruct (dag.processIngressRoutes _ b2 sw2 _ _ _ _ _) as [[b3 sw3]| |] eqn:Hwalk;
    [|done|done].
  cbn [mbind run_bind fst snd]. intros [= <-].
  assert (L2 : dag.logsOnly T b1 b2 ∧ dag.ingressroutes b2 = m ∧
               dag.osw_obj sw2 = dag.fullName ir).
  { destruct (_ && _).
    - by apply (processIngressRouteTCPProxy_logs _ _ _ _ _ _ _ _ Hm1 Hir) in Htcp.
    - injection Htcp as <- <-. split_and!; [reflexivity|done|done]. }
  destruct L2 as (L2 & Hm2 & Hobj2).
  destruct (processIngressRoutes_logs _ _ _ _ _ _ _ _ _ _ Hm2 Hir Hwalk) as (L3 & Hm3 & Hobj3).
  split; [|done].
  etrans; [apply (logsOnly_same _ b b1 Hst1)|].
  etrans; [eapply logsOnly_mono; [|exact L2]; by right|].
  etrans; [eapply logsOnly_mono; [|exact L3]; by right|].
  apply logsOnly_commit. left. congruence.
Qed.

End logged_walk.

Lemma computeAll_done_cons (b b' : dag.Builder) (ir : dag.IngressRoute)
    (irs : list dag.IngressRoute) :
  dag.computeAll (ir :: irs) b = Done b' →
  ∃ b1, dag.computeIngressRoute b ir = Done b1 ∧ dag.computeAll irs b1 = Done b'.
Proof.
  rewrite computeAll_cons. destruct (dag.computeIngressRoute b ir) as [b1| |]; [|done|done].
  eauto.
Qed.

Lemma computeAll_done_app (pre post : list dag.IngressRoute) (b b' : dag.Builder) :
  dag.computeAll (pre ++ post) b = Done b' →
  ∃ b1, dag.computeAll pre b = Done b1 ∧ dag.computeAll post b1 = Done b'.
Proof.
  rewrite computeAll_app. destruct (dag.computeAll pre b) as [b1| |]; [|done|done]. eauto.
Qed.

(** A root without a tcpproxy block is always computed: the walk returns. *)
Lemma computeIngressRoute_returns (b : dag.Builder) (ir : dag.IngressRoute) :
  dag.Spec_TCPProxy ir = None → ∃ b', dag.computeIngressRoute b ir = Done b'.
Proof.
  intros Htcp. pose proof (computeIngressRoute_ends b ir) as Hends.
  destruct (dag.computeIngressRoute b ir) as [b'| |] eqn:Hc; [by eexists| |done].
  exfalso. clear Hends. unfold dag.computeIngressRoute in Hc. rewrite Htcp in Hc.
  destruct (dag.Spec_VirtualHost ir) as [vh|]; [|done].
  destruct (negb (dag.rootAllowed _)); [done|].
  destruct (dag.isBlank _); [done|].
  destruct (dag.virtualHostTLS b ir vh) as [[[b1 enforceTLS] passthrough]|msg] eqn:Htls;
    [|done].
  apply virtualHostTLS_keeps in Htls as [K1 _].
  cbn -[dag.processIngressRoutes dag.walkFuel] in Hc.
  destruct (processIngressRoutes_walked (dag.ingressroutes b1) (dag.walkFuel b) b1
              (dag.WithValue_vhost (dag.WithObject ir) (dag.Fqdn vh)) ir "" [] (dag.Fqdn vh)
              enforceTLS eq_refl) as (b3 & sw3 & Hw & _).
  { apply walkFuel_enough, K1. }
  by rewrite Hw in Hc.
Qed.

Lemma computeAll_returns (irs : list dag.IngressRoute) :
  Forall (fun ir => dag.Spec_TCPProxy ir = None) irs →
  ∀ b, ∃ b', dag.computeAll irs b = Done b'.
Proof.
  induction 1 as [|ir irs Htcp _ IH]; intros b; [by eexists|].
  rewrite computeAll_cons. destruct (computeIngressRoute_returns b ir Htcp) as [b1 ->].
  apply IH.
Qed.

(** *** Roots and their FQDNs *)

(** The roots among [l] that declare [fqdn]. *)
Abbreviation declares fqdn := (fun ir : dag.IngressRoute =>
                             dag.Fqdn <$> dag.Spec_VirtualHost ir = Some fqdn).

Lemma partition_foldl (l : list dag.IngressRoute) :
  ∀ v0 g0, ∃ g,
    foldl dag.partitionStep (v0, g0) l
    = ((v0 ++ filter (fun ir => dag.Spec_VirtualHost ir = None) l)%list, g) ∧
    ∀ fqdn, g !! fqdn
            = if decide (filter (declares fqdn) l = []) then g0 !! fqdn
              else Some (default [] (g0 !! fqdn) ++ filter (declares fqdn) l)%list.
Proof.
  induction l as [|ir l IH]; intros v0 g0.
  { exists g0. split; [by rewrite app_nil_r|]. intros fqdn. by rewrite decide_True. }
  simpl. unfold dag.partitionStep at 2. simpl.
  destruct (dag.Spec_VirtualHost ir) as [vh|] eqn:Hvh.
  - destruct (IH v0 (<[dag.Fqdn vh := (default [] (g0 !! dag.Fqdn vh) ++ [ir])%list]> g0))
      as (g & -> & Hg).
    exists g. split.
    + rewrite filter_cons_False; [done|]. by rewrite Hvh.
    + intros fqdn. rewrite Hg. destruct (decide (fqdn = dag.Fqdn vh)) as [->|Hne].
      * rewrite (filter_cons_True (declares (dag.Fqdn vh))) by (by rewrite Hvh).
        rewrite lookup_insert_eq.
        case_decide as Hl; case_decide as Hl'; try done; simpl;
          by rewrite ?Hl, <- ?app_assoc.
      * rewrite (filter_cons_False (declares fqdn)) by (rewrite Hvh; simpl; congruence).
        by rewrite lookup_insert_ne.
  - destruct (IH (v0 ++ [ir])%list g0) as (g & -> & Hg).
    exists g. split.
    + rewrite filter_cons_True by done. by rewrite <- app_assoc.
    + intros fqdn. rewrite Hg.
      by rewrite (filter_cons_False (declares fqdn)) by (by rewrite Hvh).
Qed.

Lemma partitionRoots_spec (l : list dag.IngressRoute) :
  (dag.partitionRoots l).1 = filter (fun ir => dag.Spec_VirtualHost ir = None) l ∧
  ∀ fqdn, (dag.partitionRoots l).2 !! fqdn
          = if decide (filter (declares fqdn) l = []) then None
            else Some (filter (declares fqdn) l).
Proof.
  unfold dag.partitionRoots. destruct (partition_foldl l [] ∅) as (g & -> & Hg).
  split; [done|]. intros fqdn. rewrite Hg, lookup_empty. done.
Qed.

Section groups.
Context `{dag.RangeOrder}.

(** The status call a conflicting root is committed with. *)
Abbreviation conflictEvent fqdn irs := (fun ir : dag.IngressRoute =>
  dag.SetInvalid (dag.WithValue_vhost (dag.WithObject ir) fqdn) (dag.conflictMessage fqdn irs)).

Lemma markConflicting_spec (b : dag.Builder) (fqdn : string) (irs : list dag.IngressRoute) :
  dag.statuses (dag.markConflicting b fqdn irs)
    = (dag.statuses b ++ (conflictEvent fqdn irs <$> irs))%list ∧
  dag.ingressroutes (dag.markConflicting b fqdn irs) = dag.ingressroutes b ∧
  dag.virtualhosts (dag.markConflicting b fqdn irs) = dag.virtualhosts b ∧
  dag.securevirtualhosts (dag.markConflicting b fqdn irs) = dag.securevirtualhosts b.
Proof.
  unfold dag.markConflicting. generalize (dag.conflictMessage fqdn irs). intros msg.
  revert b. induction irs as [|ir irs IH]; intros b; simpl.
  { by rewrite app_nil_r. }
  destruct (IH (dag.commit b (dag.SetInvalid (dag.WithValue_vhost (dag.WithObject ir) fqdn) msg)))
    as (-> & -> & -> & ->).
  simpl. by rewrite <- app_assoc.
Qed.

(** What the loop over the groups does, for any order of the groups. *)
Lemma groups_foldl (gl : list (string * list dag.IngressRoute)) :
  ∀ v0 b0,
    let res := foldl dag.groupStep (v0, b0) gl in
    (∀ ir, ir ∈ res.1 ↔ ir ∈ v0 ∨ ∃ fqdn, (fqdn, [ir]) ∈ gl) ∧
    dag.statuses b0 `prefix_of` dag.statuses res.2 ∧
    (∀ fqdn irs ir, (fqdn, irs) ∈ gl → length irs ≠ 1%nat → ir ∈ irs →
                    conflictEvent fqdn irs ir ∈ dag.statuses res.2) ∧
    dag.ingressroutes res.2 = dag.ingressroutes b0 ∧
    dag.virtualhosts res.2 = dag.virtualhosts b0 ∧
    dag.securevirtualhosts res.2 = dag.securevirtualhosts b0.
Proof.
  induction gl as [|[fqdn0 irs0] gl IH]; intros v0 b0; simpl.
  { split_and!; try done.
    - intros ir. split; [by left|]. intros [?|[? Hin]]; [done|]. by apply elem_of_nil in Hin.
    - intros ? ? ? Hin. by apply elem_of_nil in Hin. }
  assert (Hsingle : (∃ ir0, irs0 = [ir0]) ∨ length irs0 ≠ 1%nat).
  { destruct irs0 as [|? [|? ?]]; eauto. }
  destruct Hsingle as [[ir0 ->]|Hlen].
  - change (dag.groupStep (v0, b0) (fqdn0, [ir0])) with ((v0 ++ [ir0])%list, b0).
    destruct (IH (v0 ++ [ir0])%list b0) as (Hv & Hp & He & Hi & Hvh & Hsvh).
    split_and!; try done.
    + intros ir. rewrite Hv, elem_of_app, list_elem_of_singleton. split.
      * intros [[? | ->] | [fq Hin]]; [by left| |].
        -- right. exists fqdn0. by left.
        -- right. exists fq. by right.
      * intros [?|[fq Hin]]; [tauto|].
        apply elem_of_cons in Hin as [Heq|Hin]; [simplify_eq; tauto|eauto].
    + intros fqdn irs ir Hin Hlen Hir. apply elem_of_cons in Hin as [Heq|Hin].
      * by simplify_eq.
      * by apply He.
  - assert (dag.groupStep (v0, b0) (fqdn0, irs0)
            = (v0, dag.markConflicting b0 fqdn0 irs0)) as ->.
    { by destruct irs0 as [|? [|? ?]]. }
    destruct (markConflicting_spec b0 fqdn0 irs0) as (Hs0 & Hi0 & Hvh0 & Hsvh0).
    destruct (IH v0 (dag.markConflicting b0 fqdn0 irs0)) as (Hv & Hp & He & Hi & Hvh & Hsvh).
    split_and!; try congruence.
    + intros ir. rewrite Hv. split.
      * intros [?|[fq Hin]]; [tauto|]. right. exists fq. by right.
      * intros [?|[fq Hin]]; [tauto|].
        apply elem_of_cons in Hin as [Heq|Hin]; [simplify_eq; done|eauto].
    + etrans; [|exact Hp]. rewrite Hs0. by apply prefix_app_r.
    + intros fqdn irs ir Hin Hlen' Hir. apply elem_of_cons in Hin as [Heq|Hin].
      * simplify_eq. eapply elem_of_prefix; [|exact Hp]. rewrite Hs0.
        apply elem_of_app. right. apply list_elem_of_fmap. eauto.
      * by apply He.
Qed.

Lemma elem_of_values (b : dag.Builder) (ir : dag.IngressRoute) :
  ir ∈ (dag.range_ingressroutes (dag.ingressroutes b)).*2 ↔
  ∃ k, dag.ingressroutes b !! k = Some ir.
Proof.
  rewrite list_elem_of_fmap. split.
  - intros ([k ir'] & -> & Hin). rewrite dag.range_ingressroutes_perm in Hin.
    apply elem_of_map_to_list in Hin. eauto.
  - intros [k Hk]. exists (k, ir). split; [done|].
    rewrite dag.range_ingressroutes_perm. by apply elem_of_map_to_list.
Qed.

Lemma elem_of_rootsOf (b : dag.Builder) (fqdn : string) (ir : dag.IngressRoute) :
  ir ∈ dag.rootsOf b fqdn ↔
  ∃ k vh, dag.ingressroutes b !! k = Some ir ∧ dag.Spec_VirtualHost ir = Some vh ∧
          dag.Fqdn vh = fqdn.
Proof.
  unfold dag.rootsOf. rewrite list_elem_of_filter, elem_of_values. split.
  - intros [Hd [k Hk]]. destruct (dag.Spec_VirtualHost ir) as [vh|]; [|done].
    simpl in Hd. simplify_eq. eauto.
  - intros (k & vh & Hk & Hvh & <-). rewrite Hvh. eauto.
Qed.

(** The groups the second loop ranges over are the FQDNs with their roots. *)
Lemma elem_of_groups (b : dag.Builder) (fqdn : string) (irs : list dag.IngressRoute) :
  (fqdn, irs) ∈ dag.range_fqdns
                  (dag.partitionRoots (dag.range_ingressroutes (dag.ingressroutes b)).*2).2 ↔
  irs ≠ [] ∧ irs = dag.rootsOf b fqdn.
Proof.
  rewrite dag.range_fqdns_perm, elem_of_map_to_list.
  destruct (partitionRoots_spec (dag.range_ingressroutes (dag.ingressroutes b)).*2) as [_ Hg].
  rewrite Hg. unfold dag.rootsOf. case_decide as Hnil.
  - rewrite Hnil. split; [done|]. intros [? ?]. congruence.
  - split; [intros ?; by simplify_eq|]. intros [_ ->]. done.
Qed.

Lemma two_distinct_length {A : Type} (l : list A) (x y : A) :
  NoDup l → x ∈ l → y ∈ l → x ≠ y → (2 ≤ length l)%nat.
Proof.
  intros Hnd Hx Hy Hne. apply elem_of_Permutation in Hx as [l' Hl'].
  rewrite Hl' in Hy. apply elem_of_cons in Hy as [?|Hy]; [congruence|].
  rewrite Hl'. destruct l'; [by apply elem_of_nil in Hy|]. simpl. lia.
Qed.

Lemma two_roots_length (b : dag.Builder) (fqdn : string) (k1 k2 : FullName)
    (ir1 ir2 : dag.IngressRoute) :
  k1 ≠ k2 →
  dag.ingressroutes b !! k1 = Some ir1 → dag.ingressroutes b !! k2 = Some ir2 →
  declares fqdn ir1 → declares fqdn ir2 →
  (2 ≤ length (dag.rootsOf b fqdn))%nat.
Proof.
  intros Hne Hk1 Hk2 Hd1 Hd2. unfold dag.rootsOf.
  set (pairs := dag.range_ingressroutes (dag.ingressroutes b)).
  assert (filter (declares fqdn) pairs.*2
          = (filter (fun p : FullName * dag.IngressRoute => declares fqdn p.2) pairs).*2) as ->.
  { clear. induction pairs as [|p pairs IH]; [done|].
    rewrite fmap_cons, !filter_cons, IH. by case_decide. }
  rewrite length_fmap.
  apply (two_distinct_length _ (k1, ir1) (k2, ir2)).
  - apply NoDup_filter. unfold pairs. rewrite dag.range_ingressroutes_perm.
    apply NoDup_map_to_list.
  - apply list_elem_of_filter. split; [done|]. unfold pairs.
    rewrite dag.range_ingressroutes_perm. by apply elem_of_map_to_list.
  - apply list_elem_of_filter. split; [done|]. unfold pairs.
    rewrite dag.range_ingressroutes_perm. by apply elem_of_map_to_list.
  - congruence.
Qed.

(** The valid objects: the delegates, and the roots that are alone on their
    FQDN. *)
Lemma elem_of_valid (b : dag.Builder) (ir : dag.IngressRoute) :
  ir ∈ (dag.validIngressRoutes b).1 ↔
  (dag.Spec_VirtualHost ir = None ∧ ∃ k, dag.ingressroutes b !! k = Some ir) ∨
  ∃ fqdn, dag.rootsOf b fqdn = [ir].
Proof.
  unfold dag.validIngressRoutes.
  set (l := (dag.range_ingressroutes (dag.ingressroutes b)).*2).
  destruct (groups_foldl (dag.range_fqdns (dag.partitionRoots l).2) (dag.partitionRoots l).1 b)
    as (Hv & _).
  simpl in Hv. rewrite Hv. destruct (partitionRoots_spec l) as [-> _].
  rewrite list_elem_of_filter. unfold l. rewrite elem_of_values.
  apply or_iff_compat_l. split.
  - intros [fqdn Hin]. apply elem_of_groups in Hin as [_ Hin]. eauto.
  - intros [fqdn Hin]. exists fqdn. apply elem_of_groups. by rewrite Hin.
Qed.

Lemma valid_declares_alone (b : dag.Builder) (fqdn : string) (ir : dag.IngressRoute) :
  ir ∈ (dag.validIngressRoutes b).1 → declares fqdn ir → dag.rootsOf b fqdn = [ir].
Proof.
  intros Hin Hd. simpl in Hd. apply elem_of_valid in Hin as [[Hnone _]|[fqdn' Hroots]].
  { rewrite Hnone in Hd. done. }
  assert (ir ∈ dag.rootsOf b fqdn') as Hir by (rewrite Hroots; by apply list_elem_of_singleton).
  apply elem_of_rootsOf in Hir as (k & vh & _ & Hvh & <-). rewrite Hvh in Hd. simpl in Hd.
  by simplify_eq.
Qed.

(** *** The log of status calls after validIngressRoutes and after all roots *)

Lemma markConflicting_flag (b : dag.Builder) (fqdn : string) (irs : list dag.IngressRoute) :
  dag.DisablePermitInsecure (dag.markConflicting b fqdn irs) = dag.DisablePermitInsecure b.
Proof.
  unfold dag.markConflicting. generalize (dag.conflictMessage fqdn irs). intros msg.
  revert b. induction irs as [|ir irs IH]; intros b; [done|]. cbn [foldl]. by rewrite IH.
Qed.

(** What the second loop of validIngressRoutes adds to the log: the calls
    for the roots of the groups that are no singletons, and nothing else. *)
Lemma groups_foldl_log (gl : list (string * list dag.IngressRoute)) :
  ∀ v0 b0, ∃ added,
    dag.statuses (foldl dag.groupStep (v0, b0) gl).2 = (dag.statuses b0 ++ added)%list ∧
    dag.DisablePermitInsecure (foldl dag.groupStep (v0, b0) gl).2
      = dag.DisablePermitInsecure b0 ∧
    ∀ sw, sw ∈ added ↔
          ∃ fqdn irs ir, (fqdn, irs) ∈ gl ∧ length irs ≠ 1%nat ∧ ir ∈ irs ∧
                         sw = conflictEvent fqdn irs ir.
Proof.
  induction gl as [|[fqdn0 irs0] gl IH]; intros v0 b0; cbn [foldl].
  { exists []. split_and!; [by rewrite app_nil_r|done|]. intros sw. split.
    - intros Hin. by apply elem_of_nil in Hin.
    - intros (? & ? & ? & Hin & _). by apply elem_of_nil in Hin. }
  assert (Hsingle : (∃ ir0, irs0 = [ir0]) ∨ length irs0 ≠ 1%nat).
  { destruct irs0 as [|? [|? ?]]; eauto. }
  destruct Hsingle as [[ir0 ->]|Hlen].
  - change (dag.groupStep (v0, b0) (fqdn0, [ir0])) with ((v0 ++ [ir0])%list, b0).
    destruct (IH (v0 ++ [ir0])%list b0) as (added & Hst & Hflag & Hadded).
    exists added. split_and!; [done|done|]. intros sw. rewrite Hadded. split.
    + intros (fqdn & irs & ir & Hin & ?). exists fqdn, irs, ir. split; [by right|done].
    + intros (fqdn & irs & ir & Hin & Hlen & ?).
      apply elem_of_cons in Hin as [Heq|Hin]; [by simplify_eq|]. by exists fqdn, irs, ir.
  - assert (dag.groupStep (v0, b0) (fqdn0, irs0)
            = (v0, dag.markConflicting b0 fqdn0 irs0)) as ->.
    { by destruct irs0 as [|? [|? ?]]. }
    destruct (markConflicting_spec b0 fqdn0 irs0) as (Hs0 & _).
    destruct (IH v0 (dag.markConflicting b0 fqdn0 irs0)) as (added & Hst & Hflag & Hadded).
    exists ((conflictEvent fqdn0 irs0 <$> irs0) ++ added)%list. split_and!.
    + by rewrite Hst, Hs0, app_assoc.
    + by rewrite Hflag, markConflicting_flag.
    + intros sw. rewrite elem_of_app, Hadded, list_elem_of_fmap. split.
      * intros [(ir & -> & Hir)|(fqdn & irs & ir & Hin & ?)].
        -- exists fqdn0, irs0, ir. split; [by left|done].
        -- exists fqdn, irs, ir. split; [by right|done].
      * intros (fqdn & irs & ir & Hin & Hlen' & Hir & ->).
        apply elem_of_cons in Hin as [Heq|Hin].
        -- simplify_eq. left. eauto.
        -- right. by exists fqdn, irs, ir.
Qed.

(** The log after validIngressRoutes: the calls for the roots that share
    their FQDN, and nothing else; the setting is not touched. *)
Lemma validIngressRoutes_log (b : dag.Builder) :
  ∃ added,
    dag.statuses (dag.validIngressRoutes b).2 = (dag.statuses b ++ added)%list ∧
    dag.DisablePermitInsecure (dag.validIngressRoutes b).2 = dag.DisablePermitInsecure b ∧
    dag.ingressroutes (dag.validIngressRoutes b).2 = dag.ingressroutes b ∧
    ∀ sw, sw ∈ added ↔
          ∃ fqdn ir, ir ∈ dag.rootsOf b fqdn ∧ length (dag.rootsOf b fqdn) ≠ 1%nat ∧
                     sw = conflictEvent fqdn (dag.rootsOf b fqdn) ir.
Proof.
  unfold dag.validIngressRoutes.
  set (l := (dag.range_ingressroutes (dag.ingressroutes b)).*2).
  destruct (groups_foldl_log (dag.range_fqdns (dag.partitionRoots l).2)
              (dag.partitionRoots l).1 b) as (added & Hst & Hflag & Hadded).
  destruct (groups_foldl (dag.range_fqdns (dag.partitionRoots l).2) (dag.partitionRoots l).1 b)
    as (_ & _ & _ & Hsrc & _).
  exists added. split_and!; [done|done|done|]. intros sw. rewrite Hadded. split.
  - intros (fqdn & irs & ir & Hin & Hlen & Hir & ->).
    apply elem_of_groups in Hin as [_ ->]. by exists fqdn, ir.
  - intros (fqdn & ir & Hir & Hlen & ->). exists fqdn, (dag.rootsOf b fqdn), ir.
    split_and!; [|done|done|done]. apply elem_of_groups. split; [|done].
    intros Hnil. rewrite Hnil in Hir. by apply elem_of_nil in Hir.
Qed.

Lemma computeAll_logs (m : gmap FullName dag.IngressRoute) (T : FullName → Prop)
    (irs : list dag.IngressRoute) :
  (∀ ksrc src dest, m !! ksrc = Some src → dag.delegatesTo m src dest →
                    T (dag.fullName dest)) →
  Forall (fun ir => ∃ k, m !! k = Some ir) irs →
  ∀ b b', dag.ingressroutes b = m → dag.computeAll irs b = Done b' →
    dag.logsOnly (fun n => (∃ ir, ir ∈ irs ∧ n = dag.fullName ir) ∨ T n) b b' ∧
    dag.ingressroutes b' = m.
Proof.
  intros HT. induction 1 as [|ir irs Hir _ IH]; intros b b' Hm Hall.
  { injection Hall as <-. split; [reflexivity|done]. }
  apply computeAll_done_cons in Hall as (b1 & Hone & Hrest).
  destruct (computeIngressRoute_logs m T HT b b1 ir Hm Hir Hone) as [L1 Hm1].
  destruct (IH b1 b' Hm1 Hrest) as [L Hm'].
  split; [|done]. etrans.
  - eapply logsOnly_mono; [|exact L1]. intros n [->|?]; [|by right].
    left. exists ir. split; [apply list_elem_of_here|done].
  - eapply logsOnly_mono; [|exact L]. intros n [(ir' & Hin & ->)|?]; [|by right].
    left. exists ir'. split; [by apply list_elem_of_further|done].
Qed.

Lemma last_of_copies {A : Type} (l : list A) (c : A) :
  l ≠ [] → (∀ x, x ∈ l → x = c) → last l = Some c.
Proof.
  induction l as [|x l IH]; intros Hne Hall; [done|].
  destruct l as [|y l].
  - cbn. f_equal. apply Hall, list_elem_of_here.
  - rewrite last_cons_cons. apply IH; [done|]. intros z Hz. by apply Hall, list_elem_of_further.
Qed.

Lemma last_filter_log {A : Type} (P : A → Prop) `{!∀ x, Decision (P x)}
    (l0 mid tail : list A) (c : A) :
  c ∈ mid → P c → (∀ x, x ∈ mid → P x → x = c) → (∀ x, x ∈ tail → ¬ P x) →
  last (filter P ((l0 ++ mid) ++ tail)%list) = Some c.
Proof.
  intros Hc HPc Hmid Htail. rewrite !filter_app.
  assert (filter P tail = []) as ->.
  { destruct (filter P tail) as [|x t] eqn:E; [done|]. exfalso.
    assert (x ∈ filter P tail) as Hx by (rewrite E; apply list_elem_of_here).
    apply list_elem_of_filter in Hx as [HP Hin]. by apply (Htail x). }
  rewrite app_nil_r, last_app.
  rewrite (last_of_copies (filter P mid) c); [done| |].
  - intros Hnil. apply (filter_nil_not_elem_of P mid c Hnil HPc Hc).
  - intros x Hx. apply list_elem_of_filter in Hx as [HP Hin]. by apply Hmid.
Qed.

Lemma valid_in_snapshot (b : dag.Builder) :
  Forall (fun x => ∃ k, dag.ingressroutes b !! k = Some x) (dag.validIngressRoutes b).1.
Proof.
  apply Forall_forall. intros x Hx. apply elem_of_valid in Hx as [[_ ?]|[f Hroots]]; [done|].
  assert (x ∈ dag.rootsOf b f) as Hin by (rewrite Hroots; apply list_elem_of_here).
  apply elem_of_rootsOf in Hin as (k & ? & ? & _). eauto.
Qed.

(** In a snapshot without delegations no name is targeted. *)
Lemma no_delegation_no_target (m : gmap FullName dag.IngressRoute) :
  map_Forall (fun _ src =>
                Forall (fun route => dag.Route_Delegate route = None) (dag.Spec_Routes src) ∧
                dag.Spec_TCPProxy src ≫= dag.TCPProxy_Delegate = None) m →
  ∀ k, ¬ dag.targeted m k.
Proof.
  intros Hall k (ksrc & src & dest & Hsrc & Hedge & _).
  destruct (Hall ksrc src Hsrc) as [Hroutes Htcp].
  destruct Hedge as [(route & d & Hin & Hd & _)|(tcpproxy & d & Ht & Hd & _)].
  - rewrite Forall_forall in Hroutes. rewrite (Hroutes route Hin) in Hd. done.
  - rewrite Ht in Htcp. cbn in Htcp. congruence.
Qed.

(** The status record of a root that shares its FQDN, when no object of the
    snapshot delegates to it: the call of validIngressRoutes is the last one
    committed for it. *)
Lemma conflicting_root_stays_invalid (b bf : dag.Builder) (fqdn : string)
    (ir : dag.IngressRoute) :
  dag.computeIngressRoutes b = Done bf →
  ir ∈ dag.rootsOf b fqdn →
  length (dag.rootsOf b fqdn) ≠ 1%nat →
  dag.keyed (dag.ingressroutes b) →
  ¬ dag.targeted (dag.ingressroutes b) (dag.fullName ir) →
  dag.statusOf bf (dag.fullName ir) = Some (conflictEvent fqdn (dag.rootsOf b fqdn) ir).
Proof.
  intros Hc Hir Hlen Hkeyed Hfree. unfold dag.computeIngressRoutes in Hc.
  destruct (validIngressRoutes_log b) as (addedV & HstV & _ & HsrcV & HaddedV).
  assert (Hdecl : dag.Fqdn <$> dag.Spec_VirtualHost ir = Some fqdn).
  { apply elem_of_rootsOf in Hir as (k' & vh & _ & -> & <-). done. }
  assert (Hmine : ∀ x, (∃ k, dag.ingressroutes b !! k = Some x) →
            dag.fullName x = dag.fullName ir → x = ir).
  { intros x [k Hk] Hname.
    apply elem_of_rootsOf in Hir as (k' & vh & Hk' & _).
    assert (k = k') by (rewrite <- (Hkeyed k x Hk), <- (Hkeyed k' ir Hk'); done).
    subst k'. congruence. }
  destruct (computeAll_logs (dag.ingressroutes b) (dag.targeted (dag.ingressroutes b))
              (dag.validIngressRoutes b).1) with (b := (dag.validIngressRoutes b).2) (b' := bf)
    as [(added & Hst & Hadded) _]; [|apply valid_in_snapshot|done|done|].
  { intros ksrc src dest Hsrc Hedge. by exists ksrc, src, dest. }
  unfold dag.statusOf. rewrite Hst, HstV. apply last_filter_log.
  - apply HaddedV. by exists fqdn, ir.
  - done.
  - intros sw Hsw Hname. apply HaddedV in Hsw as (f & y & Hy & _ & ->).
    cbn in Hname. apply Hmine in Hname.
    2:{ apply elem_of_rootsOf in Hy as (k & ? & ? & _). eauto. }
    subst y. apply elem_of_rootsOf in Hy as (k & vh & _ & Hvh & <-).
    rewrite Hvh in Hdecl. by injection Hdecl as ->.
  - intros sw Hsw Hname. rewrite Forall_forall in Hadded.
    destruct (Hadded sw Hsw) as [(x & Hx & Hx')|Htarget].
    + rewrite Hname in Hx'. symmetry in Hx'. apply Hmine in Hx'.
      2:{ pose proof (valid_in_snapshot b) as Hv. rewrite Forall_forall in Hv. by apply Hv. }
      subst x. rewrite (valid_declares_alone b fqdn ir Hx Hdecl) in Hlen. done.
    + apply Hfree. by rewrite <- Hname.
Qed.

(** A root that is alone on its FQDN, has no tcpproxy block, passes its
    checks and has terminal route entries that all build: when
    computeIngressRoutes returns, it has been committed Valid and the
    VirtualHost of its FQDN holds its routes, whatever else the snapshot
    holds. *)
Lemma sole_root_is_built (b bf : dag.Builder) (ir : dag.IngressRoute) (vh : dag.VirtualHostIn)
    (rs : list dag.Route) :
  dag.computeIngressRoutes b = Done bf →
  dag.rootsOf b (dag.Fqdn vh) = [ir] →
  dag.Spec_VirtualHost ir = Some vh →
  dag.rootAllowed (dag.Namespace ir) = true →
  dag.isBlank (dag.Fqdn vh) = false →
  dag.tlsResolves ir vh →
  dag.Spec_TCPProxy ir = None →
  Forall dag.terminal (dag.Spec_Routes ir) →
  mapM (fun route => dag.buildRoute b ir route "" (dag.terminatesTLS vh)) (dag.Spec_Routes ir)
    = Ok rs →
  {| dag.osw_obj := dag.fullName ir;
     dag.osw_status := Some dag.Valid;
     dag.osw_vhost := Some (dag.Fqdn vh) |} ∈ dag.statuses bf ∧
  ∀ r, r ∈ rs → ∃ vhost, dag.virtualhosts bf !! dag.Fqdn vh = Some vhost ∧
                          r ∈ dag.routes vhost.
Proof.
  intros Hc Hroots Hvh Hroot Hblank Hres Htcp Hall Hrs.
  assert (ir ∈ (dag.validIngressRoutes b).1) as Hin.
  { apply elem_of_valid. right. eauto. }
  apply list_elem_of_split in Hin as (pre & post & Heq).
  unfold dag.computeIngressRoutes in Hc. rewrite Heq in Hc.
  apply computeAll_done_app in Hc as (b1 & Hpre & Hc).
  apply computeAll_done_cons in Hc as (b2 & Hone & Hpost).
  destruct (validIngressRoutes_log b) as (_ & _ & HflagV & _).
  pose proof (computeAll_ends pre (dag.validIngressRoutes b).2) as Hends1.
  rewrite Hpre in Hends1. destruct Hends1 as [K1 _].
  destruct (terminal_root_is_built b1 ir vh rs Hvh Hroot Hblank Hres Htcp Hall)
    as (b' & Hbuilt & _ & Hroutes).
  { rewrite <- Hrs. apply mapM_pointwise. intros route. apply buildRoute_flag.
    by rewrite (dag.keeps_flag _ _ K1). }
  rewrite Hbuilt in Hone. injection Hone as <-.
  pose proof (computeAll_ends post (dag.commit b'
                {| dag.osw_obj := dag.fullName ir;
                   dag.osw_status := Some dag.Valid;
                   dag.osw_vhost := Some (dag.Fqdn vh) |})) as Hends2.
  rewrite Hpost in Hends2. destruct Hends2 as [K2 _]. split.
  - eapply elem_of_prefix; [|apply (dag.keeps_statuses _ _ K2)].
    cbn. apply elem_of_app. right. apply list_elem_of_here.
  - intros r Hr. destruct (Hroutes r Hr) as (vhost & Hvhost & Hin).
    destruct (dag.keeps_routes _ _ K2 (dag.Fqdn vh) vhost Hvhost) as (vhost' & Hvhost' & Hpre').
    exists vhost'. split; [done|]. by eapply elem_of_prefix.
Qed.

(** When no object has a tcpproxy block, computeIngressRoutes returns. *)
Lemma computeIngressRoutes_returns (b : dag.Builder) :
  (∀ k ir, dag.ingressroutes b !! k = Some ir → dag.Spec_TCPProxy ir = None) →
  ∃ bf, dag.computeIngressRoutes b = Done bf.
Proof.
  intros Hnone. unfold dag.computeIngressRoutes. apply computeAll_returns.
  eapply Forall_impl; [apply valid_in_snapshot|]. intros ir [k Hk]. by eapply Hnone.
Qed.

(** The cycle of two: a root whose first entry delegates to an object whose
    first entry delegates back. *)
Lemma two_cycle_is_reported (b : dag.Builder) (ra rb : dag.IngressRoute) (vh : dag.VirtualHostIn)
    (ea eb : dag.RouteIn) (resta restb : list dag.RouteIn) (da db : dag.Delegate) :
  dag.Spec_VirtualHost ra = Some vh →
  dag.rootAllowed (dag.Namespace ra) = true →
  dag.isBlank (dag.Fqdn vh) = false →
  dag.tlsResolves ra vh →
  dag.Spec_TCPProxy ra = None →
  dag.Spec_Routes ra = ea :: resta →
  dag.Services ea = [] →
  dag.Route_Delegate ea = Some da →
  dag.ingressroutes b !! (dag.delegateNamespace da ra, dag.Delegate_Name da) = Some rb →
  dag.fullName rb ≠ dag.fullName ra →
  dag.Spec_Routes rb = eb :: restb →
  dag.Services eb = [] →
  dag.Route_Delegate eb = Some db →
  dag.ingressroutes b !! (dag.delegateNamespace db rb, dag.Delegate_Name db) = Some ra →
  ∃ bf, dag.computeIngressRoute b ra = Done bf ∧
        dag.SetInvalid (dag.WithObject rb)
          ("route creates a delegation cycle: " +:+
           strings_Join [dag.slashName ra; dag.slashName rb; dag.slashName ra] " -> ")
          ∈ dag.statuses bf.
Proof.
  intros Hvh Hroot Hblank Hres Htcp Hrtsa Hsa Hda Hka Hne Hrtsb Hsb Hdb Hkb.
  destruct (virtualHostTLS_resolves b ra vh Hres) as [b1 Htls].
  destruct (virtualHostTLS_keeps _ _ _ _ _ _ Htls) as [K1 _].
  pose proof (dag.keeps_source _ _ K1) as Hsrc1.
  assert (Hpa : dag.onPath rb ([] ++ [ra]) = false).
  { destruct (dag.onPath rb ([] ++ [ra])) eqn:Hp; [|done].
    apply onPath_spec in Hp. cbn in Hp. apply list_elem_of_singleton in Hp. done. }
  assert (Hpb : dag.onPath ra (([] ++ [ra]) ++ [rb]) = true).
  { apply onPath_spec. cbn. apply list_elem_of_here. }
  assert (Hsize : ∃ n, size (dag.ingressroutes b) = S n).
  { destruct (size (dag.ingressroutes b)) as [|n] eqn:Hs; [|by eexists].
    apply map_size_empty_inv in Hs. rewrite Hs in Hka. by rewrite lookup_empty in Hka. }
  destruct Hsize as [n Hn].
  unfold dag.computeIngressRoute. rewrite Hvh, Hroot, Hblank. root_simpl.
  rewrite Htls, Htcp. root_simpl.
  unfold dag.walkFuel. rewrite processIngressRoutes_S, Hrtsa.
  rewrite (routesLoop_follow _ _ _ _ _ _ _ _ _ _ da rb Hsa Hda); [|by rewrite Hsrc1|done].
  rewrite Hn, processIngressRoutes_S, Hrtsb.
  rewrite (routesLoop_cycle _ _ _ _ _ _ _ _ _ _ db ra Hsb Hdb); [|by cbn; rewrite Hsrc1|done].
  match goal with
  | |- context [dag.routesLoop ?rc ?i ?p ?v ?h ?e resta ?b0 ?s] =>
      destruct (routesLoop_walked rc i p v h e (dag.ingressroutes b)) with (rts := resta)
        (b := b0) (sw := s) as (b' & sw' & -> & K & _)
  end.
  { intros b0 sw0 k dest prefix' Hm0 Hk Hpath.
    apply (processIngressRoutes_walked (dag.ingressroutes b)); [done|].
    pose proof (remaining_decreases _ k dest _ Hk Hpath).
    pose proof (remaining_le_size (dag.ingressroutes b) ([] ++ [ra])). lia. }
  { cbn. exact Hsrc1. }
  root_simpl. eexists. split; [reflexivity|]. cbn.
  apply elem_of_app. left. eapply elem_of_prefix; [|apply (dag.keeps_statuses _ _ K)].
  cbn. apply elem_of_app. right. apply list_elem_of_here.
Qed.



End groups.
End walk_facts.

(** ** The theorems on concrete resource sets *)

(** C1 on the cycle a -> b -> a, at the edge of [b] that closes it. *)
Lemma C1_cycle_edge_ends_the_resource_witness :
  dag.routesLoop
    (fun b' sw' dest' prefix' =>
       dag.processIngressRoutes 1 b' sw' dest' prefix' [demo.cycleA; demo.cycleB]
         "a.example.com" false)
    demo.cycleB "/" [demo.cycleA; demo.cycleB] "a.example.com" false
    (dag.Spec_Routes demo.cycleB) (demo.builder [demo.cycleA; demo.cycleB])
    (dag.WithObject demo.cycleB)
  = Done (dag.unorphan (demo.builder [demo.cycleA; demo.cycleB]) demo.cycleA,
          dag.SetInvalid (dag.WithObject demo.cycleB)
            "route creates a delegation cycle: default/a -> default/b -> default/a").
Proof.
  assert (Hk : dag.ingressroutes (demo.builder [demo.cycleA; demo.cycleB])
                 !! (dag.delegateNamespace
                       {| dag.Delegate_Name := "a"; dag.Delegate_Namespace := "" |}
                       demo.cycleB, "a")
               = Some demo.cycleA).
  { vm_compute. reflexivity. }
  destruct (@C1_cycle_edge_ends_the_resource demo.dagDeps
              (fun b' sw' dest' prefix' =>
                 dag.processIngressRoutes 1 b' sw' dest' prefix' [demo.cycleA; demo.cycleB]
                   "a.example.com" false)
              demo.cycleB "/" [demo.cycleA; demo.cycleB] "a.example.com" false
              (demo.toDelegate "/" "a") [demo.toService "/y" "web" None]
              (demo.builder [demo.cycleA; demo.cycleB]) (dag.WithObject demo.cycleB)
              {| dag.Delegate_Name := "a"; dag.Delegate_Namespace := "" |} demo.cycleA
              eq_refl eq_refl Hk) as (_ & Hcycle & _).
  exact (Hcycle eq_refl).
Defined.

(** The claim as stated fails on that cycle: [b]'s entry "/y", which follows
    the closing edge on the same resource, is never processed (no route "/y"
    is built), while [a]'s entry "/x", which follows the edge to [b], is. *)
Lemma C1_counterexample :
  demo.outcomes (dag.computeIngressRoute (demo.builder [demo.cycleA; demo.cycleB]) demo.cycleA)
  = [ (("default", "b"),
       Some (dag.Invalid
               "route creates a delegation cycle: default/a -> default/b -> default/a"));
      (("default", "a"), Some dag.Valid) ] ∧
  demo.routePrefixes
    (dag.computeIngressRoute (demo.builder [demo.cycleA; demo.cycleB]) demo.cycleA)
    "a.example.com"
  = Some ["/x"] ∧
  "/y" ∈ dag.Match <$> dag.Spec_Routes demo.cycleB.
Proof.
  split_and!.
  - vm_compute. reflexivity.
  - vm_compute. reflexivity.
  - apply list_elem_of_fmap. exists (demo.toService "/y" "web" None). split; [done|].
    apply elem_of_cons. right. apply elem_of_cons. by left.
Qed.

(** The cycle of the spec, built with an unrelated root beside it. *)
Example cycle_example :
  finished (dag.computeIngressRoutes
              (demo.builder [demo.cycleA; demo.cycleB; demo.unrelated])) = true ∧
  (("default", "b"),
   Some (dag.Invalid "route creates a delegation cycle: default/a -> default/b -> default/a"))
    ∈ demo.outcomes (dag.computeIngressRoutes
                       (demo.builder [demo.cycleA; demo.cycleB; demo.unrelated])) ∧
  (("default", "c"), Some dag.Valid)
    ∈ demo.outcomes (dag.computeIngressRoutes
                       (demo.builder [demo.cycleA; demo.cycleB; demo.unrelated])) ∧
  demo.routePrefixes
    (dag.computeIngressRoutes (demo.builder [demo.cycleA; demo.cycleB; demo.unrelated]))
    "c.example.com" = Some ["/"].
Proof.
  split_and!.
  - vm_compute. reflexivity.
  - vm_compute. apply list_elem_of_In. simpl. tauto.
  - vm_compute. apply list_elem_of_In. simpl. tauto.
  - vm_compute. reflexivity.
Qed.

(** Two roots on one FQDN: both are Invalid and no VirtualHost is built for
    it, while the unrelated root is built. *)
Example twins_example :
  demo.routePrefixes
    (dag.computeIngressRoutes (demo.builder [demo.twin1; demo.twin2; demo.unrelated]))
    "d.example.com" = None ∧
  demo.routePrefixes
    (dag.computeIngressRoutes (demo.builder [demo.twin1; demo.twin2; demo.unrelated]))
    "c.example.com" = Some ["/"] ∧
  length (demo.outcomes
            (dag.computeIngressRoutes (demo.builder [demo.twin1; demo.twin2; demo.unrelated])))
  = 3%nat.
Proof. split_and!; vm_compute; reflexivity. Qed.




(** C10 on a root whose FQDN is "*.example.com" and that terminates TLS. *)
Lemma C10_wildcard_fqdn_is_built_witness :
  demo.routePrefixes
    (dag.computeIngressRoute (demo.builder [demo.secureWildcard]) demo.secureWildcard)
    "*.example.com" = Some ["/"] ∧
  demo.outcomes
    (dag.computeIngressRoute (demo.builder [demo.secureWildcard]) demo.secureWildcard)
  = [(("default", "sw"), Some dag.Valid)].
Proof.
  assert (Hres : dag.tlsResolves demo.secureWildcard
                   {| dag.Fqdn := "*.example.com";
                      dag.VirtualHost_TLS := Some demo.certTLS |}).
  { intros tls Htls _. injection Htls as <-. split; [by eexists|reflexivity]. }
  destruct (dag.buildRoute (demo.builder [demo.secureWildcard]) demo.secureWildcard
              (demo.toService "/" "web" None) "" true) as [r|msg] eqn:Hr.
  - destruct (@C10_wildcard_fqdn_is_built demo.dagDeps
                (demo.builder [demo.secureWildcard]) demo.secureWildcard _
                eq_refl eq_refl eq_refl Hres) as (b1 & Htls & _ & _ & Hone).
    rewrite (Hone (demo.toService "/" "web" None) r eq_refl eq_refl eq_refl Hr).
    vm_compute in Htls. injection Htls as <-.
    vm_compute in Hr. injection Hr as <-. split; vm_compute; reflexivity.
  - vm_compute in Hr. discriminate Hr.
Defined.

(** * Further properties of the code *)

(** ** envoy/route.go: weights *)

Section more_weights.
Context `{envoy.Deps}.

Lemma wrap_uint32_wrap_int64 (z : Z) : wrap_uint32 (wrap_int64 z) = wrap_uint32 z.
Proof. unfold wrap_uint32, wrap_int64. Z.to_euclidean_division_equations. lia. Qed.

Lemma wrap_uint32_add_l (a b : Z) : wrap_uint32 (wrap_uint32 a + b) = wrap_uint32 (a + b).
Proof. unfold wrap_uint32. apply Zplus_mod_idemp_l. Qed.

Lemma wrap_uint32_add_r (a b : Z) : wrap_uint32 (a + wrap_uint32 b) = wrap_uint32 (a + b).
Proof. unfold wrap_uint32. apply Zplus_mod_idemp_r. Qed.

Lemma totalWeight_mod (services : list dag.HTTPService) (z : Z) :
  wrap_uint32
    (foldl (fun total service =>
              wrap_int64 (total + dag.TCPService_Weight (dag.TCPService_ service))) z services)
  = wrap_uint32 (z + envoy.weightSum services).
Proof.
  revert z. induction services as [|s services IH]; intros z; simpl.
  { f_equal. lia. }
  rewrite IH. unfold envoy.weightOf.
  rewrite <- wrap_uint32_add_l, wrap_uint32_wrap_int64, wrap_uint32_add_l.
  f_equal. lia.
Qed.

Lemma projectedSum_perm (l1 l2 : list envoy.ClusterWeight) :
  l1 ≡ₚ l2 → envoy.projectedSum l1 = envoy.projectedSum l2.
Proof. induction 1; simpl; lia. Qed.

Lemma projectedSum_clusterWeight (services : list dag.HTTPService) :
  wrap_uint32 (envoy.projectedSum (envoy.clusterWeight <$> services))
  = wrap_uint32 (envoy.weightSum services).
Proof.
  induction services as [|s services IH]; [done|].
  rewrite fmap_cons.
  change (wrap_uint32 (envoy.u32 (envoy.weightOf s)
                       + envoy.projectedSum (envoy.clusterWeight <$> services))
          = wrap_uint32 (envoy.weightOf s + envoy.weightSum services)).
  rewrite <- wrap_uint32_add_r, IH, wrap_uint32_add_r.
  unfold envoy.u32. by rewrite wrap_uint32_add_l.
Qed.

Lemma projectedSum_ones (services : list dag.HTTPService) :
  envoy.projectedSum (envoy.setWeight 1 <$> (envoy.clusterWeight <$> services))
  = Z.of_nat (length services).
Proof.
  induction services as [|s services IH]; [done|].
  rewrite !fmap_cons.
  change (1 + envoy.projectedSum (envoy.setWeight 1 <$> (envoy.clusterWeight <$> services))
          = Z.of_nat (S (length services))).
  rewrite IH. lia.
Qed.

(** X1: the total weight weightedClusters gives is the sum of the weights of
    the clusters it lists, as a [uint32] (modulo 2^32), whatever the weights
    of the services are; every listed weight is a [uint32]; there is one
    cluster per service, named after it, with the x-request-start header, and
    the list is ordered by name, then weight. *)
Theorem weightedClusters_total_is_sum_of_weights (services : list dag.HTTPService) :
  envoy.TotalWeight (envoy.weightedClusters services)
  = wrap_uint32 (envoy.projectedSum (envoy.Clusters (envoy.weightedClusters services))) ∧
  Forall (fun c => 0 ≤ envoy.ClusterWeight_Weight c < 2 ^ 32 ∧
                   envoy.RequestHeadersToAdd c
                   = [ {| envoy.Key := "x-request-start";
                          envoy.Value := "t=%START_TIME(%s.%3f)%";
                          envoy.Append := true |} ])
    (envoy.Clusters (envoy.weightedClusters services)) ∧
  envoy.ClusterWeight_Name <$> envoy.Clusters (envoy.weightedClusters services)
  ≡ₚ (fun s => envoy.Clustername_service (dag.TCPService_ s)) <$> services ∧
  ordered envoy.clusterWeightByName (envoy.Clusters (envoy.weightedClusters services)).
Proof.
  unfold envoy.weightedClusters. cbn [envoy.TotalWeight envoy.Clusters]. split_and!.
  - rewrite (projectedSum_perm _ _ (sort_Stable_perm _ _)).
    destruct (envoy.totalWeight services =? 0) eqn:Htotal.
    + by rewrite projectedSum_ones.
    + rewrite projectedSum_clusterWeight. unfold envoy.totalWeight, envoy.u32.
      rewrite totalWeight_mod. done.
  - rewrite (sort_Stable_perm _ _).
    destruct (envoy.totalWeight services =? 0).
    + apply Forall_fmap, Forall_fmap, Forall_forall. intros s _. cbn. split; [lia|done].
    + apply Forall_fmap, Forall_forall. intros s _. cbn. split; [|done].
      unfold envoy.u32, wrap_uint32. apply Z.mod_pos_bound. lia.
  - rewrite (sort_Stable_perm _ _).
    destruct (envoy.totalWeight services =? 0); [|by rewrite <- list_fmap_compose].
    by rewrite <- !list_fmap_compose.
  - apply sort_Stable_ordered, clusterWeightByName_asym.
Qed.

End more_weights.

(** ** envoy/route.go: the route action *)

Section route_action.
Context `{envoy.Deps} `{Floats}.

Lemma hashPolicy_None (policy : dag.HashPolicyOf) :
  envoy.hashPolicy policy = None ↔
  dag.Header policy = None ∧ dag.Cookie policy = None ∧ dag.ConnectionProperties policy = None.
Proof.
  unfold envoy.hashPolicy.
  destruct (dag.Header policy), (dag.Cookie policy), (dag.ConnectionProperties policy);
    naive_solver.
Qed.

(** X2: RouteRoute gives one hash-policy entry per policy of the route, in
    order. The entry is nil exactly when the policy names neither a header,
    nor a cookie, nor connection properties; a header wins over a cookie, and
    a cookie over connection properties; an entry that is there carries the
    policy's [Terminal]. With exactly one service the action names that
    cluster and adds the x-request-start header; with any other number of
    services (none included) it is the weighted list of weightedClusters. *)
Theorem RouteRoute_hash_policy_and_cluster (r : dag.OldRoute)
    (services : list dag.HTTPService) :
  let ra := envoy.RouteRoute r services in
  length (envoy.RA_HashPolicy ra) = length (dag.Old_HashPolicy r) ∧
  (∀ i policy, dag.Old_HashPolicy r !! i = Some policy →
     ∃ entry, envoy.RA_HashPolicy ra !! i = Some entry ∧
       (entry = None ↔
        dag.Header policy = None ∧ dag.Cookie policy = None ∧
        dag.ConnectionProperties policy = None) ∧
       (∀ h, dag.Header policy = Some h →
          entry = Some {| envoy.PolicySpecifierOf := envoy.HashPolicy_Header (dag.HeaderName h);
                          envoy.HashPolicy_Terminal := dag.Terminal policy |}) ∧
       (∀ c, dag.Header policy = None → dag.Cookie policy = Some c →
          entry = Some {| envoy.PolicySpecifierOf :=
                            envoy.HashPolicy_Cookie (dag.Cookie_Name c) (dag.Cookie_Path c)
                              (dag.Cookie_Ttl c);
                          envoy.HashPolicy_Terminal := dag.Terminal policy |}) ∧
       (∀ hp, entry = Some hp → envoy.HashPolicy_Terminal hp = dag.Terminal policy)) ∧
  (∀ service, services = [service] →
     envoy.RA_ClusterSpecifier ra
       = envoy.RouteAction_Cluster (envoy.Clustername_service (dag.TCPService_ service)) ∧
     envoy.RA_RequestHeadersToAdd ra
       = [ {| envoy.Key := "x-request-start"; envoy.Value := "t=%START_TIME(%s.%3f)%";
              envoy.Append := true |} ]) ∧
  (length services ≠ 1%nat →
     envoy.RA_ClusterSpecifier ra
       = envoy.RouteAction_WeightedClusters (envoy.weightedClusters services) ∧
     envoy.RA_RequestHeadersToAdd ra = []).
Proof.
  cbn zeta. unfold envoy.RouteRoute.
  cbn [envoy.RA_HashPolicy envoy.RA_ClusterSpecifier envoy.RA_RequestHeadersToAdd].
  split_and!.
  - by rewrite length_fmap.
  - intros i policy Hi. exists (envoy.hashPolicy policy). split_and!.
    + by rewrite list_lookup_fmap, Hi.
    + apply hashPolicy_None.
    + intros h Hh. unfold envoy.hashPolicy. by rewrite Hh.
    + intros c Hh Hc. unfold envoy.hashPolicy. by rewrite Hh, Hc.
    + intros hp. unfold envoy.hashPolicy.
      destruct (dag.Header policy), (dag.Cookie policy), (dag.ConnectionProperties policy);
        intros; by simplify_eq.
  - by intros service ->.
  - intros Hlen. by destruct services as [|s [|s' services]].
Qed.

Lemma recurseIface_other (s : option (gmap string types_Value)) (iface : Iface) :
  (∀ m, iface ≠ I_map m) → (envoy.recurseIface s iface).1 = s.
Proof. intros Hm. destruct iface; try done. by destruct (Hm v). Qed.

(** X3: PerFilterConfig is nil for a route without per-filter configuration
    and has otherwise exactly the keys of the route's configuration. Under a
    key whose value is an object, the struct has the object's keys, each with
    the projection of its value; under a key whose value is anything else (a
    string, a number, a list, ...) the struct is empty: the value is dropped. *)
Theorem PerFilterConfig_keeps_keys_drops_scalars (r : dag.OldRoute) :
  (dag.Old_PerFilterConfig r = ∅ → envoy.PerFilterConfig r = None) ∧
  (dag.Old_PerFilterConfig r ≠ ∅ →
     ∃ conf, envoy.PerFilterConfig r = Some conf ∧
       dom conf =@{gset string} dom (dag.Old_PerFilterConfig r) ∧
       (∀ k m, dag.Old_PerFilterConfig r !! k = Some (I_map m) →
          ∃ fields, conf !! k = Some fields ∧
            dom fields =@{gset string} dom m ∧
            ∀ f x, m !! f = Some x → fields !! f = Some (envoy.recurseIface None x).2) ∧
       (∀ k v, dag.Old_PerFilterConfig r !! k = Some v →
          (∀ m, v ≠ I_map m) → conf !! k = Some ∅)).
Proof.
  unfold envoy.PerFilterConfig. split.
  - intros ->. by rewrite decide_True.
  - intros Hne. rewrite decide_False by done. eexists. split; [done|]. split_and!.
    + by rewrite dom_fmap_L.
    + intros k m Hk. rewrite lookup_fmap, Hk. cbn -[union]. eexists. split; [done|].
      rewrite (right_id_L ∅ (∪)). split; [by rewrite dom_fmap_L|].
      intros f x Hf. by rewrite lookup_fmap, Hf.
    + intros k v Hk Hv. rewrite lookup_fmap, Hk. simpl. by rewrite recurseIface_other.
Qed.

End route_action.

(** ** contour/listener.go: the listener cache *)

Lemma omap_pointwise {A B : Type} (f g : A → option B) (l : list A) :
  (∀ x, f x = g x) → omap f l = omap g l.
Proof.
  intros Hfg. induction l as [|x l IH]; [done|].
  change (match f x with Some y => y :: omap f l | None => omap f l end
          = match g x with Some y => y :: omap g l | None => omap g l end).
  by rewrite Hfg, IH.
Qed.

Section cache.
Context `{contour.RangeListeners}.

Lemma range_listeners_values (m : gmap string envoy.Listener) (l : envoy.Listener) :
  l ∈ (contour.range_listeners m).*2 ↔ ∃ n, m !! n = Some l.
Proof.
  rewrite list_elem_of_fmap. split.
  - intros ([n l'] & -> & Hin). rewrite contour.range_listeners_perm in Hin.
    apply elem_of_map_to_list in Hin. eauto.
  - intros [n Hn]. exists (n, l). split; [done|].
    rewrite contour.range_listeners_perm. by apply elem_of_map_to_list.
Qed.

Lemma Contents_perm (c : contour.ListenerCache) :
  contour.Contents c
  ≡ₚ ((map_to_list (contour.values c)).*2 ++ (map_to_list (contour.staticValues c)).*2)%list.
Proof.
  unfold contour.Contents. rewrite sort_Stable_perm.
  by rewrite !contour.range_listeners_perm.
Qed.

(** X4: Contents lists every listener of the dynamic map and every listener
    of the static map, each once per map that holds it, in whatever order
    range yields them: a name held by both maps is listed twice. Query never
    returns a listener that Contents does not list, and for a name held by
    both maps it returns the dynamic listener only. *)
Theorem Contents_lists_both_maps (c : contour.ListenerCache) :
  contour.Contents c
  ≡ₚ ((map_to_list (contour.values c)).*2 ++ (map_to_list (contour.staticValues c)).*2)%list ∧
  length (contour.Contents c)
  = (size (contour.values c) + size (contour.staticValues c))%nat ∧
  (∀ l, l ∈ contour.Contents c ↔
        (∃ n, contour.values c !! n = Some l) ∨ (∃ n, contour.staticValues c !! n = Some l)) ∧
  (∀ names l, l ∈ contour.Query c names → l ∈ contour.Contents c) ∧
  (∀ n d s, contour.values c !! n = Some d → contour.staticValues c !! n = Some s →
            d ∈ contour.Contents c ∧ s ∈ contour.Contents c ∧ contour.Query c [n] = [d]).
Proof.
  assert (Hin : ∀ l, l ∈ contour.Contents c ↔
            (∃ n, contour.values c !! n = Some l) ∨
            (∃ n, contour.staticValues c !! n = Some l)).
  { intros l. unfold contour.Contents. rewrite sort_Stable_perm, elem_of_app.
    by rewrite !range_listeners_values. }
  split_and!.
  - apply Contents_perm.
  - rewrite Contents_perm, length_app, !length_fmap, !length_map_to_list. done.
  - done.
  - intros names l Hl. apply Hin. rewrite Query_perm in Hl.
    apply list_elem_of_omap in Hl as (n & _ & Hn). unfold contour.resolve in Hn.
    destruct (contour.values c !! n) eqn:Hv; simplify_eq; eauto.
  - intros n d s Hd Hs. split_and!; [apply Hin; eauto..|].
    unfold contour.Query. cbn. unfold contour.resolve. by rewrite Hd.
Qed.

(** X5: Update replaces the dynamic map wholesale and leaves the static map
    alone. After it, Contents lists the new dynamic listeners and the static
    ones, and a name resolves in the new map first and in the static map
    second: a listener that only the replaced map held is gone, and on a
    fresh cache nothing resolves until an Update. *)
Theorem Update_replaces_the_dynamic_map (c : contour.ListenerCache)
    (v : gmap string envoy.Listener) :
  contour.Contents (contour.Update c v)
  ≡ₚ ((map_to_list v).*2 ++ (map_to_list (contour.staticValues c)).*2)%list ∧
  (∀ n, contour.resolve (contour.Update c v) n
        = match v !! n with
          | Some l => Some l
          | None => contour.staticValues c !! n
          end) ∧
  (∀ names, Forall (fun n => v !! n = None ∧ contour.staticValues c !! n = None) names →
            contour.Query (contour.Update c v) names = []) ∧
  (∀ names, contour.Query contour.NewListenerCache names = []) ∧
  (∀ names, contour.Query (contour.Update contour.NewListenerCache v) names
            ≡ₚ omap (fun n => v !! n) names).
Proof.
  split_and!.
  - exact (Contents_perm (contour.Update c v)).
  - done.
  - intros names Hnames. unfold contour.Query.
    replace (omap (contour.resolve (contour.Update c v)) names) with (@nil envoy.Listener);
      [done|].
    induction Hnames as [|n names [Hv Hs] _ IH]; [done|].
    cbn. unfold contour.resolve at 1. cbn. by rewrite Hv, Hs.
  - intros names. unfold contour.Query.
    replace (omap (contour.resolve contour.NewListenerCache) names) with (@nil envoy.Listener);
      [done|].
    induction names as [|n names IH]; [done|]. cbn. unfold contour.resolve at 1. cbn.
    by rewrite !lookup_empty.
  - intros names. rewrite Query_perm.
    replace (omap (contour.resolve (contour.Update contour.NewListenerCache v)) names)
      with (omap (fun n => v !! n) names); [done|].
    assert (Hres : ∀ n, contour.resolve (contour.Update contour.NewListenerCache v) n = v !! n).
    { intros n. unfold contour.resolve. cbn. rewrite lookup_empty. by destruct (v !! n). }
    apply omap_pointwise. intros n. by rewrite Hres.
Qed.

End cache.

(** ** contour/listener_adobe.go: the address filter *)

Section adobe_filter.
Context `{Floats}.

Lemma cidrToProto_lookup (cidrs : list contour.Cidr) (key : string)
    (structFields : gmap string types_Value) :
  ∃ vs, contour.cidrToProto cidrs key structFields !! key = Some (ListValue vs) ∧
        length vs = length cidrs ∧
        ∀ i cidr, cidrs !! i = Some cidr →
          ∃ fields, vs !! i = Some (StructValue fields) ∧
            fields !! "address_prefix" = Some (StringValue (contour.AddressPrefix cidr)) ∧
            fields !! "prefix_len" = Some (NumberValue (contour.PrefixLen cidr)) ∧
            size fields = 2%nat.
Proof.
  unfold contour.cidrToProto. eexists. split; [apply lookup_insert_eq|]. split.
  - by rewrite length_fmap.
  - intros i cidr Hi. eexists. split; [by rewrite list_lookup_fmap, Hi|]. split_and!.
    + by rewrite lookup_insert_ne, lookup_insert_eq.
    + by rewrite lookup_insert_eq.
    + rewrite map_size_insert_None by (by rewrite lookup_insert_ne).
      by rewrite map_size_insert_None, map_size_empty.
Qed.

Lemma cidrToProto_size (cidrs : list contour.Cidr) (key : string)
    (structFields : gmap string types_Value) :
  (0 < size (contour.cidrToProto cidrs key structFields))%nat.
Proof.
  destruct (cidrToProto_lookup cidrs key structFields) as (vs & Hvs & _).
  destruct (size _) eqn:Hsize; [|lia].
  apply map_size_empty_iff in Hsize. rewrite Hsize in Hvs. by rewrite lookup_empty in Hvs.
Qed.

(** X6: init leaves no filter when CIDR_LIST_PATH is empty, and panics when
    the file cannot be opened or decoded. From a decoded file it installs the
    envoy.listener.ip_allow_deny filter exactly when the file gives an allow
    list or a deny list, an empty list included; the filter's struct holds,
    under "allow_cidrs" and "deny_cidrs", one two-field struct per entry of
    the list given, in order, and no key for a list not given.
    CustomListenerFilters then returns that one filter, or none. *)
Theorem init_installs_the_address_filter (path : string) (file : contour.CidrFile) :
  (path = "" → contour.init path file = Done None) ∧
  (path ≠ "" →
     (∀ err, file = contour.OpenFails err → contour.init path file = Panics) ∧
     (file = contour.DecodeFails → contour.init path file = Panics) ∧
     (∀ config, file = contour.Decodes config →
        (contour.AllowCidrs config = None → contour.DenyCidrs config = None →
         contour.init path file = Done None) ∧
        (is_Some (contour.AllowCidrs config) ∨ is_Some (contour.DenyCidrs config) →
         ∃ ts,
           contour.init path file
           = Done (Some {| envoy.ListenerFilter_Name := "envoy.listener.ip_allow_deny";
                           envoy.ListenerFilter_TypedConfig := Some ts |}) ∧
           (∀ key given, (key, given) ∈ [("allow_cidrs", contour.AllowCidrs config);
                                         ("deny_cidrs", contour.DenyCidrs config)] →
              match given with
              | None => envoy.TypedStruct_Value ts !! key = None
              | Some cidrs =>
                  ∃ vs, envoy.TypedStruct_Value ts !! key = Some (ListValue vs) ∧
                    length vs = length cidrs ∧
                    ∀ i cidr, cidrs !! i = Some cidr →
                      ∃ fields, vs !! i = Some (StructValue fields) ∧
                        fields !! "address_prefix"
                          = Some (StringValue (contour.AddressPrefix cidr)) ∧
                        fields !! "prefix_len"
                          = Some (NumberValue (contour.PrefixLen cidr)) ∧
                        size fields = 2%nat
              end)))) ∧
  (∀ f, contour.init path file = Done f →
        contour.CustomListenerFilters f = match f with Some x => [x] | None => [] end ∧
        (length (contour.CustomListenerFilters f) ≤ 1)%nat).
Proof.
  split_and!.
  - intros ->. done.
  - intros Hpath. apply String.eqb_neq in Hpath. unfold contour.init. rewrite Hpath.
    split_and!; [by intros err -> | by intros -> |].
    intros config ->. split.
    + intros -> ->. done.
    + intros Hgiven.
      destruct (contour.AllowCidrs config) as [allow|] eqn:Hallow,
               (contour.DenyCidrs config) as [deny|] eqn:Hdeny.
      * rewrite bool_decide_eq_true_2.
        2:{ apply cidrToProto_size. }
        eexists. split; [done|]. intros key given Hin.
        apply elem_of_cons in Hin as [Hin|Hin]; [|apply elem_of_cons in Hin as [Hin|Hin]];
          [simplify_eq; cbn..|by apply elem_of_nil in Hin].
        -- unfold contour.cidrToProto at 1. rewrite lookup_insert_ne by done.
           apply cidrToProto_lookup.
        -- apply cidrToProto_lookup.
      * rewrite bool_decide_eq_true_2.
        2:{ apply cidrToProto_size. }
        eexists. split; [done|]. intros key given Hin.
        apply elem_of_cons in Hin as [Hin|Hin]; [|apply elem_of_cons in Hin as [Hin|Hin]];
          [simplify_eq; cbn..|by apply elem_of_nil in Hin].
        -- apply cidrToProto_lookup.
        -- unfold contour.cidrToProto. by rewrite lookup_insert_ne, lookup_empty.
      * rewrite bool_decide_eq_true_2.
        2:{ apply cidrToProto_size. }
        eexists. split; [done|]. intros key given Hin.
        apply elem_of_cons in Hin as [Hin|Hin]; [|apply elem_of_cons in Hin as [Hin|Hin]];
          [simplify_eq; cbn..|by apply elem_of_nil in Hin].
        -- unfold contour.cidrToProto. by rewrite lookup_insert_ne, lookup_empty.
        -- apply cidrToProto_lookup.
      * destruct Hgiven as [[? ?]|[? ?]]; done.
  - intros f _. destruct f; cbn; split; (done || lia).
Qed.

End adobe_filter.

(** ** contour/listener.go: the listener visitor *)

Section more_visitor.
Context `{envoy.Deps}.

Lemma withFilterChains_id (l : envoy.Listener) :
  contour.withFilterChains l (envoy.FilterChains l) = l.
Proof. by destruct l. Qed.

Lemma visitChains_app (lvc : contour.ListenerVisitorConfig)
    (vhs vhs' : list dag.SecureVirtualHost) (fcs : list envoy.FilterChain) :
  contour.visitChains lvc (vhs ++ vhs') fcs
  = contour.visitChains lvc vhs' (contour.visitChains lvc vhs fcs).
Proof. apply foldl_app. Qed.

Lemma visitChains_cons (lvc : contour.ListenerVisitorConfig) (vh : dag.SecureVirtualHost)
    (vhs : list dag.SecureVirtualHost) (fcs : list envoy.FilterChain) :
  contour.visitChains lvc (vh :: vhs) fcs
  = contour.visitChains lvc vhs
      (contour.appendFallback lvc vh (contour.groupOrAppend lvc vh fcs)).
Proof. done. Qed.

(** What [visit] does to a visitor that holds the secure listener. *)
Lemma visit_fold (vertex : dag.Vertex) :
  ∀ v l, contour.listeners v !! contour.ENVOY_HTTPS_LISTENER = Some l →
    contour.visit v vertex
    = Done {| contour.config := contour.config v;
              contour.listeners :=
                <[contour.ENVOY_HTTPS_LISTENER :=
                    contour.withFilterChains l
                      (contour.visitChains (contour.config v) (contour.secureHosts vertex)
                         (envoy.FilterChains l))]> (contour.listeners v);
              contour.http := contour.http v || dag.reachesVirtualHost vertex |}.
Proof.
  revert vertex. fix IH 1. intros [vh|vh|children] v l Hl.
  - cbn. rewrite withFilterChains_id, insert_id by done. rewrite orb_true_r. done.
  - cbn. unfold contour.visitSecure. rewrite Hl, orb_false_r. done.
  - cbn [contour.visit contour.secureHosts dag.reachesVirtualHost].
    revert v l Hl. induction children as [|c cs IHcs]; intros v l Hl.
    + cbn. rewrite withFilterChains_id, insert_id by done. rewrite orb_false_r.
      by destruct v.
    + cbn [flat_map existsb]. rewrite (IH c v l Hl).
      erewrite IHcs by (cbn; apply lookup_insert_eq).
      cbn. rewrite visitChains_app, insert_insert_eq, orb_assoc. done.
Qed.

(** The two outcomes of the grouping step. *)
Lemma groupOrAppend_cases (lvc : contour.ListenerVisitorConfig) (vh : dag.SecureVirtualHost)
    (fcs : list envoy.FilterChain) :
  let name := dag.VirtualHost_Name (dag.SVH_VirtualHost vh) in
  let tls := contour.secureDownstreamTLS lvc vh in
  contour.groupOrAppend lvc vh fcs
    = (fcs ++ [envoy.FilterChainTLS name tls (contour.secureFilters lvc vh)])%list ∨
  ∃ pre fc post,
    fcs = (pre ++ fc :: post)%list ∧
    contour.groupOrAppend lvc vh fcs = (pre ++ contour.addServerName fc name :: post)%list ∧
    Forall (fun fc' => contour.mergeable tls fc' = false) pre ∧
    contour.mergeable tls fc = true ∧
    dag.SVH_TCPProxy vh = None.
Proof.
  cbn zeta. unfold contour.groupOrAppend.
  destruct (bool_decide (dag.SVH_TCPProxy vh = None)) eqn:Htcp; cbn [andb fst snd]; [|by left].
  apply bool_decide_eq_true in Htcp.
  destruct (bool_decide (is_Some (dag.Secret vh))); cbn [fst snd]; [|by left].
  destruct (first_mergeable (contour.secureDownstreamTLS lvc vh) fcs)
    as [Hnone|(pre & fc & post & -> & Hpre & Hfc)].
  - rewrite groupChains_none by done. by left.
  - rewrite groupChains_first by done. right. by exists pre, fc, post.
Qed.

Lemma served_nil (name : string) : contour.served name [] ↔ False.
Proof. split; [|done]. intros (fc & Hin & _). by apply elem_of_nil in Hin. Qed.

Lemma served_app (name : string) (fcs fcs' : list envoy.FilterChain) :
  contour.served name (fcs ++ fcs') ↔ contour.served name fcs ∨ contour.served name fcs'.
Proof.
  unfold contour.served. split.
  - intros (fc & Hin & Hn). apply elem_of_app in Hin as [Hin|Hin]; eauto.
  - intros [(fc & Hin & Hn)|(fc & Hin & Hn)]; exists fc; rewrite elem_of_app; eauto.
Qed.

Lemma served_cons (name : string) (fc : envoy.FilterChain) (fcs : list envoy.FilterChain) :
  contour.served name (fc :: fcs) ↔
  name ∈ envoy.ServerNames (envoy.FilterChainMatchOf fc) ∨ contour.served name fcs.
Proof.
  unfold contour.served. split.
  - intros (fc' & Hin & Hn). apply elem_of_cons in Hin as [->|Hin]; eauto.
  - intros [Hn|(fc' & Hin & Hn)]; [exists fc|exists fc']; rewrite elem_of_cons; eauto.
Qed.

Lemma addServerName_names (fc : envoy.FilterChain) (name n : string) :
  n ∈ envoy.ServerNames (envoy.FilterChainMatchOf (contour.addServerName fc name)) ↔
  n ∈ envoy.ServerNames (envoy.FilterChainMatchOf fc) ∨ n = name.
Proof. cbn. rewrite sort_Strings_perm, elem_of_app, list_elem_of_singleton. done. Qed.

(** The names a list of chains answers to after one host was visited: the
    names it answered to, and the host's. *)
Lemma served_step (lvc : contour.ListenerVisitorConfig) (vh : dag.SecureVirtualHost)
    (fcs : list envoy.FilterChain) (n : string) :
  contour.served n (contour.appendFallback lvc vh (contour.groupOrAppend lvc vh fcs)) ↔
  contour.served n fcs ∨ n = dag.VirtualHost_Name (dag.SVH_VirtualHost vh).
Proof.
  assert (Hfb : contour.served n (contour.appendFallback lvc vh (contour.groupOrAppend lvc vh fcs))
                ↔ contour.served n (contour.groupOrAppend lvc vh fcs)).
  { unfold contour.appendFallback. destruct (dag.FallbackCertificate vh); [|done].
    destruct (envoy.ContainsFallbackFilterChain _); [done|].
    rewrite served_app, served_cons, served_nil. cbn. rewrite elem_of_nil. naive_solver. }
  rewrite Hfb.
  destruct (groupOrAppend_cases lvc vh fcs) as [->|(pre & fc & post & -> & -> & _)].
  - rewrite served_app, served_cons, served_nil. cbn. rewrite list_elem_of_singleton.
    naive_solver.
  - rewrite !served_app, !served_cons, addServerName_names. naive_solver.
Qed.

Lemma served_visitChains (lvc : contour.ListenerVisitorConfig)
    (vhs : list dag.SecureVirtualHost) (fcs : list envoy.FilterChain) (n : string) :
  contour.served n (contour.visitChains lvc vhs fcs) ↔
  contour.served n fcs ∨ n ∈ (fun vh => dag.VirtualHost_Name (dag.SVH_VirtualHost vh)) <$> vhs.
Proof.
  revert fcs. induction vhs as [|vh vhs IH]; intros fcs.
  - cbn. rewrite elem_of_nil. naive_solver.
  - rewrite visitChains_cons, IH, served_step, fmap_cons, elem_of_cons. naive_solver.
Qed.

Lemma fallbackChains_app (fcs fcs' : list envoy.FilterChain) :
  contour.fallbackChains (fcs ++ fcs')
  = (contour.fallbackChains fcs ++ contour.fallbackChains fcs')%list.
Proof. apply List.filter_app. Qed.

Lemma ContainsFallbackFilterChain_false (fcs : list envoy.FilterChain) :
  envoy.ContainsFallbackFilterChain fcs = false ↔ contour.fallbackChains fcs = [].
Proof.
  unfold envoy.ContainsFallbackFilterChain, contour.fallbackChains.
  induction fcs as [|fc fcs IH]; [done|]. cbn.
  destruct (String.eqb (envoy.FilterChain_Name fc) "fallback-certificate"); cbn; [done|].
  apply IH.
Qed.

(** The grouping step adds no fallback chain and takes none away. *)
Lemma fallbackChains_groupOrAppend (lvc : contour.ListenerVisitorConfig)
    (vh : dag.SecureVirtualHost) (fcs : list envoy.FilterChain) :
  length (contour.fallbackChains (contour.groupOrAppend lvc vh fcs))
  = length (contour.fallbackChains fcs).
Proof.
  destruct (groupOrAppend_cases lvc vh fcs) as [->|(pre & fc & post & -> & -> & _)].
  - rewrite fallbackChains_app. cbn. by rewrite app_nil_r.
  - rewrite !fallbackChains_app, !length_app. f_equal.
    unfold contour.fallbackChains. cbn.
    by destruct (String.eqb (envoy.FilterChain_Name fc) "fallback-certificate").
Qed.

Lemma fallbackChains_step (lvc : contour.ListenerVisitorConfig)
    (vh : dag.SecureVirtualHost) (fcs : list envoy.FilterChain) :
  length (contour.fallbackChains
            (contour.appendFallback lvc vh (contour.groupOrAppend lvc vh fcs)))
  = match dag.FallbackCertificate vh, length (contour.fallbackChains fcs) with
    | Some _, O => 1%nat
    | _, n => n
    end.
Proof.
  pose proof (fallbackChains_groupOrAppend lvc vh fcs) as Hg.
  unfold contour.appendFallback.
  destruct (dag.FallbackCertificate vh) as [cert|]; [|by destruct (length _)].
  destruct (envoy.ContainsFallbackFilterChain _) eqn:Hc.
  - rewrite Hg. destruct (length (contour.fallbackChains fcs)) eqn:Hn; [|done].
    apply length_zero_iff_nil, ContainsFallbackFilterChain_false in Hg.
    congruence.
  - apply ContainsFallbackFilterChain_false in Hc.
    rewrite fallbackChains_app, Hc. rewrite Hc in Hg. by rewrite <- Hg.
Qed.

Lemma fallbackChains_visitChains (lvc : contour.ListenerVisitorConfig)
    (vhs : list dag.SecureVirtualHost) (fcs : list envoy.FilterChain) :
  length (contour.fallbackChains (contour.visitChains lvc vhs fcs))
  = match length (contour.fallbackChains fcs) with
    | O => if existsb (fun vh => bool_decide (is_Some (dag.FallbackCertificate vh))) vhs
           then 1%nat else 0%nat
    | n => n
    end.
Proof.
  revert fcs. induction vhs as [|vh vhs IH]; intros fcs.
  - cbn. by destruct (length _).
  - rewrite visitChains_cons, IH, fallbackChains_step. cbn [existsb].
    destruct (dag.FallbackCertificate vh) as [cert|].
    + rewrite bool_decide_eq_true_2 by eauto. by destruct (length (contour.fallbackChains fcs)).
    + rewrite bool_decide_eq_false_2 by (by intros [? ?]). done.
Qed.

(** Sorted lists of strings *)

Lemma compare_refl (a : string) : String.compare a a = Eq.
Proof.
  pose proof (String.compare_antisym a a) as Ha.
  destruct (String.compare a a); done.
Qed.

Lemma ltb_false_iff (a b : string) :
  String.ltb b a = false ↔ a = b ∨ String.ltb a b = true.
Proof.
  unfold String.ltb. rewrite (String.compare_antisym b a).
  destruct (String.compare a b) eqn:Hc; cbn.
  - apply String.compare_eq_iff in Hc. split; [by left|done].
  - split; [by right|done].
  - split; [done|]. intros [Heq|?]; [|done]. subst a. rewrite compare_refl in Hc. done.
Qed.

Lemma ltb_trans (a b c : string) :
  String.ltb a b = true → String.ltb b c = true → String.ltb a c = true.
Proof.
  unfold String.ltb. intros Hab Hbc.
  destruct (String.compare a b) eqn:H1; try done.
  destruct (String.compare b c) eqn:H2; try done.
  apply OrderedTypeEx.String_as_OT.cmp_lt in H1, H2.
  pose proof (OrderedTypeEx.String_as_OT.lt_trans _ _ _ H1 H2) as H3.
  apply OrderedTypeEx.String_as_OT.cmp_lt in H3.
  unfold OrderedTypeEx.String_as_OT.cmp in H3. by rewrite H3.
Qed.

#[local] Instance string_le_trans : Transitive (fun a b : string => String.ltb b a = false).
Proof.
  intros a b c Hab Hbc. apply ltb_false_iff in Hab, Hbc. apply ltb_false_iff.
  destruct Hab as [->|Hab], Hbc as [->|Hbc]; eauto using ltb_trans.
Qed.

#[local] Instance string_le_antisym : AntiSymm eq (fun a b : string => String.ltb b a = false).
Proof.
  intros a b Hab Hba. apply ltb_false_iff in Hab as [->|Hab]; [done|].
  congruence.
Qed.

Lemma sort_Strings_unique (l1 l2 : list string) :
  l1 ≡ₚ l2 → sort_Strings l1 = sort_Strings l2.
Proof.
  intros Hp. apply (Sorted_unique (fun a b : string => String.ltb b a = false)).
  - apply sort_Strings_ordered.
  - apply sort_Strings_ordered.
  - by rewrite !sort_Strings_perm.
Qed.

Lemma mergeable_addServerName (tls : option envoy.DownstreamTlsContext)
    (fc : envoy.FilterChain) (name : string) :
  contour.mergeable tls (contour.addServerName fc name) = contour.mergeable tls fc.
Proof. done. Qed.

Lemma secureFilters_no_tcp (lvc : contour.ListenerVisitorConfig) (vh : dag.SecureVirtualHost) :
  dag.SVH_TCPProxy vh = None →
  contour.isTCPProxyFilter (contour.secureFilters lvc vh) = false.
Proof. intros Htcp. unfold contour.secureFilters. by rewrite Htcp. Qed.

Lemma own_mergeable (lvc : contour.ListenerVisitorConfig) (vh : dag.SecureVirtualHost)
    (name : string) :
  dag.SVH_TCPProxy vh = None → is_Some (dag.Secret vh) →
  contour.mergeable (contour.secureDownstreamTLS lvc vh)
    (envoy.FilterChainTLS name (contour.secureDownstreamTLS lvc vh)
       (contour.secureFilters lvc vh)) = true.
Proof.
  intros Htcp Hsec. apply mergeable_spec.
  apply (secureDownstreamTLS_is_Some lvc) in Hsec as [ctx Hctx]. exists ctx.
  split_and!; [done..|]. by apply secureFilters_no_tcp.
Qed.

Lemma groupOrAppend_first (lvc : contour.ListenerVisitorConfig) (vh : dag.SecureVirtualHost)
    (pre post : list envoy.FilterChain) (fc : envoy.FilterChain) :
  dag.SVH_TCPProxy vh = None → is_Some (dag.Secret vh) →
  Forall (fun fc' => contour.mergeable (contour.secureDownstreamTLS lvc vh) fc' = false) pre →
  contour.mergeable (contour.secureDownstreamTLS lvc vh) fc = true →
  contour.groupOrAppend lvc vh (pre ++ fc :: post)
  = (pre ++ contour.addServerName fc (dag.VirtualHost_Name (dag.SVH_VirtualHost vh)) :: post)%list.
Proof.
  intros Htcp Hsec Hpre Hfc. unfold contour.groupOrAppend.
  rewrite !bool_decide_eq_true_2 by done. cbn [andb].
  by rewrite groupChains_first.
Qed.

Lemma groupOrAppend_none (lvc : contour.ListenerVisitorConfig) (vh : dag.SecureVirtualHost)
    (fcs : list envoy.FilterChain) :
  Forall (fun fc' => contour.mergeable (contour.secureDownstreamTLS lvc vh) fc' = false) fcs →
  contour.groupOrAppend lvc vh fcs
  = (fcs ++ [envoy.FilterChainTLS (dag.VirtualHost_Name (dag.SVH_VirtualHost vh))
               (contour.secureDownstreamTLS lvc vh) (contour.secureFilters lvc vh)])%list.
Proof.
  intros Hnone. unfold contour.groupOrAppend.
  destruct (_ && _); cbn [fst snd]; [|done]. by rewrite groupChains_none.
Qed.

Lemma addServerName_comm (fc : envoy.FilterChain) (n1 n2 : string) :
  contour.addServerName (contour.addServerName fc n1) n2
  = contour.addServerName (contour.addServerName fc n2) n1.
Proof.
  unfold contour.addServerName. cbn. do 2 f_equal.
  apply sort_Strings_unique. rewrite !sort_Strings_perm.
  rewrite <- !app_assoc. apply Permutation_app_head, Permutation_swap.
Qed.

Lemma appendFallback_None (lvc : contour.ListenerVisitorConfig) (vh : dag.SecureVirtualHost)
    (fcs : list envoy.FilterChain) :
  dag.FallbackCertificate vh = None → contour.appendFallback lvc vh fcs = fcs.
Proof. intros Hfb. unfold contour.appendFallback. by rewrite Hfb. Qed.

(** X7: two TLS-terminating hosts without a TCP proxy and without a
    fallback certificate that resolve to the same TLS context end up on the
    same chains whichever of them is visited first: the chain that takes both
    names lists them sorted, and nothing else depends on the order. *)
Theorem grouping_is_order_insensitive (lvc : contour.ListenerVisitorConfig)
    (a b : dag.SecureVirtualHost) (fcs : list envoy.FilterChain) :
  dag.SVH_TCPProxy a = None → dag.SVH_TCPProxy b = None →
  dag.FallbackCertificate a = None → dag.FallbackCertificate b = None →
  is_Some (dag.Secret a) →
  contour.secureDownstreamTLS lvc a = contour.secureDownstreamTLS lvc b →
  contour.visitChains lvc [a; b] fcs = contour.visitChains lvc [b; a] fcs.
Proof.
  intros Hta Htb Hfa Hfb Hsa Htls.
  assert (Hsb : is_Some (dag.Secret b)).
  { apply (secureDownstreamTLS_is_Some lvc). rewrite <- Htls.
    by apply secureDownstreamTLS_is_Some. }
  unfold contour.visitChains. cbn [foldl]. rewrite !appendFallback_None by done.
  set (na := dag.VirtualHost_Name (dag.SVH_VirtualHost a)).
  set (nb := dag.VirtualHost_Name (dag.SVH_VirtualHost b)).
  assert (Hfilters : contour.secureFilters lvc a = contour.secureFilters lvc b).
  { unfold contour.secureFilters. by rewrite Hta, Htb. }
  destruct (first_mergeable (contour.secureDownstreamTLS lvc a) fcs)
    as [Hnone|(pre & fc & post & -> & Hpre & Hfc)].
  - rewrite (groupOrAppend_none lvc a fcs) by done.
    rewrite (groupOrAppend_none lvc b fcs) by (by rewrite <- Htls).
    rewrite (groupOrAppend_first lvc b fcs []); [|done|done|by rewrite <- Htls|].
    2:{ rewrite <- Htls. by apply own_mergeable. }
    rewrite (groupOrAppend_first lvc a fcs []); [|done|done|done|].
    2:{ rewrite Htls. by apply own_mergeable. }
    f_equal. fold na nb. rewrite Htls, Hfilters.
    unfold contour.addServerName, envoy.FilterChainTLS. cbn. do 3 f_equal.
    exact (sort_Strings_unique [na; nb] [nb; na] (Permutation_swap _ _ _)).
  - rewrite (groupOrAppend_first lvc a pre post fc) by done.
    rewrite (groupOrAppend_first lvc b pre post fc) by (by rewrite <- ?Htls).
    rewrite (groupOrAppend_first lvc b pre post) by (by rewrite <- ?Htls).
    rewrite (groupOrAppend_first lvc a pre post) by done.
    fold na nb. by rewrite addServerName_comm.
Qed.

(** What [visit] does to a visitor that does not hold the secure listener. *)
Lemma visit_without_listener (vertex : dag.Vertex) :
  ∀ v, contour.listeners v !! contour.ENVOY_HTTPS_LISTENER = None →
    contour.visit v vertex
    = if nonempty (contour.secureHosts vertex) then Panics
      else Done {| contour.config := contour.config v;
                   contour.listeners := contour.listeners v;
                   contour.http := contour.http v || dag.reachesVirtualHost vertex |}.
Proof.
  revert vertex. fix IH 1. intros [vh|vh|children] v Hl.
  - cbn. by rewrite orb_true_r.
  - cbn. unfold contour.visitSecure. by rewrite Hl.
  - cbn [contour.visit contour.secureHosts dag.reachesVirtualHost].
    revert v Hl. induction children as [|c cs IHcs]; intros v Hl.
    + cbn. rewrite orb_false_r. by destruct v.
    + cbn [flat_map existsb]. rewrite (IH c v Hl).
      destruct (contour.secureHosts c) as [|vh vhs]; cbn [nonempty app]; [|done].
      rewrite IHcs by done. cbn. by rewrite orb_assoc.
Qed.

(** A chain that no TLS context can be merged into stays where it is. *)
Lemma groupOrAppend_keeps_unmergeable (lvc : contour.ListenerVisitorConfig)
    (vh : dag.SecureVirtualHost) (fcs : list envoy.FilterChain) (i : nat)
    (c : envoy.FilterChain) :
  contour.mergeable (contour.secureDownstreamTLS lvc vh) c = false →
  fcs !! i = Some c → contour.groupOrAppend lvc vh fcs !! i = Some c.
Proof.
  intros Hc Hi.
  destruct (groupOrAppend_cases lvc vh fcs) as [->|(pre & fc & post & -> & -> & _ & Hfc & _)].
  - by apply lookup_app_l_Some.
  - cbn zeta in Hfc. destruct (decide (i < length pre)%nat) as [Hlt|Hge].
    + rewrite lookup_app_l in Hi |- * by done. done.
    + rewrite lookup_app_r in Hi |- * by lia.
      destruct (i - length pre)%nat as [|n]; cbn in Hi |- *; [|done].
      simplify_eq. congruence.
Qed.

(** X8: a secure virtual host without a Secret (TLS passthrough) always
    gets a filter chain of its own, with its name alone and no transport
    socket, whatever chains there are; and that chain is never grouped into:
    every later host leaves it as it is, at its place. *)
Theorem a_passthrough_host_gets_its_own_chain (lvc : contour.ListenerVisitorConfig)
    (vh : dag.SecureVirtualHost) (fcs : list envoy.FilterChain) :
  dag.Secret vh = None →
  ∃ own, contour.groupOrAppend lvc vh fcs = (fcs ++ [own])%list ∧
    envoy.ServerNames (envoy.FilterChainMatchOf own)
      = [dag.VirtualHost_Name (dag.SVH_VirtualHost vh)] ∧
    envoy.TransportSocket own = None ∧
    ∀ vhs fcs' i, fcs' !! i = Some own →
      contour.visitChains lvc vhs fcs' !! i = Some own.
Proof.
  intros Hsec.
  assert (Htls : contour.secureDownstreamTLS lvc vh = None).
  { unfold contour.secureDownstreamTLS. by rewrite Hsec. }
  eexists. split_and!.
  - unfold contour.groupOrAppend. rewrite Hsec.
    rewrite (bool_decide_eq_false_2 (is_Some None)) by (by intros [? ?]).
    rewrite andb_false_r. cbn [fst snd]. reflexivity.
  - done.
  - by rewrite Htls.
  - rewrite Htls. set (own := envoy.FilterChainTLS _ None _).
    induction vhs as [|vh' vhs IH]; intros fcs' i Hi; [done|].
    rewrite visitChains_cons. apply IH.
    unfold contour.appendFallback.
    assert (contour.groupOrAppend lvc vh' fcs' !! i = Some own) as Hstep
      by (by apply groupOrAppend_keeps_unmergeable).
    destruct (dag.FallbackCertificate vh'); [|done].
    destruct (envoy.ContainsFallbackFilterChain _); [done|].
    by apply lookup_app_l_Some.
Qed.

(** X9: visit runs the secure-virtual-host case on the secure virtual hosts
    it reaches, in order, and does nothing else to the listeners: on a visitor
    that holds the ingress_https listener it returns, only the filter chains
    of that listener change, and the http flag is set exactly when a
    VirtualHost is reached. On a visitor that does not hold that listener it
    panics as soon as the graph has a secure virtual host. *)
Theorem visit_folds_over_the_secure_hosts (vertex : dag.Vertex) (v : contour.listenerVisitor) :
  (∀ l, contour.listeners v !! contour.ENVOY_HTTPS_LISTENER = Some l →
     ∃ v', contour.visit v vertex = Done v' ∧
       contour.config v' = contour.config v ∧
       contour.http v' = contour.http v || dag.reachesVirtualHost vertex ∧
       contour.listeners v' !! contour.ENVOY_HTTPS_LISTENER
       = Some (contour.withFilterChains l
                 (contour.visitChains (contour.config v) (contour.secureHosts vertex)
                    (envoy.FilterChains l))) ∧
       ∀ k, k ≠ contour.ENVOY_HTTPS_LISTENER →
            contour.listeners v' !! k = contour.listeners v !! k) ∧
  (contour.listeners v !! contour.ENVOY_HTTPS_LISTENER = None →
     (contour.secureHosts vertex ≠ [] → contour.visit v vertex = Panics) ∧
     (contour.secureHosts vertex = [] →
      ∃ v', contour.visit v vertex = Done v' ∧
            contour.listeners v' = contour.listeners v ∧
            contour.http v' = contour.http v || dag.reachesVirtualHost vertex)).
Proof.
  split.
  - intros l Hl. eexists. split; [by apply visit_fold|]. cbn. split_and!; [done..| |].
    + apply lookup_insert_eq.
    + intros k Hk. by rewrite lookup_insert_ne.
  - intros Hl. rewrite (visit_without_listener vertex v Hl). split.
    + intros Hne. by destruct (contour.secureHosts vertex).
    + intros ->. cbn. eauto.
Qed.

End more_visitor.

(** ** contour/listener.go: visitListeners *)

Section more_listeners.
Context `{envoy.Deps} `{Floats} `{contour.VisitDeps}.

Ltac lookups :=
  repeat (rewrite lookup_insert_eq || (rewrite lookup_insert_ne by done) ||
          rewrite lookup_singleton_eq || (rewrite lookup_singleton_ne by done) ||
          rewrite lookup_delete_eq || (rewrite lookup_delete_ne by done)).

(** The listeners visitListeners returns, key by key. *)
Lemma visitListeners_lookup (ip : option envoy.ListenerFilter) (root : dag.Vertex)
    (lvc : contour.ListenerVisitorConfig) (la : contour.ListenerAddresses) :
  let chains := (contour.visitChains lvc (contour.secureHosts root) [] ++
                 contour.defaultCertificateChains lvc root)%list in
  ∃ m, contour.visitListeners ip root lvc la = Done m ∧
    (∀ k, k ≠ contour.ENVOY_HTTP_LISTENER → k ≠ contour.ENVOY_HTTPS_LISTENER → m !! k = None) ∧
    m !! contour.ENVOY_HTTP_LISTENER
    = (if dag.reachesVirtualHost root
       then Some (envoy.NewListener contour.ENVOY_HTTP_LISTENER (contour.httpAddress la)
                    (contour.httpPort la)
                    (contour.proxyProtocol (contour.UseProxyProto la) ++
                     contour.CustomListenerFilters ip)
                    [contour.connectionManager contour.ENVOY_HTTP_LISTENER
                       (contour.newInsecureAccessLog lvc la) (contour.requestTimeout lvc)])
       else None) ∧
    m !! contour.ENVOY_HTTPS_LISTENER
    = (if nonempty chains
       then Some (contour.withFilterChains
                    (envoy.NewListener contour.ENVOY_HTTPS_LISTENER (contour.httpsAddress la)
                       (contour.httpsPort la)
                       (contour.secureProxyProtocol (contour.UseProxyProto la) ++
                        contour.CustomListenerFilters ip)
                       [])
                    (sort_Stable contour.filterChainLess chains))
       else None).
Proof.
  cbn zeta. unfold contour.visitListeners.
  erewrite visit_fold by apply lookup_singleton_eq.
  cbn [mbind run_bind contour.http contour.listeners contour.config orb].
  rewrite insert_singleton_eq.
  set (L0 := envoy.NewListener contour.ENVOY_HTTPS_LISTENER _ _ _ []).
  set (Lh := envoy.NewListener contour.ENVOY_HTTP_LISTENER _ _ _ _).
  change (envoy.FilterChains L0) with (@nil envoy.FilterChain).
  set (vc := contour.visitChains lvc (contour.secureHosts root) []).
  assert (Hne : contour.ENVOY_HTTP_LISTENER ≠ contour.ENVOY_HTTPS_LISTENER) by done.
  assert (Hne' : contour.ENVOY_HTTPS_LISTENER ≠ contour.ENVOY_HTTP_LISTENER) by done.
  unfold contour.defaultCertificateChains.
  destruct (negb (String.eqb (contour.DefaultCertificate lvc) "")) eqn:Hdc;
    [destruct (contour.visitSecretsAsDag root !! contour.DefaultCertificate lvc)
       as [secret|] eqn:Hsec|];
    rewrite ?app_nil_r;
    destruct (dag.reachesVirtualHost root);
    lookups; cbn [mbind run_bind]; lookups;
    cbn [contour.withFilterChains envoy.FilterChains];
    match goal with
    | |- context [nonempty ?l] => destruct l eqn:Hl; cbn [nonempty]
    end;
    try (by destruct vc);
    (eexists; split; [done|]; split_and!; [intros k Hk1 Hk2|..]; by lookups).
Qed.

Lemma served_perm (n : string) (fcs fcs' : list envoy.FilterChain) :
  fcs ≡ₚ fcs' → contour.served n fcs ↔ contour.served n fcs'.
Proof. intros Hp. unfold contour.served. by setoid_rewrite Hp. Qed.

Lemma served_defaultCertificateChains (lvc : contour.ListenerVisitorConfig)
    (root : dag.Vertex) (n : string) :
  contour.served n (contour.defaultCertificateChains lvc root) ↔
  n = "" ∧ contour.defaultCertificateChains lvc root ≠ [].
Proof.
  unfold contour.defaultCertificateChains.
  destruct (negb _); [destruct (contour.visitSecretsAsDag root !! _)|];
    rewrite ?served_nil, ?served_cons, ?served_nil; cbn;
    rewrite ?list_elem_of_singleton; naive_solver.
Qed.

Lemma filter_length_perm {A : Type} (f : A → bool) (l l' : list A) :
  l ≡ₚ l' → length (List.filter f l) = length (List.filter f l').
Proof.
  induction 1 as [|x l l' _ IH|x y l|l l' l'' _ IH1 _ IH2]; cbn.
  - done.
  - destruct (f x); cbn; by rewrite IH.
  - by destruct (f x), (f y).
  - by rewrite IH1.
Qed.

Lemma fallbackChains_defaultCertificateChains (lvc : contour.ListenerVisitorConfig)
    (root : dag.Vertex) :
  contour.fallbackChains (contour.defaultCertificateChains lvc root) = [].
Proof.
  unfold contour.defaultCertificateChains.
  destruct (negb _); [destruct (contour.visitSecretsAsDag root !! _)|]; done.
Qed.

(** X10: visitListeners always returns, with at most the two listeners
    ingress_http and ingress_https. The first is there exactly when the graph
    reaches a VirtualHost. The second is there exactly when there is a filter
    chain to put on it: its chains are those the visit of the secure virtual
    hosts left, then the catch-all chain of the default certificate if it is
    configured and found, reordered by the sorter; a listener without filter
    chains is never returned. *)
Theorem visitListeners_returns_the_two_listeners (ip : option envoy.ListenerFilter)
    (root : dag.Vertex) (lvc : contour.ListenerVisitorConfig) (la : contour.ListenerAddresses) :
  ∃ m, contour.visitListeners ip root lvc la = Done m ∧
    (∀ k, is_Some (m !! k) →
          k = contour.ENVOY_HTTP_LISTENER ∨ k = contour.ENVOY_HTTPS_LISTENER) ∧
    (is_Some (m !! contour.ENVOY_HTTP_LISTENER) ↔ dag.reachesVirtualHost root = true) ∧
    (is_Some (m !! contour.ENVOY_HTTPS_LISTENER) ↔
     contour.secureHosts root ≠ [] ∨ contour.defaultCertificateChains lvc root ≠ []) ∧
    (∀ l, m !! contour.ENVOY_HTTPS_LISTENER = Some l →
          envoy.FilterChains l ≠ [] ∧
          envoy.FilterChains l
          ≡ₚ (contour.visitChains lvc (contour.secureHosts root) [] ++
              contour.defaultCertificateChains lvc root)%list ∧
          envoy.Listener_Name l = contour.ENVOY_HTTPS_LISTENER ∧
          envoy.Listener_Address l = contour.httpsAddress la) ∧
    (∀ l, m !! contour.ENVOY_HTTP_LISTENER = Some l →
          envoy.Listener_Name l = contour.ENVOY_HTTP_LISTENER ∧
          envoy.Listener_Address l = contour.httpAddress la ∧
          ∃ cm, envoy.FilterChains l = [envoy.NewFilterChain [cm]]).
Proof.
  destruct (visitListeners_lookup ip root lvc la) as (m & Hm & Hother & Hhttp & Hhttps).
  cbn zeta in Hhttps.
  set (chains := (contour.visitChains lvc (contour.secureHosts root) [] ++
                  contour.defaultCertificateChains lvc root)%list) in *.
  assert (Hchains : nonempty chains = true ↔
            contour.secureHosts root ≠ [] ∨ contour.defaultCertificateChains lvc root ≠ []).
  { unfold chains. destruct (contour.secureHosts root) as [|vh vhs] eqn:Hsh.
    - cbn. destruct (contour.defaultCertificateChains lvc root); cbn; naive_solver.
    - assert (contour.served (dag.VirtualHost_Name (dag.SVH_VirtualHost vh))
                (contour.visitChains lvc (vh :: vhs) [])) as (fc & Hin & _).
      { apply served_visitChains. right. rewrite fmap_cons. apply elem_of_cons. by left. }
      destruct (contour.visitChains lvc (vh :: vhs) []); [by apply elem_of_nil in Hin|].
      cbn. naive_solver. }
  exists m. split; [done|]. split_and!.
  - intros k [l Hl].
    destruct (decide (k = contour.ENVOY_HTTP_LISTENER)) as [|Hk1]; [by left|].
    destruct (decide (k = contour.ENVOY_HTTPS_LISTENER)) as [|Hk2]; [by right|].
    rewrite Hother in Hl by done. done.
  - rewrite Hhttp. destruct (dag.reachesVirtualHost root); [naive_solver|].
    split; [by intros [? ?]|done].
  - rewrite Hhttps, <- Hchains. destruct (nonempty chains); [naive_solver|].
    split; [by intros [? ?]|done].
  - intros l. rewrite Hhttps. destruct (nonempty chains) eqn:Hne; [|done].
    intros [= <-]. cbn. split_and!; [|apply sort_Stable_perm|done..].
    intros Hnil. apply (f_equal length) in Hnil. rewrite sort_Stable_length in Hnil.
    destruct chains; done.
  - intros l. rewrite Hhttp. destruct (dag.reachesVirtualHost root); [|done].
    intros [= <-]. cbn. eauto.
Qed.

(** X11: the names the ingress_https listener answers to after
    visitListeners are exactly the names of the secure virtual hosts of the
    graph, and the empty name when the catch-all chain of the default
    certificate was added. *)
Theorem visitListeners_serves_exactly_the_secure_hosts (ip : option envoy.ListenerFilter)
    (root : dag.Vertex) (lvc : contour.ListenerVisitorConfig) (la : contour.ListenerAddresses) :
  ∃ m, contour.visitListeners ip root lvc la = Done m ∧
    ∀ n, (∃ l, m !! contour.ENVOY_HTTPS_LISTENER = Some l ∧
               contour.served n (envoy.FilterChains l)) ↔
         n ∈ (fun vh => dag.VirtualHost_Name (dag.SVH_VirtualHost vh))
               <$> contour.secureHosts root ∨
         (n = "" ∧ contour.defaultCertificateChains lvc root ≠ []).
Proof.
  destruct (visitListeners_lookup ip root lvc la) as (m & Hm & _ & _ & Hhttps).
  cbn zeta in Hhttps.
  set (chains := (contour.visitChains lvc (contour.secureHosts root) [] ++
                  contour.defaultCertificateChains lvc root)%list) in *.
  assert (Hserved : ∀ n, contour.served n chains ↔
            n ∈ (fun vh => dag.VirtualHost_Name (dag.SVH_VirtualHost vh))
                  <$> contour.secureHosts root ∨
            (n = "" ∧ contour.defaultCertificateChains lvc root ≠ [])).
  { intros n. unfold chains.
    rewrite served_app, served_visitChains, served_nil, served_defaultCertificateChains.
    naive_solver. }
  exists m. split; [done|]. intros n. rewrite <- Hserved, Hhttps.
  destruct (nonempty chains) eqn:Hne.
  - split.
    + intros (l & [= <-] & Hs). cbn in Hs. by rewrite (served_perm _ _ _ (sort_Stable_perm _ _)) in Hs.
    + intros Hs. eexists. split; [done|]. cbn.
      by rewrite (served_perm _ _ _ (sort_Stable_perm _ _)).
  - destruct chains; [|done]. rewrite served_nil. split; [by intros (? & ? & _)|done].
Qed.

(** X12: after visitListeners the ingress_https listener has at most one
    chain named fallback-certificate, and it has one exactly when some secure
    virtual host of the graph enables the fallback certificate. *)
Theorem visitListeners_has_one_fallback_chain (ip : option envoy.ListenerFilter)
    (root : dag.Vertex) (lvc : contour.ListenerVisitorConfig) (la : contour.ListenerAddresses) :
  ∃ m, contour.visitListeners ip root lvc la = Done m ∧
    ∀ l, m !! contour.ENVOY_HTTPS_LISTENER = Some l →
      (length (contour.fallbackChains (envoy.FilterChains l)) ≤ 1)%nat ∧
      (length (contour.fallbackChains (envoy.FilterChains l)) = 1%nat ↔
       ∃ vh, vh ∈ contour.secureHosts root ∧ is_Some (dag.FallbackCertificate vh)).
Proof.
  destruct (visitListeners_lookup ip root lvc la) as (m & Hm & _ & _ & Hhttps).
  cbn zeta in Hhttps. exists m. split; [done|]. intros l. rewrite Hhttps.
  destruct (nonempty _); [|done]. intros [= <-]. cbn [contour.withFilterChains envoy.FilterChains].
  unfold contour.fallbackChains at 1 2.
  rewrite (filter_length_perm _ _ _ (sort_Stable_perm _ _)).
  fold (contour.fallbackChains
          (contour.visitChains lvc (contour.secureHosts root) [] ++
           contour.defaultCertificateChains lvc root)).
  rewrite fallbackChains_app, fallbackChains_defaultCertificateChains, app_nil_r.
  rewrite fallbackChains_visitChains. cbn [contour.fallbackChains List.filter length].
  destruct (existsb _ _) eqn:Hex.
  - split; [lia|]. split; [intros _|done].
    apply existsb_exists in Hex as (vh & Hin & Hfb).
    exists vh. split; [by apply list_elem_of_In|]. by apply bool_decide_eq_true in Hfb.
  - split; [lia|]. split; [done|]. intros (vh & Hin & Hfb).
    assert (existsb (fun vh => bool_decide (is_Some (dag.FallbackCertificate vh)))
              (contour.secureHosts root) = true); [|congruence].
    apply existsb_exists. exists vh. split; [by apply list_elem_of_In|].
    by apply bool_decide_eq_true.
Qed.

End more_listeners.

(** ** dag/builder_adobe.go: more on the walks *)

Section more_walks.
Context `{dag.Deps}.

#[local] Existing Instance keeps_refl.
#[local] Existing Instance keeps_trans.
#[local] Existing Instance frames_refl.
#[local] Existing Instance frames_trans.

(** X13: a resource is built entry by entry, and a failure does not undo
    what was built: when terminal entries that build are followed by a
    terminal entry that fails one of the checks, the loop returns with the
    resource set Invalid with that entry's message, the routes of the entries
    before it stay on the virtual host, in order, and the entries after it are
    not looked at. *)
Theorem routes_before_a_failing_entry_stay
    (recurse : dag.Builder → dag.ObjectStatusWriter → dag.IngressRoute → string →
               run (dag.Builder * dag.ObjectStatusWriter))
    (ir : dag.IngressRoute) (prefixMatch : string) (visited : list dag.IngressRoute)
    (host : string) (enforceTLS : bool) (pre : list dag.RouteIn) (bad : dag.RouteIn)
    (rest : list dag.RouteIn) (rs : list dag.Route) (msg : string)
    (b : dag.Builder) (sw : dag.ObjectStatusWriter) :
  Forall (fun route => nonempty (dag.Services route) = true ∧ dag.Route_Delegate route = None)
    pre →
  mapM (fun route => dag.buildRoute b ir route prefixMatch enforceTLS) pre = Ok rs →
  nonempty (dag.Services bad) = true →
  dag.Route_Delegate bad = None →
  dag.buildRoute b ir bad prefixMatch enforceTLS = Err msg →
  ∃ b', dag.routesLoop recurse ir prefixMatch visited host enforceTLS (pre ++ bad :: rest) b sw
        = Done (b', dag.SetInvalid sw msg) ∧
        b' = foldl (fun b r => dag.addRoutes b host r enforceTLS) b rs ∧
        dag.routes (dag.lookupVirtualHost b' host)
        = (dag.routes (dag.lookupVirtualHost b host) ++ rs)%list ∧
        dag.statuses b' = dag.statuses b.
Proof.
  intros Hpre Hrs Hsv Hdel Hbad. eexists. split; [|split; [reflexivity|]].
  - revert b rs Hrs Hbad. induction Hpre as [|route pre [Hs Hd] _ IH]; intros b rs Hrs Hbad.
    + cbn in Hrs. injection Hrs as <-. cbn [app foldl dag.routesLoop].
      by rewrite Hsv, Hdel, Hbad.
    + cbn in Hrs.
      destruct (dag.buildRoute b ir route prefixMatch enforceTLS) as [r|e] eqn:Hr; [|done].
      cbn in Hrs.
      destruct (mapM _ pre) as [rs'|e] eqn:Hrs'; [|done]. cbn in Hrs. injection Hrs as <-.
      pose proof (routesLoop_terminal recurse ir prefixMatch visited host enforceTLS route
                    (pre ++ bad :: rest) b sw Hs) as Hstep.
      rewrite Hr in Hstep. cbn [app]. rewrite (Hstep Hd). cbn [foldl].
      apply IH.
      * rewrite <- Hrs'. apply mapM_pointwise. intros route'. apply buildRoute_addRoutes.
      * by rewrite buildRoute_addRoutes.
  - clear. revert b. induction rs as [|r rs IH]; intros b; cbn [foldl].
    + by rewrite app_nil_r.
    + destruct (IH (dag.addRoutes b host r enforceTLS)) as [-> ->].
      rewrite lookupVirtualHost_addRoutes. cbn. rewrite <- app_assoc. split; [done|].
      unfold dag.addRoutes. by destruct enforceTLS.
Qed.

Lemma aliasedConds_last (hms hms' : list Opaque) :
  length hms = length hms' → last hms = last hms' →
  dag.aliasedConds hms = dag.aliasedConds hms'.
Proof. intros Hlen Hlast. unfold dag.aliasedConds. by rewrite Hlen, Hlast. Qed.

(** X14: every header condition of a route entry holds the address of the
    one loop variable, so what is validated and merged is the last header
    match, once per header match: two entries that differ only in the header
    matches before the last one build the same Route, or fail alike. With a
    single header match the conditions are that header match. *)
Theorem only_the_last_header_match_counts (b : dag.Builder) (ir : dag.IngressRoute)
    (route : dag.RouteIn) (hms hms' : list Opaque) (prefixMatch : string) (enforceTLS : bool) :
  length hms = length hms' →
  last hms = last hms' →
  dag.buildRoute b ir (dag.withHeaderMatch route hms) prefixMatch enforceTLS
  = dag.buildRoute b ir (dag.withHeaderMatch route hms') prefixMatch enforceTLS ∧
  dag.headerConditions (dag.withHeaderMatch route hms)
  = (if nonempty hms
     then if dag.headerConditionsValid (replicate (length hms) (default (opaque "") (last hms)))
          then Ok (dag.mergeHeaderConditions
                     (replicate (length hms) (default (opaque "") (last hms))))
          else Err "cannot specify duplicate header 'exact match' conditions in the same route"
     else Ok []).
Proof.
  intros Hlen Hlast. split.
  - unfold dag.buildRoute. cbn.
    assert (dag.headerConditions (dag.withHeaderMatch route hms)
            = dag.headerConditions (dag.withHeaderMatch route hms')) as ->; [|done].
    unfold dag.headerConditions. cbn. rewrite (aliasedConds_last hms hms') by done.
    by destruct hms, hms'.
  - unfold dag.headerConditions, dag.aliasedConds. cbn.
    destruct hms as [|hm hms]; [done|]. cbn [nonempty].
    destruct (last (hm :: hms)) as [x|] eqn:Hl; [done|]. by apply last_None in Hl.
Qed.

(** X15: processIngressRouteTCPProxy reads ir.Spec.TCPProxy without a nil
    check. On a root that terminates or passes through TLS, a tcpproxy that
    delegates to an object that exists, is not on the path and has no
    tcpproxy block of its own makes the walk, and with it computeIngressRoute,
    panic. *)
Theorem tcpproxy_delegation_to_an_object_without_tcpproxy_panics
    (b : dag.Builder) (ir dest : dag.IngressRoute) (vh : dag.VirtualHostIn)
    (tcpproxy : dag.TCPProxyIn) (d : dag.Delegate)
    (b1 : dag.Builder) (enforceTLS passthrough : bool) :
  dag.Spec_VirtualHost ir = Some vh →
  dag.rootAllowed (dag.Namespace ir) = true →
  dag.isBlank (dag.Fqdn vh) = false →
  dag.virtualHostTLS b ir vh = Ok (b1, enforceTLS, passthrough) →
  passthrough || enforceTLS = true →
  dag.Spec_TCPProxy ir = Some tcpproxy →
  dag.TCPProxy_Services tcpproxy = [] →
  dag.TCPProxy_Delegate tcpproxy = Some d →
  dag.ingressroutes b !! (dag.delegateNamespace d ir, dag.Delegate_Name d) = Some dest →
  dag.fullName dest ≠ dag.fullName ir →
  dag.Spec_TCPProxy dest = None →
  (∀ sw, dag.processIngressRouteTCPProxy (dag.walkFuel b) b1 sw ir [] (dag.Fqdn vh) = Panics) ∧
  dag.computeIngressRoute b ir = Panics.
Proof.
  intros Hvh Hroot Hblank Htls Hmode Htcp Hsv Hd Hk Hne Hdest.
  assert (Hsrc : dag.ingressroutes b1 = dag.ingressroutes b).
  { by destruct (virtualHostTLS_keeps b b1 ir vh enforceTLS passthrough Htls) as [[-> _ _ _] _]. }
  assert (Hfuel : ∃ n, dag.walkFuel b = S (S n)).
  { unfold dag.walkFuel. destruct (size (dag.ingressroutes b)) eqn:Hsize; [|eauto].
    apply map_size_empty_iff in Hsize. rewrite Hsize, lookup_empty in Hk. done. }
  destruct Hfuel as [n Hn].
  assert (Hwalk : ∀ sw,
            dag.processIngressRouteTCPProxy (dag.walkFuel b) b1 sw ir [] (dag.Fqdn vh) = Panics).
  { intros sw. rewrite Hn. cbn [dag.processIngressRouteTCPProxy app].
    rewrite Htcp, Hsv, Hd, Hsrc, Hk. cbn [nonempty andb].
    assert (dag.onPath dest [ir] = false) as ->.
    { apply not_true_is_false. rewrite onPath_spec. cbn.
      rewrite list_elem_of_singleton. done. }
    by rewrite Hdest. }
  split; [done|].
  unfold dag.computeIngressRoute. rewrite Hvh, Hroot, Hblank. cbn [negb].
  rewrite Htls, Htcp, Hmode. rewrite (bool_decide_eq_true_2 (is_Some _)) by eauto.
  cbn [andb]. by rewrite Hwalk.
Qed.

Lemma tcpClusters_weights (ir : dag.IngressRoute) (services : list dag.ServiceIn)
    (clusters : list dag.Cluster) :
  mapM (dag.tcpCluster ir) services = Ok clusters →
  length clusters = length services ∧ Forall (fun c => dag.Weight c = 0) clusters.
Proof.
  revert clusters. induction services as [|service services IH]; intros clusters Hm.
  - cbn in Hm. by injection Hm as <-.
  - rewrite mapM_cons_result in Hm. unfold dag.tcpCluster at 1 in Hm.
    destruct (dag.lookupService _ _) as [s|]; [|done].
    destruct (mapM _ services) as [cs|] eqn:Hcs; [|done]. injection Hm as <-.
    destruct (IH cs eq_refl) as [Hlen Hw]. cbn. split; [by rewrite Hlen|].
    by constructor.
Qed.

Lemma tcpClusters_found (ir : dag.IngressRoute) (services : list dag.ServiceIn) :
  Forall (fun service =>
            is_Some (dag.lookupService (dag.Namespace ir, dag.Service_Name service)
                       (dag.Service_Port service))) services →
  ∃ clusters, mapM (dag.tcpCluster ir) services = Ok clusters.
Proof.
  induction 1 as [|service services [s Hs] _ [cs IH]]; [by eexists|].
  rewrite mapM_cons_result. unfold dag.tcpCluster at 1. rewrite Hs, IH. by eexists.
Qed.

(** X16: the weights of the services of a tcpproxy are not read. When all
    its services are found, processIngressRouteTCPProxy sets the secure
    virtual host's TCP proxy to one cluster per service, each of weight zero,
    and sets the resource valid; the filter that envoy.TCPProxy builds from
    two or more such clusters gives every cluster the weight 1. *)
Theorem tcpproxy_service_weights_are_ignored `{envoy.Deps}
    (fuel : nat) (b : dag.Builder) (sw : dag.ObjectStatusWriter) (ir : dag.IngressRoute)
    (visited : list dag.IngressRoute) (host : string) (tcpproxy : dag.TCPProxyIn) :
  dag.Spec_TCPProxy ir = Some tcpproxy →
  dag.TCPProxy_Delegate tcpproxy = None →
  dag.TCPProxy_Services tcpproxy ≠ [] →
  Forall (fun service =>
            is_Some (dag.lookupService (dag.Namespace ir, dag.Service_Name service)
                       (dag.Service_Port service))) (dag.TCPProxy_Services tcpproxy) →
  ∃ proxy,
    dag.processIngressRouteTCPProxy (S fuel) b sw ir visited host
    = Done (dag.setTCPProxy b host proxy, dag.SetValid sw) ∧
    length (dag.TCPProxy_Clusters proxy) = length (dag.TCPProxy_Services tcpproxy) ∧
    Forall (fun c => dag.Weight c = 0) (dag.TCPProxy_Clusters proxy) ∧
    (length (dag.TCPProxy_Services tcpproxy) ≠ 1%nat →
     ∀ statPrefix accesslogger,
       ∃ cs, envoy.ConfigType (envoy.TCPProxy statPrefix proxy accesslogger)
             = envoy.Config_TcpProxy
                 {| envoy.TcpProxy_StatPrefix := statPrefix;
                    envoy.TcpProxy_ClusterSpecifier := envoy.TcpProxy_WeightedClusters cs;
                    envoy.TcpProxy_AccessLog := accesslogger;
                    envoy.TcpProxy_IdleTimeout := 9001 * dag.time_Second |} ∧
             length cs = length (dag.TCPProxy_Services tcpproxy) ∧
             Forall (fun c => envoy.TcpClusterWeight_Weight c = 1) cs).
Proof.
  intros Htcp Hd Hne Hfound.
  destruct (tcpClusters_found ir _ Hfound) as [clusters Hclusters].
  destruct (tcpClusters_weights ir _ _ Hclusters) as [Hlen Hw].
  exists {| dag.TCPProxy_Clusters := clusters |}. split_and!.
  - cbn [dag.processIngressRouteTCPProxy]. rewrite Htcp, Hd, Hclusters.
    destruct (dag.TCPProxy_Services tcpproxy); [done|]. cbn [nonempty andb].
    by rewrite bool_decide_eq_false_2 by (by intros [? ?]).
  - done.
  - done.
  - intros Hlen1 statPrefix accesslogger. rewrite <- Hlen in Hlen1 |- *.
    unfold envoy.TCPProxy. cbn [dag.TCPProxy_Clusters].
    eexists (sort_Stable envoy.tcpClusterWeightLess (envoy.tcpClusterWeight <$> clusters)).
    split_and!.
    + by destruct clusters as [|c [|c' cs]].
    + by rewrite sort_Stable_length, length_fmap.
    + rewrite (sort_Stable_perm _ _). apply Forall_fmap.
      eapply Forall_impl; [exact Hw|]. intros c Hc. cbn. by rewrite Hc.
Qed.

(** X17: computing a root changes nothing under another FQDN, also when it
    delegates to another root: every VirtualHost and SecureVirtualHost but
    the root's own is left as it was, the source and the committed status
    calls are kept, and the routes the own virtual host had stay in front. *)
Theorem a_root_builds_only_its_own_host (b b' : dag.Builder) (ir : dag.IngressRoute) :
  dag.computeIngressRoute b ir = Done b' →
  (∀ h, dag.Fqdn <$> dag.Spec_VirtualHost ir ≠ Some h →
        dag.virtualhosts b' !! h = dag.virtualhosts b !! h ∧
        dag.securevirtualhosts b' !! h = dag.securevirtualhosts b !! h) ∧
  dag.ingressroutes b' = dag.ingressroutes b ∧
  dag.statuses b `prefix_of` dag.statuses b' ∧
  (∀ h vh, dag.virtualhosts b !! h = Some vh →
           ∃ vh', dag.virtualhosts b' !! h = Some vh' ∧ dag.routes vh `prefix_of` dag.routes vh').
Proof.
  intros Hc. pose proof (computeIngressRoute_ends b ir) as Hends. rewrite Hc in Hends.
  destruct Hends as [[Hsrc _ Hst Hroutes] Hframe]. done.
Qed.

(** X18: a route entry that names no service and no delegate, or a delegate
    that is not in the snapshot, is skipped without a word: a resource made
    of such entries only (or of none) is set Valid, and nothing is built or
    committed for it by the walk. *)
Theorem unresolvable_entries_are_skipped (fuel : nat) (b : dag.Builder)
    (sw : dag.ObjectStatusWriter) (ir : dag.IngressRoute) (prefixMatch : string)
    (visited : list dag.IngressRoute) (host : string) (enforceTLS : bool) :
  Forall (fun route =>
            dag.Services route = [] ∧
            ∀ d, dag.Route_Delegate route = Some d →
                 dag.ingressroutes b !! (dag.delegateNamespace d ir, dag.Delegate_Name d) = None)
    (dag.Spec_Routes ir) →
  dag.processIngressRoutes (S fuel) b sw ir prefixMatch visited host enforceTLS
  = Done (b, dag.SetValid sw).
Proof.
  rewrite processIngressRoutes_S. generalize (visited ++ [ir])%list. intros visited'.
  induction 1 as [|route rest [Hs Hd] _ IH]; [done|].
  cbn [dag.routesLoop]. rewrite Hs. cbn [nonempty andb].
  destruct (dag.Route_Delegate route) as [d|]; [|done].
  by rewrite (Hd d eq_refl).
Qed.

(** *** What a walk preserves *)

Section walk_invariant.
Context (R : relation dag.Builder) `{!PreOrder R}.
Context (host : string) (enforceTLS : bool).
Hypothesis R_commit : ∀ b sw, R b (dag.commit b sw).
Hypothesis R_unorphan : ∀ b dest, R b (dag.unorphan b dest).
Hypothesis R_addRoutes : ∀ b r, R b (dag.addRoutes b host r enforceTLS).

Lemma routesLoop_invariant
    (recurse : dag.Builder → dag.ObjectStatusWriter → dag.IngressRoute → string →
               run (dag.Builder * dag.ObjectStatusWriter))
    (ir : dag.IngressRoute) (prefixMatch : string) (visited : list dag.IngressRoute) :
  (∀ b sw dest prefix' b' sw', recurse b sw dest prefix' = Done (b', sw') → R b b') →
  ∀ rts b sw b' sw',
    dag.routesLoop recurse ir prefixMatch visited host enforceTLS rts b sw = Done (b', sw') →
    R b b'.
Proof.
  intros Hrec. induction rts as [|route rest IH]; intros b sw b' sw'; cbn [dag.routesLoop].
  { by intros [= <- _]. }
  destruct (nonempty (dag.Services route) && _); [by intros [= <- _]|].
  destruct (nonempty (dag.Services route)).
  { destruct (dag.buildRoute b ir route prefixMatch enforceTLS) as [r|msg].
    - intros Hloop. etrans; [apply R_addRoutes|]. by eapply IH.
    - by intros [= <- _]. }
  destruct (dag.Route_Delegate route) as [d|]; [|by apply IH].
  destruct (dag.ingressroutes b !! _) as [dest|]; [|by apply IH].
  destruct (dag.onPath dest visited).
  { intros [= <- _]. apply R_unorphan. }
  destruct (recurse _ _ dest _) as [[b2 swd]| |] eqn:Hr; [|done|done].
  intros Hloop. etrans; [apply R_unorphan|]. etrans; [by eapply Hrec|].
  etrans; [apply R_commit|]. by eapply IH.
Qed.

Lemma processIngressRoutes_invariant (fuel : nat) :
  ∀ b sw ir prefixMatch visited b' sw',
    dag.processIngressRoutes fuel b sw ir prefixMatch visited host enforceTLS = Done (b', sw') →
    R b b'.
Proof.
  induction fuel as [|fuel IH]; intros b sw ir prefixMatch visited b' sw'; [done|].
  rewrite processIngressRoutes_S. apply routesLoop_invariant.
  intros b0 sw0 dest prefix' b0' sw0'. apply IH.
Qed.

Hypothesis R_setTCPProxy : ∀ b p, R b (dag.setTCPProxy b host p).

Lemma processIngressRouteTCPProxy_invariant (fuel : nat) :
  ∀ b sw ir visited b' sw',
    dag.processIngressRouteTCPProxy fuel b sw ir visited host = Done (b', sw') →
    R b b' ∧ dag.osw_obj sw' = dag.osw_obj sw.
Proof.
  induction fuel as [|fuel IH]; intros b sw ir visited b' sw'; [done|].
  cbn [dag.processIngressRouteTCPProxy].
  destruct (dag.Spec_TCPProxy ir) as [tcpproxy|]; [|done].
  destruct (nonempty (dag.TCPProxy_Services tcpproxy) && _); [by intros [= <- <-]|].
  destruct (nonempty (dag.TCPProxy_Services tcpproxy)).
  { destruct (mapM _ _); intros [= <- <-]; [|done]. split; [apply R_setTCPProxy|done]. }
  destruct (dag.TCPProxy_Delegate tcpproxy) as [d|]; [|by intros [= <- <-]].
  destruct (dag.ingressroutes b !! _) as [dest|]; [|by intros [= <- <-]].
  destruct (dag.onPath dest _).
  { intros [= <- <-]. split; [apply R_unorphan|done]. }
  destruct (dag.processIngressRouteTCPProxy fuel _ _ dest _ host) as [[b2 swd]| |] eqn:Hr;
    [|done|done].
  intros [= <- <-]. split; [|done]. apply IH in Hr as [Hr _].
  etrans; [apply R_unorphan|]. etrans; [exact Hr|apply R_commit].
Qed.

End walk_invariant.

(** *** The steps of computeIngressRoute on a root *)

Lemma computeIngressRoute_steps (b b' : dag.Builder) (ir : dag.IngressRoute)
    (vh : dag.VirtualHostIn) :
  dag.Spec_VirtualHost ir = Some vh →
  dag.computeIngressRoute b ir = Done b' →
  (∃ sw', b' = dag.commit b sw' ∧ dag.osw_obj sw' = dag.fullName ir ∧
          is_Some (dag.osw_status sw')) ∨
  ∃ b1 enforceTLS passthrough b2 sw2 b3 sw3,
    dag.virtualHostTLS b ir vh = Ok (b1, enforceTLS, passthrough) ∧
    (if bool_decide (is_Some (dag.Spec_TCPProxy ir)) && (passthrough || enforceTLS)
     then dag.processIngressRouteTCPProxy (dag.walkFuel b) b1
            (dag.WithValue_vhost (dag.WithObject ir) (dag.Fqdn vh)) ir [] (dag.Fqdn vh)
     else Done (b1, dag.WithValue_vhost (dag.WithObject ir) (dag.Fqdn vh)))
    = Done (b2, sw2) ∧
    dag.processIngressRoutes (dag.walkFuel b) b2 sw2 ir "" [] (dag.Fqdn vh)
      (bool_decide (dag.Spec_TCPProxy ir = None) && enforceTLS) = Done (b3, sw3) ∧
    b' = dag.commit b3 sw3.
Proof.
  intros Hvh. unfold dag.computeIngressRoute. rewrite Hvh.
  destruct (negb (dag.rootAllowed _));
    [intros [= <-]; left; eexists; split_and!; [done|done|by eexists]|].
  destruct (dag.isBlank _); [intros [= <-]; left; eexists; split_and!; [done|done|by eexists]|].
  destruct (dag.virtualHostTLS b ir vh) as [[[b1 enforceTLS] passthrough]|msg];
    [|intros [= <-]; left; eexists; split_and!; [done|done|by eexists]].
  destruct (if _ && _ then _ else _) as [[b2 sw2]| |] eqn:Htcp; [|done|done].
  cbn [mbind run_bind fst snd].
  destruct (dag.processIngressRoutes _ b2 sw2 _ _ _ _ _) as [[b3 sw3]| |] eqn:Hwalk;
    [|done|done].
  cbn [mbind run_bind fst snd]. intros [= <-]. right.
  by exists b1, enforceTLS, passthrough, b2, sw2, b3, sw3.
Qed.

#[local] Instance secureRoutes_preorder :
  PreOrder (fun b b' : dag.Builder => ∀ h, dag.secureRoutes b' h = dag.secureRoutes b h).
Proof. split; [done|]. intros b1 b2 b3 H12 H23 h. by rewrite H23. Qed.

Lemma secureRoutes_setTCPProxy (b : dag.Builder) (host : string) (p : dag.TCPProxy) (h : string) :
  dag.secureRoutes (dag.setTCPProxy b host p) h = dag.secureRoutes b h.
Proof.
  unfold dag.secureRoutes, dag.lookupSecureVirtualHost at 1, dag.setTCPProxy. cbn.
  destruct (decide (h = host)) as [->|Hne].
  - by rewrite lookup_insert_eq.
  - by rewrite lookup_insert_ne.
Qed.

Lemma secureRoutes_virtualHostTLS (b b1 : dag.Builder) (ir : dag.IngressRoute)
    (vh : dag.VirtualHostIn) (enforceTLS passthrough : bool) (h : string) :
  dag.virtualHostTLS b ir vh = Ok (b1, enforceTLS, passthrough) →
  dag.secureRoutes b1 h = dag.secureRoutes b h.
Proof.
  unfold dag.virtualHostTLS. destruct (dag.VirtualHost_TLS vh) as [tls|]; [|by intros [= <- _ _]].
  destruct (_ && _); [by intros [= <- _ _]|].
  destruct (dag.lookupSecret _); [|done]. destruct (negb _); [done|]. intros [= <- _ _].
  unfold dag.secureRoutes, dag.lookupSecureVirtualHost at 1. cbn.
  destruct (decide (h = dag.Fqdn vh)) as [->|Hne].
  - by rewrite lookup_insert_eq.
  - by rewrite lookup_insert_ne.
Qed.

(** X19: a root with a tcpproxy block gets no HTTP route on a secure virtual
    host: its routes are walked with TLS not enforced, so whatever its TLS
    block says, computeIngressRoute leaves the routes of every secure virtual
    host as they were. *)
Theorem a_tcpproxy_root_puts_no_route_on_the_secure_host (b b' : dag.Builder)
    (ir : dag.IngressRoute) :
  dag.computeIngressRoute b ir = Done b' →
  is_Some (dag.Spec_TCPProxy ir) →
  ∀ h, dag.secureRoutes b' h = dag.secureRoutes b h.
Proof.
  intros Hc [tcpproxy Htcp] h.
  destruct (dag.Spec_VirtualHost ir) as [vh|] eqn:Hvh.
  2:{ unfold dag.computeIngressRoute in Hc. rewrite Hvh in Hc. by injection Hc as <-. }
  destruct (computeIngressRoute_steps b b' ir vh Hvh Hc)
    as [(sw' & -> & _)|(b1 & e & p & b2 & sw2 & b3 & sw3 & Htls & Hproxy & Hwalk & ->)]; [done|].
  rewrite Htcp in Hwalk. rewrite bool_decide_eq_false_2 in Hwalk by done. cbn [andb] in Hwalk.
  change (dag.secureRoutes b3 h = dag.secureRoutes b h).
  set (R := fun b0 b0' : dag.Builder => ∀ h, dag.secureRoutes b0' h = dag.secureRoutes b0 h).
  transitivity (dag.secureRoutes b2 h).
  { apply (processIngressRoutes_invariant R (dag.Fqdn vh) false
             ltac:(done) ltac:(done) ltac:(done) _ _ _ _ _ _ _ _ Hwalk). }
  transitivity (dag.secureRoutes b1 h); [|by eapply secureRoutes_virtualHostTLS].
  destruct (_ && _).
  - apply (processIngressRouteTCPProxy_invariant R (dag.Fqdn vh)
             ltac:(done) ltac:(done)
             ltac:(intros b0 p0 h0; apply secureRoutes_setTCPProxy) _ _ _ _ _ _ _ Hproxy).
  - by injection Hproxy as <- _.
Qed.

#[local] Instance true_preorder : PreOrder (fun _ _ : dag.Builder => True).
Proof. by split. Qed.

#[local] Instance source_preorder :
  PreOrder (fun b b' : dag.Builder => dag.ingressroutes b' = dag.ingressroutes b).
Proof. split; [done|]. intros b1 b2 b3 H12 H23. congruence. Qed.

#[local] Instance orphaned_preorder :
  PreOrder (fun b b' : dag.Builder => dag.orphaned b' ⊆ dag.orphaned b).
Proof.
  split.
  - intros b. reflexivity.
  - intros b1 b2 b3 H12 H23. by transitivity (dag.orphaned b2).
Qed.

(** A root takes names out of the orphaned set, and puts none in. *)
Lemma computeIngressRoute_orphaned (b b' : dag.Builder) (ir : dag.IngressRoute) :
  dag.computeIngressRoute b ir = Done b' →
  match dag.Spec_VirtualHost ir with
  | None => dag.orphaned b' = {[ dag.fullName ir ]} ∪ dag.orphaned b
  | Some _ => dag.orphaned b' ⊆ dag.orphaned b
  end.
Proof.
  intros Hc. destruct (dag.Spec_VirtualHost ir) as [vh|] eqn:Hvh.
  2:{ unfold dag.computeIngressRoute in Hc. rewrite Hvh in Hc. by injection Hc as <-. }
  destruct (computeIngressRoute_steps b b' ir vh Hvh Hc)
    as [(sw' & -> & _)|(b1 & e & p & b2 & sw2 & b3 & sw3 & Htls & Hproxy & Hwalk & ->)]; [done|].
  change (dag.orphaned b3 ⊆ dag.orphaned b).
  assert (dag.orphaned b1 = dag.orphaned b) as <-.
  { clear Hproxy Hwalk Hc. revert Htls. unfold dag.virtualHostTLS.
    destruct (dag.VirtualHost_TLS vh) as [tls|]; [|by intros [= <- _ _]].
    destruct (_ && _); [by intros [= <- _ _]|].
    destruct (dag.lookupSecret _); [|done]. destruct (negb _); [done|]. by intros [= <- _ _]. }
  set (R := fun b0 b0' : dag.Builder => dag.orphaned b0' ⊆ dag.orphaned b0).
  assert (Hunorphan : ∀ b0 dest, R b0 (dag.unorphan b0 dest)).
  { intros b0 dest. unfold R. cbn. set_solver. }
  assert (Hcommit : ∀ b0 sw, R b0 (dag.commit b0 sw))
    by (intros; unfold R; cbn; reflexivity).
  assert (Hproxied : ∀ b0 p0, R b0 (dag.setTCPProxy b0 (dag.Fqdn vh) p0))
    by (intros; unfold R; cbn; reflexivity).
  assert (Hadd : ∀ e0 b0 r, R b0 (dag.addRoutes b0 (dag.Fqdn vh) r e0)).
  { intros e0 b0 r. unfold R, dag.addRoutes. destruct e0; cbn; reflexivity. }
  transitivity (dag.orphaned b2).
  { apply (processIngressRoutes_invariant R (dag.Fqdn vh) _ Hcommit Hunorphan (Hadd _)
             _ _ _ _ _ _ _ _ Hwalk). }
  destruct (_ && _).
  - apply (processIngressRouteTCPProxy_invariant R (dag.Fqdn vh) Hcommit Hunorphan
             Hproxied _ _ _ _ _ _ _ Hproxy).
  - injection Hproxy as <- _. reflexivity.
Qed.

(** The status call a computed object ends with: for a root, a call with an
    outcome. *)
Lemma computeIngressRoute_commits (b b' : dag.Builder) (ir : dag.IngressRoute) :
  dag.computeIngressRoute b ir = Done b' →
  ∃ b0 sw, b' = dag.commit b0 sw ∧ dag.osw_obj sw = dag.fullName ir ∧
           (is_Some (dag.Spec_VirtualHost ir) → is_Some (dag.osw_status sw)).
Proof.
  intros Hc. destruct (dag.Spec_VirtualHost ir) as [vh|] eqn:Hvh.
  2:{ unfold dag.computeIngressRoute in Hc. rewrite Hvh in Hc. injection Hc as <-.
      eexists _, _. split_and!; [done|done|]. by intros [? ?]. }
  destruct (computeIngressRoute_steps b b' ir vh Hvh Hc)
    as [(sw' & -> & Hobj & Hout)|(b1 & e & p & b2 & sw2 & b3 & sw3 & Htls & Hproxy & Hwalk & ->)].
  { by eexists _, _. }
  exists b3, sw3. split; [done|].
  assert (Hsw2 : dag.osw_obj sw2 = dag.fullName ir).
  { destruct (_ && _); [|by injection Hproxy as _ <-].
    by destruct (processIngressRouteTCPProxy_invariant (fun _ _ => True) (dag.Fqdn vh)
                   ltac:(done) ltac:(done) ltac:(done) _ _ _ _ _ _ _ Hproxy) as [_ ->]. }
  destruct (virtualHostTLS_keeps b b1 ir vh e p Htls) as [K1 _].
  assert (Hsrc2 : dag.ingressroutes b2 = dag.ingressroutes b).
  { rewrite <- (dag.keeps_source _ _ K1).
    destruct (_ && _); [|by injection Hproxy as <- _].
    by destruct (processIngressRouteTCPProxy_invariant
                   (fun b0 b0' => dag.ingressroutes b0' = dag.ingressroutes b0) (dag.Fqdn vh)
                   ltac:(done) ltac:(done) ltac:(done) _ _ _ _ _ _ _ Hproxy) as [-> _]. }
  destruct (processIngressRoutes_walked (dag.ingressroutes b2) (dag.walkFuel b) b2 sw2 ir ""
              [] (dag.Fqdn vh) (bool_decide (dag.Spec_TCPProxy ir = None) && e))
    as (b3' & sw3' & Hw & _ & _ & Hobj & _ & Hout); [done|by apply walkFuel_enough|].
  rewrite Hwalk in Hw. injection Hw as <- <-. split; [by rewrite Hobj|done].
Qed.

End more_walks.

(** ** dag/builder_adobe.go: all objects of a snapshot *)

Section more_roots.
Context `{dag.Deps} `{dag.RangeOrder}.

#[local] Existing Instance orphaned_preorder.

Lemma computeAll_statuses (irs : list dag.IngressRoute) :
  ∀ b b', dag.computeAll irs b = Done b' →
    ∀ ir, ir ∈ irs →
      ∃ sw, sw ∈ dag.statuses b' ∧ dag.osw_obj sw = dag.fullName ir ∧
            (is_Some (dag.Spec_VirtualHost ir) → is_Some (dag.osw_status sw)).
Proof.
  induction irs as [|ir0 irs IH]; intros b b' Hall ir Hin; [by apply elem_of_nil in Hin|].
  apply computeAll_done_cons in Hall as (b1 & Hone & Hrest).
  apply elem_of_cons in Hin as [->|Hin]; [|by eapply IH].
  apply computeIngressRoute_commits in Hone as (b0 & sw & -> & Hobj & Hout).
  exists sw. split; [|done].
  pose proof (computeAll_ends irs (dag.commit b0 sw)) as Hends. rewrite Hrest in Hends.
  destruct Hends as [[_ _ Hprefix _] _].
  eapply elem_of_prefix; [|exact Hprefix]. cbn. apply elem_of_app. right.
  by apply list_elem_of_singleton.
Qed.

Lemma computeAll_orphaned (irs : list dag.IngressRoute) :
  ∀ b b' k, dag.computeAll irs b = Done b' → k ∈ dag.orphaned b' →
    k ∈ dag.orphaned b ∨
    ∃ ir, ir ∈ irs ∧ dag.Spec_VirtualHost ir = None ∧ k = dag.fullName ir.
Proof.
  induction irs as [|ir0 irs IH]; intros b b' k Hall Hk.
  { injection Hall as <-. by left. }
  apply computeAll_done_cons in Hall as (b1 & Hone & Hrest).
  destruct (IH b1 b' k Hrest Hk) as [Hk1|(ir & Hin & Hnone & ->)].
  - apply computeIngressRoute_orphaned in Hone.
    destruct (dag.Spec_VirtualHost ir0) eqn:Hvh.
    + left. by apply Hone.
    + rewrite Hone in Hk1. apply elem_of_union in Hk1 as [Hk1|Hk1]; [|by left].
      apply elem_of_singleton in Hk1 as ->. right. exists ir0. split; [|done].
      apply elem_of_cons. by left.
  - right. exists ir. split; [|done]. apply elem_of_cons. by right.
Qed.

Lemma markConflicting_orphaned (b : dag.Builder) (fqdn : string) (irs : list dag.IngressRoute) :
  dag.orphaned (dag.markConflicting b fqdn irs) = dag.orphaned b.
Proof.
  unfold dag.markConflicting. generalize (dag.conflictMessage fqdn irs). intros msg.
  revert b. induction irs as [|ir irs IH]; intros b; [done|]. cbn [foldl]. by rewrite IH.
Qed.

Lemma validIngressRoutes_orphaned (b : dag.Builder) :
  dag.orphaned (dag.validIngressRoutes b).2 = dag.orphaned b.
Proof.
  unfold dag.validIngressRoutes.
  generalize (dag.partitionRoots (dag.range_ingressroutes (dag.ingressroutes b)).*2).1.
  generalize (dag.range_fqdns
                (dag.partitionRoots (dag.range_ingressroutes (dag.ingressroutes b)).*2).2).
  intros gl. revert b. induction gl as [|[fqdn irs] gl IH]; intros b v0; [done|].
  cbn [foldl]. unfold dag.groupStep at 2. cbn [fst snd].
  destruct irs as [|ir [|ir' irs]]; rewrite IH; try done; apply markConflicting_orphaned.
Qed.

(** The objects validIngressRoutes returns: first those without a virtual
    host, then roots. *)
Lemma groups_foldl_order (gl : list (string * list dag.IngressRoute)) :
  ∀ v0 b0, ∃ extra,
    (foldl dag.groupStep (v0, b0) gl).1 = (v0 ++ extra)%list ∧
    ∀ ir, ir ∈ extra → ∃ fqdn, (fqdn, [ir]) ∈ gl.
Proof.
  induction gl as [|[fqdn irs] gl IH]; intros v0 b0.
  { exists []. split; [by rewrite app_nil_r|]. intros ir Hin. by apply elem_of_nil in Hin. }
  cbn [foldl]. unfold dag.groupStep at 2. cbn [fst snd].
  destruct irs as [|ir0 [|ir1 irs]].
  - destruct (IH v0 (dag.markConflicting b0 fqdn [])) as (extra & -> & Hextra).
    exists extra. split; [done|]. intros ir Hin. destruct (Hextra ir Hin) as [fq Hfq].
    exists fq. by right.
  - destruct (IH (v0 ++ [ir0])%list b0) as (extra & -> & Hextra).
    exists (ir0 :: extra). split; [by rewrite <- app_assoc|].
    intros ir Hin. apply elem_of_cons in Hin as [->|Hin].
    + exists fqdn. by left.
    + destruct (Hextra ir Hin) as [fq Hfq]. exists fq. by right.
  - destruct (IH v0 (dag.markConflicting b0 fqdn (ir0 :: ir1 :: irs))) as (extra & -> & Hextra).
    exists extra. split; [done|]. intros ir Hin. destruct (Hextra ir Hin) as [fq Hfq].
    exists fq. by right.
Qed.

Lemma validIngressRoutes_order (b : dag.Builder) :
  ∃ delegates roots,
    (dag.validIngressRoutes b).1 = (delegates ++ roots)%list ∧
    Forall (fun ir => dag.Spec_VirtualHost ir = None) delegates ∧
    Forall (fun ir => is_Some (dag.Spec_VirtualHost ir)) roots.
Proof.
  unfold dag.validIngressRoutes.
  set (l := (dag.range_ingressroutes (dag.ingressroutes b)).*2).
  destruct (groups_foldl_order (dag.range_fqdns (dag.partitionRoots l).2)
              (dag.partitionRoots l).1 b) as (extra & -> & Hextra).
  exists (dag.partitionRoots l).1, extra. split; [done|]. split.
  - destruct (partitionRoots_spec l) as [-> _]. apply Forall_forall. intros ir Hin.
    by apply list_elem_of_filter in Hin as [Hnone _].
  - apply Forall_forall. intros ir Hin. destruct (Hextra ir Hin) as [fqdn Hg].
    apply elem_of_groups in Hg as [_ Hroots].
    assert (ir ∈ dag.rootsOf b fqdn) as Hir by (rewrite <- Hroots; by apply list_elem_of_singleton).
    apply elem_of_rootsOf in Hir as (k & vh & _ & -> & _). by eexists.
Qed.

Lemma computeAll_roots_orphaned (roots : list dag.IngressRoute) :
  Forall (fun ir => is_Some (dag.Spec_VirtualHost ir)) roots →
  ∀ b b', dag.computeAll roots b = Done b' → dag.orphaned b' ⊆ dag.orphaned b.
Proof.
  induction 1 as [|ir roots [vh Hvh] _ IH]; intros b b' Hall.
  { by injection Hall as <-. }
  apply computeAll_done_cons in Hall as (b1 & Hone & Hrest).
  apply computeIngressRoute_orphaned in Hone. rewrite Hvh in Hone.
  etrans; [by eapply IH|done].
Qed.

Lemma computeAll_source (irs : list dag.IngressRoute) (b b' : dag.Builder) :
  dag.computeAll irs b = Done b' → dag.ingressroutes b' = dag.ingressroutes b.
Proof.
  intros Hall. pose proof (computeAll_ends irs b) as Hends. rewrite Hall in Hends.
  by destruct Hends as [[-> _ _ _] _].
Qed.

(** The walk of a root whose first entry is a delegation that resolves takes
    the target out of the orphaned set. *)
Lemma first_delegation_unorphans (fuel : nat) (b b' : dag.Builder)
    (sw sw' : dag.ObjectStatusWriter) (ir dest : dag.IngressRoute) (prefixMatch host : string)
    (enforceTLS : bool) (route : dag.RouteIn) (rest : list dag.RouteIn) (d : dag.Delegate) :
  dag.Spec_Routes ir = route :: rest →
  dag.Services route = [] →
  dag.Route_Delegate route = Some d →
  dag.ingressroutes b !! (dag.delegateNamespace d ir, dag.Delegate_Name d) = Some dest →
  dag.processIngressRoutes fuel b sw ir prefixMatch [] host enforceTLS = Done (b', sw') →
  dag.fullName dest ∉ dag.orphaned b'.
Proof.
  intros Hrts Hs Hd Hk. destruct fuel as [|fuel]; [done|].
  rewrite processIngressRoutes_S, Hrts. cbn [app].
  set (R := fun b0 b0' : dag.Builder => dag.orphaned b0' ⊆ dag.orphaned b0).
  assert (Hcommit : ∀ b0 sw0, R b0 (dag.commit b0 sw0))
    by (intros; unfold R; cbn; reflexivity).
  assert (Hunorphan : ∀ b0 dest0, R b0 (dag.unorphan b0 dest0)).
  { intros b0 dest0. unfold R. cbn. set_solver. }
  assert (Hadd : ∀ b0 r, R b0 (dag.addRoutes b0 host r enforceTLS)).
  { intros b0 r. unfold R, dag.addRoutes. destruct enforceTLS; cbn; reflexivity. }
  assert (Hgone : dag.fullName dest ∉ dag.orphaned (dag.unorphan b dest)).
  { cbn. set_solver. }
  destruct (dag.onPath dest [ir]) eqn:Hpath.
  - rewrite (routesLoop_cycle _ _ _ _ _ _ _ _ _ _ d dest) by done. by intros [= <- _].
  - rewrite (routesLoop_follow _ _ _ _ _ _ _ _ _ _ d dest) by done.
    destruct (dag.processIngressRoutes fuel _ _ dest _ _ _ _) as [[b2 swd]| |] eqn:Hrec;
      [|done|done].
    intros Hloop.
    apply (processIngressRoutes_invariant R host enforceTLS Hcommit Hunorphan Hadd) in Hrec.
    apply (routesLoop_invariant R host enforceTLS Hcommit Hunorphan Hadd) in Hloop.
    2:{ intros b0 sw0 dest0 prefix' b0' sw0'.
        apply (processIngressRoutes_invariant R host enforceTLS Hcommit Hunorphan Hadd). }
    unfold R in Hrec, Hloop. cbn in Hloop. set_solver.
Qed.

(** X20: an object that a valid root delegates to is not left orphaned.
    validIngressRoutes hands the objects without a virtual host to
    computeIngressRoute before every root, so the orphaned marks are all set
    before the first walk; the walk of a root that passes its own checks and
    whose first route entry delegates to an object of the snapshot takes that
    object out of the orphaned set, and no later step puts it back. *)
Theorem a_delegation_target_is_not_left_orphaned (b b' : dag.Builder)
    (ir dest : dag.IngressRoute) (vh : dag.VirtualHostIn) (route : dag.RouteIn)
    (rest : list dag.RouteIn) (d : dag.Delegate) :
  dag.computeIngressRoutes b = Done b' →
  dag.Spec_VirtualHost ir = Some vh →
  dag.rootsOf b (dag.Fqdn vh) = [ir] →
  dag.rootAllowed (dag.Namespace ir) = true →
  dag.isBlank (dag.Fqdn vh) = false →
  dag.VirtualHost_TLS vh = None →
  dag.Spec_Routes ir = route :: rest →
  dag.Services route = [] →
  dag.Route_Delegate route = Some d →
  dag.ingressroutes b !! (dag.delegateNamespace d ir, dag.Delegate_Name d) = Some dest →
  dag.fullName dest ∉ dag.orphaned b'.
Proof.
  intros Hc Hvh Halone Hallowed Hblank Htls Hrts Hs Hd Hk.
  unfold dag.computeIngressRoutes in Hc.
  assert (Hvalid : ir ∈ (dag.validIngressRoutes b).1) by (apply elem_of_valid; eauto).
  assert (Hsrc0 : dag.ingressroutes (dag.validIngressRoutes b).2 = dag.ingressroutes b).
  { unfold dag.validIngressRoutes.
    set (l := (dag.range_ingressroutes (dag.ingressroutes b)).*2).
    by destruct (groups_foldl (dag.range_fqdns (dag.partitionRoots l).2)
                   (dag.partitionRoots l).1 b) as (_ & _ & _ & -> & _). }
  destruct (validIngressRoutes_order b) as (delegates & roots & Horder & Hdel & Hroots).
  rewrite Horder in Hc, Hvalid.
  apply elem_of_app in Hvalid as [Hin|Hin].
  { rewrite Forall_forall in Hdel. rewrite (Hdel ir Hin) in Hvh. done. }
  apply list_elem_of_split in Hin as (r1 & r2 & ->).
  apply Forall_app in Hroots as [_ Hroots]. apply Forall_cons in Hroots as [_ Hr2].
  apply computeAll_done_app in Hc as (b0 & Hpre & Hc).
  apply computeAll_done_app in Hc as (b1 & Hr1 & Hc).
  apply computeAll_done_cons in Hc as (b2 & Hone & Hpost).
  assert (Hsrc1 : dag.ingressroutes b1 = dag.ingressroutes b).
  { by rewrite (computeAll_source _ _ _ Hr1), (computeAll_source _ _ _ Hpre). }
  intros Horph. apply (computeAll_roots_orphaned r2 Hr2 _ _ Hpost) in Horph.
  revert Horph. revert Hone. unfold dag.computeIngressRoute.
  rewrite Hvh, Hallowed, Hblank. cbn [negb]. unfold dag.virtualHostTLS. rewrite Htls.
  cbn [orb]. rewrite !andb_false_r. cbn [mbind run_bind fst snd].
  destruct (dag.processIngressRoutes _ b1 _ ir _ _ _ _) as [[b3 sw3]| |] eqn:Hwalk;
    [|done|done].
  cbn [mbind run_bind fst snd]. intros [= <-]. cbn.
  eapply first_delegation_unorphans; [exact Hrts|exact Hs|exact Hd| |exact Hwalk].
  by rewrite Hsrc1.
Qed.

(** X21: when computeIngressRoutes returns, every root of the snapshot has
    been given a verdict: a status call that names it and carries an
    outcome, Valid or Invalid, is in the log. validIngressRoutes commits it
    (Invalid) for a root that shares its FQDN, computeIngressRoute for every
    other root, whatever the checks and the walk make of it. *)
Theorem every_root_gets_a_verdict (b b' : dag.Builder) (k : FullName)
    (ir : dag.IngressRoute) :
  dag.computeIngressRoutes b = Done b' →
  dag.ingressroutes b !! k = Some ir →
  is_Some (dag.Spec_VirtualHost ir) →
  ∃ sw, sw ∈ dag.statuses b' ∧ dag.osw_obj sw = dag.fullName ir ∧
        (dag.osw_status sw = Some dag.Valid ∨ ∃ msg, dag.osw_status sw = Some (dag.Invalid msg)).
Proof.
  intros Hc Hk [vh Hvh]. unfold dag.computeIngressRoutes in Hc.
  assert (Hverdict : ∀ sw, is_Some (dag.osw_status sw) →
            dag.osw_status sw = Some dag.Valid ∨
            ∃ msg, dag.osw_status sw = Some (dag.Invalid msg)).
  { intros sw [[|msg] ->]; eauto. }
  assert (Hroot : ir ∈ dag.rootsOf b (dag.Fqdn vh)).
  { apply elem_of_rootsOf. eauto. }
  assert (Hcases : dag.rootsOf b (dag.Fqdn vh) = [ir] ∨
                   length (dag.rootsOf b (dag.Fqdn vh)) ≠ 1%nat).
  { destruct (dag.rootsOf b (dag.Fqdn vh)) as [|ir0 [|ir1 irs]]; [by right| |by right].
    left. apply list_elem_of_singleton in Hroot. by subst. }
  destruct Hcases as [Halone|Hlen].
  { destruct (computeAll_statuses _ _ _ Hc ir) as (sw & Hin & Hobj & Hout).
    { apply elem_of_valid. right. eauto. }
    exists sw. split_and!; [done|done|]. apply Hverdict, Hout. by rewrite Hvh. }
  set (l := (dag.range_ingressroutes (dag.ingressroutes b)).*2).
  destruct (groups_foldl (dag.range_fqdns (dag.partitionRoots l).2) (dag.partitionRoots l).1 b)
    as (_ & _ & He & _).
  pose proof (computeAll_ends (dag.validIngressRoutes b).1 (dag.validIngressRoutes b).2)
    as Hends.
  rewrite Hc in Hends. destruct Hends as [[_ _ Hprefix _] _].
  eexists. split_and!.
  - eapply elem_of_prefix; [|exact Hprefix].
    apply (He (dag.Fqdn vh) (dag.rootsOf b (dag.Fqdn vh)) ir); [|done|done].
    apply elem_of_groups. split; [|done]. intros Hnil. rewrite Hnil in Hroot.
    by apply elem_of_nil in Hroot.
  - done.
  - right. by eexists.
Qed.

(** X22: computeIngressRoutes marks only objects without a virtual host as
    orphaned: a name in the orphaned set when it returns was there before, or
    is the name of an object of the snapshot that is not a root. *)
Theorem only_objects_without_virtual_host_are_orphaned (b b' : dag.Builder) (k : FullName) :
  dag.computeIngressRoutes b = Done b' →
  k ∈ dag.orphaned b' →
  k ∈ dag.orphaned b ∨
  ∃ k' ir, dag.ingressroutes b !! k' = Some ir ∧ dag.Spec_VirtualHost ir = None ∧
           k = dag.fullName ir.
Proof.
  intros Hc Hk. unfold dag.computeIngressRoutes in Hc.
  destruct (computeAll_orphaned _ _ _ k Hc Hk) as [Hk0|(ir & Hin & Hnone & ->)].
  - left. by rewrite validIngressRoutes_orphaned in Hk0.
  - right. apply elem_of_valid in Hin as [[_ [k' Hk']]|[fqdn Hroots]]; [eauto|].
    assert (ir ∈ dag.rootsOf b fqdn) as Hir by (rewrite Hroots; by apply list_elem_of_singleton).
    apply elem_of_rootsOf in Hir as (k' & vh & _ & Hvh & _). congruence.
Qed.

End more_roots.


(** ** The theorems on concrete inputs *)

(** Two hosts on the same secret, visited in either order. *)
Lemma grouping_is_order_insensitive_witness :
  contour.visitChains demo.lvc
    [demo.secureHost "a.example.com" "s1" TLS_AUTO TLS_AUTO;
     demo.secureHost "b.example.com" "s1" TLS_AUTO TLS_AUTO] []
  = contour.visitChains demo.lvc
      [demo.secureHost "b.example.com" "s1" TLS_AUTO TLS_AUTO;
       demo.secureHost "a.example.com" "s1" TLS_AUTO TLS_AUTO] [].
Proof.
  apply (@grouping_is_order_insensitive demo.envoyDeps demo.lvc
           (demo.secureHost "a.example.com" "s1" TLS_AUTO TLS_AUTO)
           (demo.secureHost "b.example.com" "s1" TLS_AUTO TLS_AUTO) []);
    try reflexivity.
  exists (opaque "s1"). reflexivity.
Defined.

(** A root whose second entry asks for an idle timeout of zero: the first
    entry's route stays, the third entry is not built. *)
Lemma routes_before_a_failing_entry_stay_witness :
  ∃ b', dag.routesLoop (fun _ _ _ _ => OutOfFuel) demo.unrelated "" [demo.unrelated]
          "c.example.com" false
          [demo.toService "/a" "web" None; demo.toService "/b" "web" (Some demo.noTime);
           demo.toService "/c" "web" None]
          (demo.builder [demo.unrelated]) (dag.WithObject demo.unrelated)
        = Done (b', dag.SetInvalid (dag.WithObject demo.unrelated)
                      ("route " +:+ demo.quote +:+ "/b" +:+ demo.quote +:+
                       ": idle timeout can not be disabled")) ∧
        dag.PathCondition <$> dag.routes (dag.lookupVirtualHost b' "c.example.com") = ["/a"].
Proof.
  destruct (mapM (fun route => dag.buildRoute (demo.builder [demo.unrelated]) demo.unrelated
                                 route "" false) [demo.toService "/a" "web" None])
    as [rs|e] eqn:Hrs; [|vm_compute in Hrs; discriminate Hrs].
  destruct (@routes_before_a_failing_entry_stay demo.dagDeps (fun _ _ _ _ => OutOfFuel)
              demo.unrelated "" [demo.unrelated] "c.example.com" false
              [demo.toService "/a" "web" None] (demo.toService "/b" "web" (Some demo.noTime))
              [demo.toService "/c" "web" None] rs
              ("route " +:+ demo.quote +:+ "/b" +:+ demo.quote +:+
               ": idle timeout can not be disabled")
              (demo.builder [demo.unrelated]) (dag.WithObject demo.unrelated))
    as (b' & Hloop & _ & Hroutes & _).
  - constructor; [split; reflexivity|constructor].
  - exact Hrs.
  - reflexivity.
  - reflexivity.
  - vm_compute. reflexivity.
  - exists b'. split; [exact Hloop|]. rewrite Hroutes.
    vm_compute in Hrs. injection Hrs as <-. vm_compute. reflexivity.
Defined.

(** Two entries that differ in their first header match only. *)
Lemma only_the_last_header_match_counts_witness :
  dag.buildRoute (demo.builder []) demo.unrelated
    (dag.withHeaderMatch (demo.toService "/" "web" None) [opaque "x-a"; opaque "x-c"]) "" false
  = dag.buildRoute (demo.builder []) demo.unrelated
      (dag.withHeaderMatch (demo.toService "/" "web" None) [opaque "x-b"; opaque "x-c"]) ""
      false.
Proof.
  exact (proj1 (@only_the_last_header_match_counts demo.dagDeps (demo.builder [])
                  demo.unrelated (demo.toService "/" "web" None)
                  [opaque "x-a"; opaque "x-c"] [opaque "x-b"; opaque "x-c"] "" false
                  eq_refl eq_refl)).
Defined.

(** A passthrough root whose tcpproxy delegates to an object without a
    tcpproxy block. *)
Lemma tcpproxy_delegation_to_an_object_without_tcpproxy_panics_witness :
  dag.computeIngressRoute
    (demo.builder [demo.tcpRoot "t" "t.example.com" (demo.tcpDelegation "b") [];
                   demo.delegate "b" []])
    (demo.tcpRoot "t" "t.example.com" (demo.tcpDelegation "b") [])
  = Panics.
Proof.
  refine (proj2 (@tcpproxy_delegation_to_an_object_without_tcpproxy_panics demo.dagDeps
                   (demo.builder [demo.tcpRoot "t" "t.example.com" (demo.tcpDelegation "b") [];
                                  demo.delegate "b" []])
                   (demo.tcpRoot "t" "t.example.com" (demo.tcpDelegation "b") [])
                   (demo.delegate "b" [])
                   {| dag.Fqdn := "t.example.com";
                      dag.VirtualHost_TLS := Some demo.passthroughTLS |}
                   (demo.tcpDelegation "b")
                   {| dag.Delegate_Name := "b"; dag.Delegate_Namespace := "" |}
                   (demo.builder [demo.tcpRoot "t" "t.example.com" (demo.tcpDelegation "b") [];
                                  demo.delegate "b" []])
                   false true
                   eq_refl eq_refl eq_refl eq_refl eq_refl eq_refl eq_refl eq_refl _ _ eq_refl)).
  - vm_compute. reflexivity.
  - discriminate.
Defined.

(** A tcpproxy with services of weight 5 and 3. *)
Lemma tcpproxy_service_weights_are_ignored_witness :
  ∃ proxy,
    dag.processIngressRouteTCPProxy 1 (demo.builder [])
      (dag.WithObject (demo.tcpRoot "t" "t.example.com" demo.twoBackends []))
      (demo.tcpRoot "t" "t.example.com" demo.twoBackends []) [] "t.example.com"
    = Done (dag.setTCPProxy (demo.builder []) "t.example.com" proxy,
            dag.SetValid (dag.WithObject (demo.tcpRoot "t" "t.example.com" demo.twoBackends []))) ∧
    Forall (fun c => dag.Weight c = 0) (dag.TCPProxy_Clusters proxy) ∧
    ∃ cs, demo.tcpWeightsOf (envoy.TCPProxy "ingress_https" proxy [])
          = (fun c => (envoy.TcpClusterWeight_Name c, envoy.TcpClusterWeight_Weight c)) <$> cs ∧
          length cs = 2%nat ∧
          Forall (fun c => envoy.TcpClusterWeight_Weight c = 1) cs.
Proof.
  destruct (@tcpproxy_service_weights_are_ignored demo.dagDeps demo.envoyDeps 0
              (demo.builder [])
              (dag.WithObject (demo.tcpRoot "t" "t.example.com" demo.twoBackends []))
              (demo.tcpRoot "t" "t.example.com" demo.twoBackends []) [] "t.example.com"
              demo.twoBackends)
    as (proxy & Hrun & _ & Hzero & Hfilter).
  - reflexivity.
  - reflexivity.
  - discriminate.
  - repeat constructor; eexists; reflexivity.
  - exists proxy. split; [exact Hrun|]. split; [exact Hzero|].
    destruct (Hfilter ltac:(discriminate) "ingress_https" []) as (cs & Hcs & Hlen & Hone).
    exists cs. split; [|split; [exact Hlen|exact Hone]].
    unfold demo.tcpWeightsOf. rewrite Hcs. reflexivity.
Defined.

(** The root [a] of the cycle, built beside the unrelated root [c]. *)
Lemma a_root_builds_only_its_own_host_witness :
  ∃ b', dag.computeIngressRoute
          (demo.builder [demo.cycleA; demo.cycleB; demo.unrelated]) demo.cycleA = Done b' ∧
        dag.virtualhosts b' !! "c.example.com"
        = dag.virtualhosts (demo.builder [demo.cycleA; demo.cycleB; demo.unrelated])
            !! "c.example.com" ∧
        dag.securevirtualhosts b' !! "c.example.com"
        = dag.securevirtualhosts (demo.builder [demo.cycleA; demo.cycleB; demo.unrelated])
            !! "c.example.com".
Proof.
  destruct (dag.computeIngressRoute
              (demo.builder [demo.cycleA; demo.cycleB; demo.unrelated]) demo.cycleA)
    as [b'| |] eqn:Hc; [|vm_compute in Hc; discriminate Hc..].
  exists b'. split; [reflexivity|].
  destruct (@a_root_builds_only_its_own_host demo.dagDeps _ b' demo.cycleA Hc)
    as (Hframe & _).
  apply Hframe. discriminate.
Defined.

(** A passthrough root with a tcpproxy and an HTTP route. *)
Lemma a_tcpproxy_root_puts_no_route_on_the_secure_host_witness :
  ∃ b', dag.computeIngressRoute
          (demo.builder [demo.tcpRoot "t" "t.example.com" demo.twoBackends
                           [demo.toService "/" "web" None]])
          (demo.tcpRoot "t" "t.example.com" demo.twoBackends [demo.toService "/" "web" None])
        = Done b' ∧
        dag.secureRoutes b' "t.example.com" = [].
Proof.
  destruct (dag.computeIngressRoute
              (demo.builder [demo.tcpRoot "t" "t.example.com" demo.twoBackends
                               [demo.toService "/" "web" None]])
              (demo.tcpRoot "t" "t.example.com" demo.twoBackends
                 [demo.toService "/" "web" None]))
    as [b'| |] eqn:Hc; [|vm_compute in Hc; discriminate Hc..].
  exists b'. split; [reflexivity|].
  rewrite (@a_tcpproxy_root_puts_no_route_on_the_secure_host demo.dagDeps _ b' _ Hc
             ltac:(eexists; reflexivity) "t.example.com").
  reflexivity.
Defined.

(** The cycle of the spec and a root beside it: root [a], whose walk finds
    the cycle, has its verdict. *)
Lemma every_root_gets_a_verdict_witness :
  ∃ b', dag.computeIngressRoutes (demo.builder [demo.cycleA; demo.cycleB; demo.unrelated])
        = Done b' ∧
        ∃ sw, sw ∈ dag.statuses b' ∧ dag.osw_obj sw = ("default", "a") ∧
              (dag.osw_status sw = Some dag.Valid ∨
               ∃ msg, dag.osw_status sw = Some (dag.Invalid msg)).
Proof.
  destruct (dag.computeIngressRoutes (demo.builder [demo.cycleA; demo.cycleB; demo.unrelated]))
    as [b'| |] eqn:Hc; [|vm_compute in Hc; discriminate Hc..].
  exists b'. split; [reflexivity|].
  apply (@every_root_gets_a_verdict demo.dagDeps demo.rangeOrder _ b' ("default", "a")
           demo.cycleA Hc).
  - vm_compute. reflexivity.
  - by eexists.
Defined.

(** A delegate that no root points to stays orphaned; it is no root. *)
Lemma only_objects_without_virtual_host_are_orphaned_witness :
  ∃ b', dag.computeIngressRoutes (demo.builder [demo.unrelated; demo.delegate "lonely" []])
        = Done b' ∧
        ("default", "lonely") ∈ dag.orphaned b' ∧
        ∃ k' ir, dag.ingressroutes (demo.builder [demo.unrelated; demo.delegate "lonely" []])
                   !! k' = Some ir ∧
                 dag.Spec_VirtualHost ir = None ∧ ("default", "lonely") = dag.fullName ir.
Proof.
  destruct (dag.computeIngressRoutes (demo.builder [demo.unrelated; demo.delegate "lonely" []]))
    as [b'| |] eqn:Hc; [|vm_compute in Hc; discriminate Hc..].
  assert (Hin : ("default", "lonely") ∈ dag.orphaned b').
  { pose proof Hc as Hc'. vm_compute in Hc'. injection Hc' as <-.
    apply (bool_decide_unpack _). vm_compute. exact I. }
  exists b'. split; [reflexivity|]. split; [exact Hin|].
  destruct (@only_objects_without_virtual_host_are_orphaned demo.dagDeps demo.rangeOrder
              _ b' ("default", "lonely") Hc Hin) as [Hbefore|Hobj].
  - apply elem_of_empty in Hbefore. destruct Hbefore.
  - exact Hobj.
Defined.

(** A passthrough host visited after a TLS-terminating one. *)
Lemma a_passthrough_host_gets_its_own_chain_witness :
  ∃ own,
    contour.groupOrAppend demo.lvc (demo.passthroughHost "p.example.com" "tcp")
      (contour.visitChains demo.lvc [demo.secureHost "a.example.com" "s1" TLS_AUTO TLS_AUTO] [])
    = (contour.visitChains demo.lvc [demo.secureHost "a.example.com" "s1" TLS_AUTO TLS_AUTO] []
       ++ [own])%list ∧
    envoy.ServerNames (envoy.FilterChainMatchOf own) = ["p.example.com"] ∧
    envoy.TransportSocket own = None.
Proof.
  destruct (@a_passthrough_host_gets_its_own_chain demo.envoyDeps demo.lvc
              (demo.passthroughHost "p.example.com" "tcp")
              (contour.visitChains demo.lvc
                 [demo.secureHost "a.example.com" "s1" TLS_AUTO TLS_AUTO] [])
              eq_refl) as (own & Happ & Hnames & Hsock & _).
  exists own. split; [exact Happ|]. split; [exact Hnames|exact Hsock].
Defined.

(** A root whose only entry delegates to an object that does not exist. *)
Lemma unresolvable_entries_are_skipped_witness :
  dag.processIngressRoutes 1
    (demo.builder [demo.root "r" "r.example.com" [demo.toDelegate "/" "missing"]])
    (dag.WithObject (demo.root "r" "r.example.com" [demo.toDelegate "/" "missing"]))
    (demo.root "r" "r.example.com" [demo.toDelegate "/" "missing"]) "" [] "r.example.com" false
  = Done (demo.builder [demo.root "r" "r.example.com" [demo.toDelegate "/" "missing"]],
          dag.SetValid
            (dag.WithObject (demo.root "r" "r.example.com" [demo.toDelegate "/" "missing"]))).
Proof.
  apply (@unresolvable_entries_are_skipped demo.dagDeps 0).
  constructor; [|constructor]. split; [reflexivity|].
  intros d Hd. injection Hd as <-. vm_compute. reflexivity.
Defined.

(** A root that delegates to [b]: [b] is marked orphaned first, and is not
    orphaned in the end. *)
Lemma a_delegation_target_is_not_left_orphaned_witness :
  ∃ b', dag.computeIngressRoutes
          (demo.builder [demo.root "r" "r.example.com" [demo.toDelegate "/" "b"];
                         demo.delegate "b" [demo.toService "/" "web" None]])
        = Done b' ∧
        ("default", "b") ∉ dag.orphaned b'.
Proof.
  destruct (dag.computeIngressRoutes
              (demo.builder [demo.root "r" "r.example.com" [demo.toDelegate "/" "b"];
                             demo.delegate "b" [demo.toService "/" "web" None]]))
    as [b'| |] eqn:Hc; [|vm_compute in Hc; discriminate Hc..].
  exists b'. split; [reflexivity|].
  apply (@a_delegation_target_is_not_left_orphaned demo.dagDeps demo.rangeOrder _ b'
           (demo.root "r" "r.example.com" [demo.toDelegate "/" "b"])
           (demo.delegate "b" [demo.toService "/" "web" None])
           {| dag.Fqdn := "r.example.com"; dag.VirtualHost_TLS := None |}
           (demo.toDelegate "/" "b") []
           {| dag.Delegate_Name := "b"; dag.Delegate_Namespace := "" |}
           Hc eq_refl); reflexivity.
Defined.
